(** * Training pipeline orchestrator: dataset generation, fine-tune job
      lifecycle and model evaluation

    A shallow embedding of the route handlers of the application:
    - [api/bots/datasets/generate/route.ts]: [createExampleHash],
      [getAllExistingExampleHashes], [processGenerationJob],
      [generateBatch], [generateFallbackExamples];
    - [api/bots/fine-tune/jobs/route.ts]: [POST] (job submission);
    - [api/bots/fine-tune/jobs/[job_id]/route.ts]: [GET] (status
      reconciliation);
    - the test-model route: [testModelWithExamples], [calculateSimilarity],
      [calculateMetrics].

    Conventions.  A JavaScript string is represented by the [string] of its
    UTF-8 bytes.  ECMAScript built-ins that are fully specified by a small
    algorithm ([trim], [split], [JSON.stringify] of strings, SHA-256,
    [Array.prototype.sort] as a stable sort) are defined here; built-ins
    that depend on the Unicode tables or on the platform ([toLowerCase],
    [localeCompare], [JSON.parse], the regular expressions applied to a
    provider answer) are section variables, so every theorem holds for any
    implementation of them.  Network calls and the record store are explicit
    inputs of the handlers. *)

From Stdlib Require Import ZArith QArith Qround String Ascii List Lia Permutation.
From Stdlib Require Qcanon.
From stdpp Require Import base gmap sets list strings sorting pretty.

Local Open Scope Z_scope.

(** * ECMAScript strings *)

Module JS.

Definition code (c : ascii) : Z := Z.of_N (N_of_ascii c).

Definition byte (z : Z) : ascii := ascii_of_N (Z.to_N z).

Fixpoint bytes (s : string) : list Z :=
  match s with
  | EmptyString => []
  | String c r => code c :: bytes r
  end.

Fixpoint of_bytes (l : list Z) : string :=
  match l with
  | [] => EmptyString
  | b :: r => String (byte b) (of_bytes r)
  end.

Fixpoint drop (n : nat) (s : string) : string :=
  match n, s with
  | O, _ => s
  | S k, EmptyString => EmptyString
  | S k, String _ r => drop k r
  end.

(** Number of bytes of the WhiteSpace or LineTerminator code point at the
    head of [s], 0 when there is none.  The class is the one of [\s] and of
    [String.prototype.trim]: U+0009..U+000D, U+0020, U+00A0, U+1680,
    U+2000..U+200A, U+2028, U+2029, U+202F, U+205F, U+3000, U+FEFF. *)
Definition ws_len (s : string) : nat :=
  match bytes s with
  | b0 :: t =>
      if ((9 <=? b0) && (b0 <=? 13)) || (b0 =? 32) then 1%nat
      else match t with
           | b1 :: t' =>
               if (b0 =? 194) && (b1 =? 160) then 2%nat
               else match t' with
                    | b2 :: _ =>
                        if (b0 =? 225) && (b1 =? 154) && (b2 =? 128) then 3%nat
                        else if (b0 =? 226) && (b1 =? 128)
                                && (((128 <=? b2) && (b2 <=? 138))
                                    || (b2 =? 168) || (b2 =? 169) || (b2 =? 175))
                        then 3%nat
                        else if (b0 =? 226) && (b1 =? 129) && (b2 =? 159) then 3%nat
                        else if (b0 =? 227) && (b1 =? 128) && (b2 =? 128) then 3%nat
                        else if (b0 =? 239) && (b1 =? 187) && (b2 =? 191) then 3%nat
                        else 0%nat
                    | [] => 0%nat
                    end
           | [] => 0%nat
           end
  | [] => 0%nat
  end.

Fixpoint trimStart_fuel (fuel : nat) (s : string) : string :=
  match fuel with
  | O => s
  | S k => match ws_len s with
           | O => s
           | n => trimStart_fuel k (drop n s)
           end
  end.

Definition trimStart (s : string) : string := trimStart_fuel (String.length s) s.

(** [all_ws s]: [s] consists of white space only. *)
Definition all_ws (s : string) : bool :=
  match trimStart s with EmptyString => true | _ => false end.

Fixpoint trimEnd (s : string) : string :=
  match s with
  | EmptyString => EmptyString
  | String c r => if all_ws s then EmptyString else String c (trimEnd r)
  end.

(** [String.prototype.trim] *)
Definition trim (s : string) : string := trimEnd (trimStart s).

(** The truth value of a string: the empty string is falsy. *)
Definition truthy (s : string) : bool :=
  match s with EmptyString => false | _ => true end.

(** [s.split(/\s+/)]: the pieces between maximal runs of white space; a
    leading or trailing run leaves an empty piece, and the empty string
    gives one empty piece. *)
Fixpoint split_ws_fuel (fuel : nat) (in_run : bool) (s : string) : list string :=
  match fuel with
  | O => [EmptyString]
  | S k =>
      match s with
      | EmptyString => [EmptyString]
      | String c r =>
          match ws_len s with
          | O => match split_ws_fuel k false r with
                 | t :: ts => String c t :: ts
                 | [] => [String c EmptyString]
                 end
          | n => if in_run then split_ws_fuel k true (drop n s)
                 else EmptyString :: split_ws_fuel k true (drop n s)
          end
      end
  end.

Definition split_ws (s : string) : list string :=
  split_ws_fuel (S (String.length s)) false s.

Lemma split_ws_fuel_nonempty fuel in_run s : split_ws_fuel fuel in_run s <> [].
Proof.
  revert in_run s. induction fuel as [|k IH]; intros in_run s; simpl; [done|].
  destruct s as [|c r]; [done|].
  destruct (ws_len (String c r)).
  - by destruct (split_ws_fuel k false r).
  - destruct in_run; [apply IH|done].
Qed.

Lemma split_ws_nonempty s : split_ws s <> [].
Proof. apply split_ws_fuel_nonempty. Qed.

(** [s.split('\n')] *)
Fixpoint split_lines (s : string) : list string :=
  match s with
  | EmptyString => [EmptyString]
  | String c r =>
      if code c =? 10 then EmptyString :: split_lines r
      else match split_lines r with
           | t :: ts => String c t :: ts
           | [] => [String c EmptyString]
           end
  end.

(** [lines.join('\n')] *)
Fixpoint join_lines (l : list string) : string :=
  match l with
  | [] => EmptyString
  | [x] => x
  | x :: r => x +:+ String (byte 10) (join_lines r)
  end.

Definition hex_digit (z : Z) : ascii :=
  if z <? 10 then byte (48 + z) else byte (87 + z).

(** [JSON.stringify] of a string value: the quoted string, with the quote,
    the backslash and the control characters below U+0020 escaped. *)
Fixpoint json_escape (s : string) : string :=
  match s with
  | EmptyString => EmptyString
  | String c r =>
      let b := code c in
      let rest := json_escape r in
      if b =? 34 then String (byte 92) (String (byte 34) rest)
      else if b =? 92 then "\\" +:+ rest
      else if b =? 8 then "\b" +:+ rest
      else if b =? 12 then "\f" +:+ rest
      else if b =? 10 then "\n" +:+ rest
      else if b =? 13 then "\r" +:+ rest
      else if b =? 9 then "\t" +:+ rest
      else if b <? 32 then
        "\u00" +:+ String (hex_digit (b / 16)) (String (hex_digit (b mod 16)) rest)
      else String c rest
  end.

Definition quote : string := String (byte 34) EmptyString.

Definition json_string (s : string) : string := quote +:+ json_escape s +:+ quote.

(** [Array.prototype.sort(cmp)].  ECMAScript requires the sort to be stable;
    for a comparator that is a total preorder the result of a stable sort is
    unique, and this insertion sort computes it: an element is placed after
    every element that does not compare greater. *)
Section Sort.
Context {A : Type} (cmp : A -> A -> Z).

Fixpoint sort_insert (x : A) (l : list A) : list A :=
  match l with
  | [] => [x]
  | y :: r => if cmp y x <=? 0 then y :: sort_insert x r else x :: l
  end.

Definition sort (l : list A) : list A :=
  fold_left (fun acc x => sort_insert x acc) l [].

(** The order a comparator induces: [a] may stand before [b]. *)
Definition cmp_le (a b : A) : Prop := cmp a b <= 0.

Lemma sort_insert_perm x l : sort_insert x l ≡ₚ x :: l.
Proof.
  induction l as [|y r IH]; simpl; [done|].
  destruct (cmp y x <=? 0); [|done].
  rewrite IH. apply Permutation_swap.
Qed.

Lemma sort_from_perm l acc :
  fold_left (fun acc x => sort_insert x acc) l acc ≡ₚ l ++ acc.
Proof.
  revert acc; induction l as [|x l IH]; intros acc; simpl; [done|].
  rewrite IH, sort_insert_perm. by rewrite Permutation_middle.
Qed.

Lemma sort_perm l : sort l ≡ₚ l.
Proof. unfold sort. rewrite sort_from_perm. by rewrite app_nil_r. Qed.

Lemma sort_length l : length (sort l) = length l.
Proof. apply Permutation_length, sort_perm. Qed.

Hypothesis cmp_total : forall a b, cmp_le a b \/ cmp_le b a.
Hypothesis cmp_trans : forall a b c, cmp_le a b -> cmp_le b c -> cmp_le a c.

Lemma sort_insert_sorted x l :
  StronglySorted cmp_le l -> StronglySorted cmp_le (sort_insert x l).
Proof.
  induction 1 as [|y r Hr IH Hy]; simpl.
  - repeat constructor.
  - destruct (Z.leb_spec (cmp y x) 0) as [Hle|Hgt].
    + constructor; [done|].
      rewrite sort_insert_perm. constructor; [done|done].
    + assert (cmp_le x y) as Hxy by (destruct (cmp_total x y) as [?|H']; [done|unfold cmp_le in H'; lia]).
      constructor; [by constructor|].
      constructor; [done|].
      eapply Forall_impl; [exact Hy|]. intros z Hz. by eapply cmp_trans.
Qed.

Lemma sort_from_sorted l acc :
  StronglySorted cmp_le acc ->
  StronglySorted cmp_le (fold_left (fun acc x => sort_insert x acc) l acc).
Proof.
  revert acc; induction l as [|x l IH]; intros acc Hacc; simpl; [done|].
  by apply IH, sort_insert_sorted.
Qed.

Lemma sort_sorted l : StronglySorted cmp_le (sort l).
Proof. apply sort_from_sorted. constructor. Qed.

(** When no two distinct elements compare as equal, the sorted list is a
    canonical form of the multiset of elements. *)
Lemma sort_canonical l1 l2 :
  (forall a b, cmp_le a b -> cmp_le b a -> a = b) ->
  l1 ≡ₚ l2 -> sort l1 = sort l2.
Proof.
  intros Hanti Hp.
  apply (StronglySorted_unique_strong cmp_le).
  - intros a b _ _. apply Hanti.
  - apply sort_sorted.
  - apply sort_sorted.
  - by rewrite !sort_perm.
Qed.

End Sort.

End JS.

(** * SHA-256 (FIPS 180-4), on byte strings

    [createHash('sha256').update(s).digest('hex')] hashes the UTF-8 bytes of
    [s] and prints the digest as 64 lower-case hexadecimal digits. *)

Module SHA256.

Definition w32 (x : Z) : Z := x mod 4294967296.

Definition rotr (n x : Z) : Z :=
  Z.lor (Z.shiftr x n) (w32 (Z.shiftl x (32 - n))).

Definition Ch (x y z : Z) : Z :=
  Z.lxor (Z.land x y) (Z.land (Z.lxor x 0xffffffff) z).

Definition Maj (x y z : Z) : Z :=
  Z.lxor (Z.lxor (Z.land x y) (Z.land x z)) (Z.land y z).

Definition Sigma0 (x : Z) : Z := Z.lxor (Z.lxor (rotr 2 x) (rotr 13 x)) (rotr 22 x).
Definition Sigma1 (x : Z) : Z := Z.lxor (Z.lxor (rotr 6 x) (rotr 11 x)) (rotr 25 x).
Definition sigma0 (x : Z) : Z := Z.lxor (Z.lxor (rotr 7 x) (rotr 18 x)) (Z.shiftr x 3).
Definition sigma1 (x : Z) : Z := Z.lxor (Z.lxor (rotr 17 x) (rotr 19 x)) (Z.shiftr x 10).

Definition is_prime (n : nat) : bool :=
  forallb (fun d => negb (n mod d =? 0)%nat) (seq 2 (n - 2)).

Definition primes (n : nat) : list Z :=
  map Z.of_nat (take n (List.filter is_prime (seq 2 320))).

(** The largest [r] below [2 ^ bits] with [r ^ 3 <= n], bit by bit. *)
Fixpoint cube_root (bits : nat) (n r : Z) : Z :=
  match bits with
  | O => r
  | S b =>
      let r' := r + 2 ^ Z.of_nat b in
      cube_root b n (if r' * r' * r' <=? n then r' else r)
  end.

(** The round constants are the first 32 bits of the fractional parts of
    the cube roots of the first 64 primes; the initial hash value holds
    those of the square roots of the first 8 primes. *)
Definition K : list Z :=
  Eval vm_compute in map (fun q => w32 (cube_root 40 (q * 2 ^ 96) 0)) (primes 64).

Definition H0 : list Z :=
  Eval vm_compute in map (fun q => w32 (Z.sqrt (q * 2 ^ 64))) (primes 8).

(** Padding: the byte 0x80, zero bytes up to 56 modulo 64, then the bit
    length as a 64-bit big-endian integer. *)
Definition be_bytes (n : nat) (x : Z) : list Z :=
  map (fun i => Z.shiftr x (8 * Z.of_nat (n - 1 - i)) mod 256) (seq 0 n).

Definition pad (msg : list Z) : list Z :=
  let len := Z.of_nat (length msg) in
  let zeros := Z.to_nat ((55 - len) mod 64) in
  msg ++ [128] ++ repeat 0 zeros ++ be_bytes 8 (8 * len).

Fixpoint be_words (fuel : nat) (l : list Z) : list Z :=
  match fuel, l with
  | S k, a :: b :: c :: d :: r =>
      (a * 16777216 + b * 65536 + c * 256 + d) :: be_words k r
  | _, _ => []
  end.

Fixpoint blocks (fuel : nat) (ws : list Z) : list (list Z) :=
  match fuel, ws with
  | S k, _ :: _ => firstn 16 ws :: blocks k (skipn 16 ws)
  | _, _ => []
  end.

(** Message schedule, most recent word first: [rev_w] holds W[t-1], W[t-2], ... *)
Fixpoint schedule (n : nat) (rev_w : list Z) : list Z :=
  match n with
  | O => rev_w
  | S k =>
      let w i := nth i rev_w 0 in
      schedule k (w32 (sigma1 (w 1%nat) + w 6%nat + sigma0 (w 14%nat) + w 15%nat) :: rev_w)
  end.

Definition round (st : list Z) (kw : Z * Z) : list Z :=
  match st with
  | [a; b; c; d; e; f; g; h] =>
      let t1 := h + Sigma1 e + Ch e f g + fst kw + snd kw in
      let t2 := Sigma0 a + Maj a b c in
      [w32 (t1 + t2); a; b; c; w32 (d + t1); e; f; g]
  | _ => st
  end.

Definition compress (h : list Z) (block : list Z) : list Z :=
  let w := rev (schedule 48 (rev block)) in
  let st := fold_left round (combine K w) h in
  map (fun p => w32 (fst p + snd p)) (combine h st).

Definition digest (msg : list Z) : list Z :=
  let p := pad msg in
  let ws := be_words (length p) p in
  let h := fold_left compress (blocks (length ws) ws) H0 in
  concat (map (be_bytes 4) h).

Definition hex (l : list Z) : string :=
  JS.of_bytes (concat (map (fun b => [JS.code (JS.hex_digit (b / 16));
                                      JS.code (JS.hex_digit (b mod 16))]) l)).

Definition sha256_hex (s : string) : string := hex (digest (JS.bytes s)).

End SHA256.

Example sha256_abc :
  SHA256.sha256_hex "abc"
  = "ba7816bf8f01cfea414140de5dae2223b00361a396177a9cb410ff61f20015ad"%string.
Proof. vm_compute. reflexivity. Qed.

Example sha256_two_blocks :
  SHA256.sha256_hex "abcdbcdecdefdefgefghfghighijhijkijkljklmklmnlmnomnopnopq"
  = "248d6a61d20638b8e5c026930c3e6039a33ce45964ff2167f6ecedd419db06c1"%string.
Proof. vm_compute. reflexivity. Qed.

(** * ECMAScript numbers

    A finite Number is represented by the rational it denotes, in lowest
    terms.  [b64] rounds a rational to the nearest binary64 value, ties to
    even (the exponent range is not modelled: every quantity below is far
    from overflow and from the subnormal range).  The arithmetic operators
    are the exact operation followed by [b64], as IEEE 754 prescribes. *)

Module Num.

(** [scale k p q] is the fraction [p/q * 2^k], for any integer [k]. *)
Definition scale (k p q : Z) : Z * Z :=
  if 0 <=? k then (p * 2 ^ k, q) else (p, q * 2 ^ (- k)).

(** [ilog2 p q] is the integer [e] with [2^e <= p/q < 2^(e+1)], for
    positive [p] and [q]. *)
Definition ilog2 (p q : Z) : Z :=
  let e0 := Z.log2 p - Z.log2 q in
  let '(n, d) := scale (- e0) p q in
  if d <=? n then e0 else e0 - 1.

(** [p/q], positive, rounded to 53 significant bits: with [k] such that
    [2^52 <= p/q * 2^k < 2^53], the integer nearest to [p/q * 2^k] (the even
    one of the two when it is half way), scaled back. *)
Definition round_pos (p q : Z) : Q :=
  let k := 52 - ilog2 p q in
  let '(n, d) := scale k p q in
  let m := n / d in
  let r := n mod d in
  let m' := if 2 * r <? d then m
            else if d <? 2 * r then m + 1
            else if Z.even m then m else m + 1 in
  let '(n', d') := scale (- k) m' 1 in
  Qred (n' # Z.to_pos d').

Definition b64 (x : Q) : Q :=
  match Z.compare (Qnum x) 0 with
  | Eq => 0%Q
  | Gt => round_pos (Qnum x) (Zpos (Qden x))
  | Lt => Qopp (round_pos (- Qnum x) (Zpos (Qden x)))
  end.

Definition of_Z (n : Z) : Q := b64 (inject_Z n).
Definition of_nat (n : nat) : Q := of_Z (Z.of_nat n).
Definition fadd (x y : Q) : Q := b64 (x + y).
Definition fmul (x y : Q) : Q := b64 (x * y).
Definition fdiv (x y : Q) : Q := b64 (x / y).

(** [Math.floor] *)
Definition floor (x : Q) : Z := Qfloor x.

(** [x >= y] and [x < y] *)
Definition geb (x y : Q) : bool := Qle_bool y x.
Definition ltb (x y : Q) : bool := negb (Qle_bool y x).

(** The literals [0.8] and [0.7]. *)
Definition lit_0_8 : Q := b64 (8 # 10).
Definition lit_0_7 : Q := b64 (7 # 10).

(** ** Facts about the rounding *)

Lemma scale_nonneg k p q : 0 <= k -> scale k p q = (p * 2 ^ k, q).
Proof. intros H. unfold scale. by rewrite (proj2 (Z.leb_le 0 k) H). Qed.

Lemma scale_neg k p q : k < 0 -> scale k p q = (p, q * 2 ^ (- k)).
Proof. intros H. unfold scale. by rewrite (proj2 (Z.leb_gt 0 k) H). Qed.

(** A non-negative [ilog2 p q] is a lower bound of the binary logarithm. *)
Lemma ilog2_lower p q :
  0 < p -> 0 < q -> 0 <= ilog2 p q -> 2 ^ ilog2 p q * q <= p.
Proof.
  intros Hp Hq. unfold ilog2.
  pose proof (Z.log2_spec p Hp) as [Hp1 Hp2].
  pose proof (Z.log2_spec q Hq) as [Hq1 Hq2].
  pose proof (Z.log2_nonneg p) as Ha. pose proof (Z.log2_nonneg q) as Hb.
  set (a := Z.log2 p) in *. set (b := Z.log2 q) in *.
  destruct (Z.le_gt_cases 0 (- (a - b))) as [Hle|Hgt].
  - rewrite scale_nonneg by done.
    destruct (Z.leb_spec q (p * 2 ^ (- (a - b)))) as [H1|H1]; cbv iota; intros He.
    + assert (a - b = 0) as E by lia. rewrite E in *. change (- 0) with 0 in H1.
      rewrite Z.pow_0_r in *. lia.
    + lia.
  - rewrite scale_neg by done. replace (- - (a - b)) with (a - b) by lia.
    destruct (Z.leb_spec (q * 2 ^ (a - b)) p) as [H1|H1]; cbv iota; intros He.
    + lia.
    + assert (2 ^ (a - b - 1) * 2 ^ (b + 1) = 2 ^ a) as Hpow.
      { rewrite <- Z.pow_add_r by lia. f_equal. lia. }
      assert (0 < 2 ^ (a - b - 1)) by (apply Z.pow_pos_nonneg; lia).
      nia.
Qed.

Lemma Qred_int a d z : 0 < d -> a = z * d -> Qred (a # Z.to_pos d) = inject_Z z.
Proof.
  intros Hd ->. rewrite <- (Qcanon.Qred_identity (inject_Z z)).
  - apply Qred_complete. unfold Qeq, inject_Z. simpl. rewrite Z2Pos.id by done. lia.
  - simpl. apply Z.gcd_1_r.
Qed.

(** Integers below [2^53] are binary64 values. *)
Lemma b64_int n : 0 <= n < 2 ^ 53 -> b64 (inject_Z n) = inject_Z n.
Proof.
  intros [Hn0 Hn]. unfold b64. simpl Qnum. simpl Qden.
  destruct (Z.compare_spec n 0) as [->|?|Hpos]; [done|lia|].
  unfold round_pos, ilog2. change (Z.log2 1) with 0. rewrite Z.sub_0_r.
  pose proof (Z.log2_spec n Hpos) as [Hl1 Hl2].
  pose proof (Z.log2_nonneg n) as Ha. set (a := Z.log2 n) in *.
  assert (a < 53) as Ha53.
  { apply (Z.pow_lt_mono_r_iff 2); lia. }
  assert (scale (- a) n 1 = if a =? 0 then (n * 1, 1) else (n, 1 * 2 ^ a)) as ->.
  { destruct (Z.eqb_spec a 0) as [->|Hne]; [done|].
    rewrite scale_neg by lia. by replace (- - a) with a by lia. }
  assert ((let '(n0, d) := if a =? 0 then (n * 1, 1) else (n, 1 * 2 ^ a) in
           if d <=? n0 then a else a - 1) = a) as ->.
  { destruct (Z.eqb_spec a 0) as [E|Hne].
    - rewrite E in *. destruct (Z.leb_spec 1 (n * 1)); lia.
    - destruct (Z.leb_spec (1 * 2 ^ a) n); lia. }
  rewrite scale_nonneg by lia.
  rewrite Z.div_1_r, Z.mod_1_r. change (2 * 0 <? 1) with true. cbv iota.
  assert (0 < 2 ^ (52 - a)) by (apply Z.pow_pos_nonneg; lia).
  destruct (Z.eq_dec a 52) as [E|Hne].
  - rewrite E. change (52 - 52) with 0. simpl scale. cbv iota beta.
    apply (Qred_int _ 1); lia.
  - rewrite scale_neg by lia. replace (- - (52 - a)) with (52 - a) by lia.
    apply Qred_int; lia.
Qed.

Lemma of_Z_int n : 0 <= n < 2 ^ 53 -> of_Z n = inject_Z n.
Proof. apply b64_int. Qed.

Lemma of_nat_int n : (Z.of_nat n < 2 ^ 53) -> of_nat n = inject_Z (Z.of_nat n).
Proof. intros H. apply b64_int. lia. Qed.

(** A positive value divided by itself is 1. *)
Lemma ilog2_same p : ilog2 (Zpos p) (Zpos p) = 0.
Proof.
  unfold ilog2. rewrite Z.sub_diag. change (- 0) with 0.
  rewrite scale_nonneg by lia. rewrite Z.pow_0_r, Z.mul_1_r. by rewrite Z.leb_refl.
Qed.

Lemma round_pos_same p : round_pos (Zpos p) (Zpos p) = 1%Q.
Proof.
  unfold round_pos. rewrite ilog2_same. change (52 - 0) with 52.
  rewrite scale_nonneg by lia.
  rewrite (Z.mul_comm (Z.pos p)), Z_div_mult, Z_mod_mult by lia.
  change (2 * 0 <? Z.pos p) with true. cbv iota. reflexivity.
Qed.

Lemma fdiv_same n : (0 < n)%nat -> Z.of_nat n < 2 ^ 53 -> fdiv (of_nat n) (of_nat n) = 1%Q.
Proof.
  intros Hn Hb. rewrite of_nat_int by done. unfold fdiv, b64.
  destruct (Z.of_nat n) as [|p|p] eqn:E; [lia| |lia].
  replace (Qnum (inject_Z (Z.pos p) / inject_Z (Z.pos p))) with (Z.pos p)
    by (unfold Qdiv, Qinv, Qmult; simpl; lia).
  replace (Qden (inject_Z (Z.pos p) / inject_Z (Z.pos p))) with p
    by (unfold Qdiv, Qinv, Qmult; simpl; lia).
  apply round_pos_same.
Qed.

(** [Math.floor(n * 0.8)] is the integer part of four fifths of [n], for
    every [n] an array length can take. *)
Lemma floor_mul_0_8 n :
  0 <= n < 2 ^ 32 -> floor (fmul (inject_Z n) lit_0_8) = 4 * n / 5.
Proof.
  intros [Hn0 Hn].
  assert (lit_0_8 = (3602879701896397 # 4503599627370496)%Q) as -> by (vm_compute; reflexivity).
  unfold fmul, b64.
  replace (Qnum (inject_Z n * (3602879701896397 # 4503599627370496)))
    with (n * 3602879701896397) by reflexivity.
  replace (Qden (inject_Z n * (3602879701896397 # 4503599627370496)))
    with (4503599627370496%positive) by reflexivity.
  destruct (Z.compare_spec (n * 3602879701896397) 0) as [E|?|Hpos]; [|lia|].
  { assert (n = 0) as -> by lia. reflexivity. }
  set (C := 3602879701896397) in *. set (T := 4503599627370496) in *.
  assert (0 < n) as Hn1 by lia.
  unfold round_pos.
  assert (ilog2 (n * C) T <= 31) as He.
  { destruct (Z.le_gt_cases (ilog2 (n * C) T) 31) as [?|Hgt]; [done|exfalso].
    pose proof (ilog2_lower (n * C) T Hpos eq_refl ltac:(lia)) as Hl.
    assert (2 ^ 32 <= 2 ^ ilog2 (n * C) T) by (apply Z.pow_le_mono_r; lia).
    subst C T. nia. }
  set (k := 52 - ilog2 (n * C) T) in *.
  assert (21 <= k) as Hk by lia.
  rewrite scale_nonneg by lia.
  assert (2 ^ 21 <= 2 ^ k) as HP by (apply Z.pow_le_mono_r; lia).
  set (P := 2 ^ k) in *.
  set (m := n * C * P / T).
  assert (4 * n / 5 * P <= m) as Hlo.
  { apply Z.div_le_lower_bound; [done|].
    pose proof (Z.mul_div_le (4 * n) 5 ltac:(lia)). subst C T. nia. }
  assert (m + 1 <= (4 * n / 5 + 1) * P - 1) as Hhi.
  { assert (m < (4 * n / 5 + 1) * P - 1); [|lia].
    apply Z.div_lt_upper_bound; [done|].
    pose proof (Z.mul_succ_div_gt (4 * n) 5 ltac:(lia)). subst C T. nia. }
  set (m' := if 2 * _ <? T then m else _).
  assert (m <= m' <= m + 1) as Hm'.
  { subst m'. destruct (_ <? T); [lia|]. destruct (T <? _); [lia|]. destruct (Z.even m); lia. }
  clearbody m'. rewrite scale_neg by lia. replace (- - k) with k by lia. fold P.
  unfold floor. rewrite (Qfloor_comp _ _ (Qred_correct _)).
  unfold Qfloor. rewrite Z2Pos.id by lia. rewrite Z.mul_1_l.
  symmetry. apply (Z.div_unique_pos _ _ _ (m' - 4 * n / 5 * P)); lia.
Qed.

End Num.

Example b64_lit_0_8 : Num.lit_0_8 = (3602879701896397 # 4503599627370496)%Q.
Proof. vm_compute. reflexivity. Qed.

Example b64_one_tenth_times_three :
  (Num.fmul (Num.of_Z 3) (Num.b64 (1 # 10)) == 5404319552844596 # 18014398509481984)%Q.
Proof. vm_compute. reflexivity. Qed.

Example b64_tie_to_even : Num.of_Z 9007199254740993 = inject_Z 9007199254740992.
Proof. vm_compute. reflexivity. Qed.

(** * Uniqueness index: the fingerprint of a training example *)

Record message := Message { role : string; content : string }.

Record example := Example { messages : list message }.

Module Fingerprint.

(** [JSON.stringify] of [{ role, content }] and of [{ messages: [...] }]. *)
Definition stringify_message (m : message) : string :=
  "{" +:+ JS.json_string "role" +:+ ":" +:+ JS.json_string (role m) +:+ ","
      +:+ JS.json_string "content" +:+ ":" +:+ JS.json_string (content m) +:+ "}".

Fixpoint join_commas (l : list string) : string :=
  match l with
  | [] => EmptyString
  | [x] => x
  | x :: r => x +:+ "," +:+ join_commas r
  end.

Definition stringify_example (msgs : list message) : string :=
  "{" +:+ JS.json_string "messages" +:+ ":[" +:+ join_commas (map stringify_message msgs) +:+ "]}".

Section Hash.
Variable toLowerCase : string -> string.
Variable localeCompare : string -> string -> Z.

(** [{ role: msg.role, content: msg.content.trim().toLowerCase() }] *)
Definition normalize_message (m : message) : message :=
  {| role := role m; content := toLowerCase (JS.trim (content m)) |}.

(** The comparator handed to [sort]: by role first, then by content. *)
Definition compare_messages (a b : message) : Z :=
  if decide (role a = role b) then localeCompare (content a) (content b)
  else localeCompare (role a) (role b).

Definition normalized (e : example) : list message :=
  JS.sort compare_messages (map normalize_message (messages e)).

Definition createExampleHash (e : example) : string :=
  SHA256.sha256_hex (stringify_example (normalized e)).

(** Two examples carry the same messages up to order, letter case and
    trimmable white space. *)
Definition same_messages (e1 e2 : example) : Prop :=
  map normalize_message (messages e1) ≡ₚ map normalize_message (messages e2).

(** The sort is stable: two messages of one role whose contents tie under
    [localeCompare] stay in the order in which they are given, so that the
    normal form of an example depends on the order of such messages. *)
Lemma normalized_tie r x y :
  toLowerCase (JS.trim x) = x -> toLowerCase (JS.trim y) = y ->
  localeCompare x y <= 0 ->
  normalized {| messages := [Message r x; Message r y] |} = [Message r x; Message r y].
Proof.
  intros Hx Hy Hle. unfold normalized, normalize_message. cbn [messages map role content].
  rewrite Hx, Hy. unfold JS.sort. cbn [fold_left JS.sort_insert].
  unfold compare_messages. cbn [role content]. rewrite decide_True by done.
  by rewrite (proj2 (Z.leb_le _ _) Hle).
Qed.

Lemma normalized_depends_on_order r x y :
  x <> y ->
  toLowerCase (JS.trim x) = x -> toLowerCase (JS.trim y) = y ->
  localeCompare x y <= 0 -> localeCompare y x <= 0 ->
  same_messages {| messages := [Message r x; Message r y] |}
                {| messages := [Message r y; Message r x] |}
  /\ normalized {| messages := [Message r x; Message r y] |}
     <> normalized {| messages := [Message r y; Message r x] |}.
Proof.
  intros Hne Hx Hy Hxy Hyx. split.
  - unfold same_messages. cbn [messages map]. apply Permutation_swap.
  - rewrite !normalized_tie by done. intros [= E]. by apply Hne.
Qed.

Section Canonical.
Hypothesis lc_total : forall a b, localeCompare a b <= 0 \/ localeCompare b a <= 0.
Hypothesis lc_trans :
  forall a b c, localeCompare a b <= 0 -> localeCompare b c <= 0 -> localeCompare a c <= 0.
Hypothesis lc_antisym :
  forall a b, localeCompare a b <= 0 -> localeCompare b a <= 0 -> a = b.

Lemma compare_messages_total a b :
  JS.cmp_le compare_messages a b \/ JS.cmp_le compare_messages b a.
Proof.
  unfold JS.cmp_le, compare_messages.
  destruct (decide (role a = role b)) as [E|N].
  - rewrite decide_True by done. apply lc_total.
  - rewrite decide_False by (intros E; by apply N). apply lc_total.
Qed.

Lemma compare_messages_trans a b c :
  JS.cmp_le compare_messages a b -> JS.cmp_le compare_messages b c ->
  JS.cmp_le compare_messages a c.
Proof.
  unfold JS.cmp_le, compare_messages.
  destruct (decide (role a = role b)) as [E1|N1],
           (decide (role b = role c)) as [E2|N2]; intros H1 H2.
  - rewrite decide_True by congruence. eauto.
  - rewrite decide_False by congruence. by rewrite E1.
  - rewrite decide_False by congruence. by rewrite <- E2.
  - destruct (decide (role a = role c)) as [E3|N3]; [|eauto].
    exfalso. apply N1, lc_antisym; [done|]. by rewrite E3.
Qed.

Lemma compare_messages_antisym a b :
  JS.cmp_le compare_messages a b -> JS.cmp_le compare_messages b a -> a = b.
Proof.
  unfold JS.cmp_le, compare_messages.
  destruct (decide (role a = role b)) as [E|N]; intros H1 H2.
  - rewrite decide_True in H2 by done.
    destruct a, b; simpl in *. f_equal; [done|]. by apply lc_antisym.
  - rewrite decide_False in H2 by (intros E; by apply N).
    exfalso. by apply N, lc_antisym.
Qed.

(** Where [localeCompare] is a total order on strings (two distinct strings
    never compare as equal), the fingerprint does not depend on the order
    of the messages nor on the case or the surrounding white space of their
    contents. *)
Lemma createExampleHash_canonical e1 e2 :
  same_messages e1 e2 -> createExampleHash e1 = createExampleHash e2.
Proof.
  intros Hp. unfold createExampleHash, normalized. do 2 f_equal.
  apply JS.sort_canonical; [| |exact compare_messages_antisym|exact Hp].
  - exact compare_messages_total.
  - exact compare_messages_trans.
Qed.

End Canonical.
End Hash.

End Fingerprint.

(** * Instances of the platform functions

    Concrete functions at which the parametric definitions are evaluated. *)

Module Platform.

(** [toLowerCase] on the ASCII letters; other bytes are left unchanged. *)
Fixpoint ascii_toLowerCase (s : string) : string :=
  match s with
  | EmptyString => EmptyString
  | String c r =>
      let b := JS.code c in
      String (if (65 <=? b) && (b <=? 90) then JS.byte (b + 32) else c) (ascii_toLowerCase r)
  end.

(** Comparison by code units: a total order on strings.  It is a sample
    comparator for the runs below, not the collation of an engine, which
    ties canonically equivalent strings and does not follow the code
    units. *)
Definition codeunit_compare (a b : string) : Z :=
  match String.compare a b with
  | Lt => -1
  | Eq => 0
  | Gt => 1
  end.

(** Canonical decomposition of the precomposed letter U+00E9 (bytes C3 A9)
    into U+0065 U+0301 (bytes 65 CC 81); every other byte is kept. *)
Fixpoint decompose (s : string) : string :=
  match s with
  | EmptyString => EmptyString
  | String c r =>
      match r with
      | String d r' =>
          if (JS.code c =? 195) && (JS.code d =? 169)
          then String (JS.byte 101) (String (JS.byte 204) (String (JS.byte 129) (decompose r')))
          else String c (decompose r)
      | EmptyString => String c EmptyString
      end
  end.

(** A comparator with the property ECMA-262 requires of
    [String.prototype.localeCompare]: it returns 0 on strings that are
    canonically equivalent according to the Unicode standard (here: for the
    two spellings of the letter e with acute accent), and it orders the
    role names alphabetically. *)
Definition canonical_compare (a b : string) : Z :=
  codeunit_compare (decompose a) (decompose b).

(** [codeunit_compare] is a total order. *)
Lemma compare_le_trans a b c :
  String.compare a b <> Gt -> String.compare b c <> Gt -> String.compare a c <> Gt.
Proof.
  revert b c. induction a as [|x a IH]; intros [|y b] [|z c]; simpl; try done.
  unfold Ascii.compare.
  destruct (N.compare_spec (N_of_ascii x) (N_of_ascii y)) as [Exy|Hxy|Hxy]; [| |done];
    destruct (N.compare_spec (N_of_ascii y) (N_of_ascii z)) as [Eyz|Hyz|Hyz]; try done;
    destruct (N.compare_spec (N_of_ascii x) (N_of_ascii z)) as [Exz|Hxz|Hxz]; try done;
    try lia.
  apply IH.
Qed.

Lemma codeunit_compare_le a b : codeunit_compare a b <= 0 <-> String.compare a b <> Gt.
Proof. unfold codeunit_compare. destruct (String.compare a b); split; (done || lia). Qed.

Lemma codeunit_compare_total a b : codeunit_compare a b <= 0 \/ codeunit_compare b a <= 0.
Proof.
  rewrite !codeunit_compare_le, (String.compare_antisym b a).
  destruct (String.compare a b); simpl; [left|left|right]; done.
Qed.

Lemma codeunit_compare_trans a b c :
  codeunit_compare a b <= 0 -> codeunit_compare b c <= 0 -> codeunit_compare a c <= 0.
Proof. rewrite !codeunit_compare_le. apply compare_le_trans. Qed.

Lemma codeunit_compare_antisym a b :
  codeunit_compare a b <= 0 -> codeunit_compare b a <= 0 -> a = b.
Proof.
  rewrite !codeunit_compare_le, (String.compare_antisym b a).
  destruct (String.compare a b) eqn:E; simpl; [|done..].
  intros _ _. by apply String.compare_eq_iff.
Qed.

End Platform.

(** * Fingerprints of sample examples *)

Module Samples.

(** The letter e with acute accent, precomposed (U+00E9) and decomposed
    (U+0065 U+0301): two canonically equivalent strings. *)
Definition e_acute_composed : string := JS.of_bytes [195; 169].
Definition e_acute_decomposed : string := JS.of_bytes [101; 204; 129].

Definition accents_1 : example :=
  {| messages := [ {| role := "user"; content := e_acute_composed |};
                   {| role := "user"; content := e_acute_decomposed |};
                   {| role := "assistant"; content := "ok" |} ] |}.

Definition accents_2 : example :=
  {| messages := [ {| role := "user"; content := e_acute_decomposed |};
                   {| role := "user"; content := e_acute_composed |};
                   {| role := "assistant"; content := "ok" |} ] |}.

Definition shouted : example :=
  {| messages := [ {| role := "assistant"; content := "  Fine, THANKS " |};
                   {| role := "user"; content := "How are you?" |} ] |}.

Definition plain : example :=
  {| messages := [ {| role := "user"; content := "how are you?  " |};
                   {| role := "assistant"; content := "fine, thanks" |} ] |}.

(** Under a total order the fingerprint ignores order, case and
    surrounding white space. *)
Example fingerprint_of_reordered :
  Fingerprint.createExampleHash Platform.ascii_toLowerCase Platform.codeunit_compare shouted
  = Fingerprint.createExampleHash Platform.ascii_toLowerCase Platform.codeunit_compare plain.
Proof.
  apply Fingerprint.createExampleHash_canonical.
  - apply Platform.codeunit_compare_total.
  - apply Platform.codeunit_compare_trans.
  - apply Platform.codeunit_compare_antisym.
  - unfold Fingerprint.same_messages. vm_compute. apply Permutation_swap.
Qed.

(** C3, at the failing input: the two examples carry the same messages in
    a different order, both are valid, and the two contents of their user
    messages compare as equal; the stable sort keeps them in the order
    given, so the serialisations and the digests differ. *)
Theorem fingerprint_depends_on_order :
  messages accents_1 ≡ₚ messages accents_2
  /\ Fingerprint.same_messages Platform.ascii_toLowerCase accents_1 accents_2
  /\ Platform.canonical_compare e_acute_composed e_acute_decomposed = 0
  /\ Fingerprint.createExampleHash Platform.ascii_toLowerCase Platform.canonical_compare
        accents_1
      = "53fed4bd3ec3162813f84aa167caa2b5d54e78d350a2b215cc8895ab3ec988b3"%string
  /\ Fingerprint.createExampleHash Platform.ascii_toLowerCase Platform.canonical_compare
        accents_2
      = "c6a352688295dcc765075a8ee27802292d3f3517773899028ff27656fdaa0b14"%string
  /\ Fingerprint.createExampleHash Platform.ascii_toLowerCase Platform.canonical_compare
        accents_1
      <> Fingerprint.createExampleHash Platform.ascii_toLowerCase Platform.canonical_compare
           accents_2.
Proof.
  split; [apply Permutation_swap|].
  split; [unfold Fingerprint.same_messages; vm_compute; apply Permutation_swap|].
  split; [vm_compute; reflexivity|].
  split; [vm_compute; reflexivity|].
  split; [vm_compute; reflexivity|].
  vm_compute. discriminate.
Qed.

End Samples.

(** * JSON values, as [JSON.parse] and [response.json()] deliver them *)

#[local] Unset Elimination Schemes.
Inductive json :=
| JNull
| JBool (b : bool)
| JNum (q : Q)
| JStr (s : string)
| JArr (items : list json)
| JObj (fields : list (string * json)).
#[local] Set Elimination Schemes.

Module Json.

(** ToBoolean *)
Definition truthy (j : json) : bool :=
  match j with
  | JNull => false
  | JBool b => b
  | JNum q => negb (Qeq_bool q 0)
  | JStr s => JS.truthy s
  | JArr _ | JObj _ => true
  end.

Fixpoint assoc (k : string) (l : list (string * json)) : option json :=
  match l with
  | [] => None
  | (k', v) :: r => if decide (k = k') then Some v else assoc k r
  end.

(** [j.k] for a value [j] that is not [null]: [None] stands for
    [undefined].  None of the property names read in this development is
    a property of a string, a number, a boolean or an array. *)
Definition field (k : string) (j : json) : option json :=
  match j with
  | JObj fs => assoc k fs
  | _ => None
  end.

(** [v || d] on a possibly undefined value. *)
Definition or_default (v : option json) (d : json) : json :=
  match v with
  | Some j => if truthy j then j else d
  | None => d
  end.

(** [j?.k]: [undefined] on [undefined] and [null]. *)
Definition opt_field (k : string) (v : option json) : option json :=
  match v with
  | Some JNull | None => None
  | Some j => field k j
  end.

(** [j?.[0]] *)
Definition opt_index0 (v : option json) : option json :=
  match v with
  | Some (JArr (x :: _)) => Some x
  | Some (JObj fs) => assoc "0" fs
  | Some (JStr (String c _)) => Some (JStr (String c EmptyString))
  | _ => None
  end.

End Json.

(** * Batch generator *)

(** The outcome of [fetch] followed by [response.json()]: the request may be
    rejected (network error, abort after the timeout); otherwise it has a
    status, a status text and a body that may fail to parse. *)
Record http_response := HttpResponse {
  status_code : Z;
  status_text : string;
  body : option json
}.

Definition fetch_result : Type := option http_response.

(** An example as [generateBatch] builds it: the role is one of the three
    role names; the content is whatever truthy value the provider sent (the
    declared type says it is a string). *)
Record gen_message := GenMessage { g_role : string; g_content : json }.

Definition gen_example : Type := list gen_message.

Module BatchGenerator.

(** ** Fallback generator *)

(** The text substituted by [template.replace(/{topic}/g, title)]: in the
    replacement string [$$], [$&], [$`] and [$'] are patterns. *)
Fixpoint expand_replacement (matched before after repl : string) : string :=
  match repl with
  | EmptyString => EmptyString
  | String c r =>
      if JS.code c =? 36 then
        match r with
        | String d r' =>
            if JS.code d =? 36 then String c (expand_replacement matched before after r')
            else if JS.code d =? 38 then matched +:+ expand_replacement matched before after r'
            else if JS.code d =? 96 then before +:+ expand_replacement matched before after r'
            else if JS.code d =? 39 then after +:+ expand_replacement matched before after r'
            else String c (expand_replacement matched before after r)
        | EmptyString => String c EmptyString
        end
      else String c (expand_replacement matched before after r)
  end.

(** The five question templates, each split around its [{topic}]. *)
Definition questions : list (string * string) :=
  [("What is ", "?");
   ("Tell me about ", EmptyString);
   ("Can you explain ", "?");
   ("How does ", " work?");
   ("What are the benefits of ", "?")]%string.

Definition question (i : nat) (title : string) : string :=
  match nth_error questions (i mod 5) with
  | Some (before, after) =>
      before +:+ expand_replacement "{topic}" before after title +:+ after
  | None => EmptyString
  end.

Definition fallback_example (title description : string) (i : nat) : example :=
  {| messages :=
       [ {| role := "user"; content := question i title |};
         {| role := "assistant";
            content := description +:+ " This is what " +:+ title +:+ " is about." |} ] |}.

Definition generateFallbackExamples (title description : string) (count : nat) : list example :=
  map (fallback_example title description) (seq 0 count).

Definition to_gen (e : example) : gen_example :=
  map (fun m => {| g_role := role m; g_content := JStr (content m) |}) (messages e).

(** ** Reading the provider's answer *)

Section Generate.
Variable JSON_parse : string -> option json.
(** [content.replace(/^```(?:json)?\s*/i, '').replace(/\s*```$/i, '')] *)
Variable strip_code_fence : string -> string.
(** The first group of
    [content.match(/```(?:json)?\s*(\[{[\s\S]*}\])\s*```/) || content.match(/(\[{[\s\S]*}\])/)] *)
Variable match_json_array : string -> option string.
(** [content.replace(/}\s*{/g, '}\n{')] *)
Variable split_concatenated : string -> string.

Definition starts_with_fence (s : string) : bool := String.prefix "```" s.

(** [parsedContent], or [None] when the handler throws. *)
Definition parse_content (content : string) : option json :=
  match JSON_parse content with
  | Some j => Some j
  | None =>
      match match_json_array content with
      | Some arr =>
          match JSON_parse arr with
          | Some j => Some j
          | None =>
              let lines := filter (fun l => JS.truthy (JS.trim l) = true)
                                  (JS.split_lines (split_concatenated content)) in
              let parsedObjects := omap (fun l => JSON_parse (JS.trim l)) lines in
              match parsedObjects with
              | [] => None
              | _ => Some (JObj [("examples"%string, JArr parsedObjects)])
              end
          end
      | None => None
      end
  end.

(** [examples]: the array itself, or its [examples] or [data] member. *)
Definition extract_examples (parsedContent : json) : list json :=
  match parsedContent with
  | JArr l => l
  | JObj fs =>
      match Json.assoc "examples" fs with
      | Some (JArr l) => l
      | _ => match Json.assoc "data" fs with
             | Some (JArr l) => l
             | _ => []
             end
      end
  | _ => []
  end.

Definition valid_role (r : json) : option string :=
  match r with
  | JStr s => if decide (s = "user" \/ s = "assistant" \/ s = "system")%string then Some s else None
  | _ => None
  end.

(** One message of [example.messages.map(...)]: [None] when reading a
    property of [null] throws. *)
Definition normalize_message (msg : json) : option (json * json) :=
  match msg with
  | JNull => None
  | _ => Some (Json.or_default (Json.field "role" msg) (JStr "user"),
               Json.or_default (Json.field "content" msg) (JStr EmptyString))
  end.

Definition keep_message (rc : json * json) : option gen_message :=
  if Json.truthy (snd rc) then
    match valid_role (fst rc) with
    | Some r => Some {| g_role := r; g_content := snd rc |}
    | None => None
    end
  else None.

Definition has_role (r : string) (ms : gen_example) : bool :=
  existsb (fun m => bool_decide (g_role m = r)) ms.

(** The body of the loop over [examples]: [None] when it throws, otherwise
    the examples to append (none or one). *)
Definition validate_example (ex : json) : option (list gen_example) :=
  if Json.truthy ex then
    match Json.field "messages" ex with
    | Some (JArr msgs) =>
        match mapM normalize_message msgs with
        | Some rcs =>
            let normalized := omap keep_message rcs in
            if has_role "user" normalized && has_role "assistant" normalized
               && (2 <=? length normalized)%nat
            then Some [normalized] else Some []
        | None => None
        end
    | _ => Some []
    end
  else Some [].

Fixpoint validate_all (examples : list json) : option (list gen_example) :=
  match examples with
  | [] => Some []
  | ex :: r =>
      match validate_example ex with
      | Some v => match validate_all r with
                  | Some vs => Some (v ++ vs)
                  | None => None
                  end
      | None => None
      end
  end.

(** The [examples] array read from the provider's answer: [None] when the
    [try] block throws before the validation loop. *)
Definition provider_examples (fetched : fetch_result) : option (list json) :=
  match fetched with
  | None => None
  | Some resp =>
      if negb (status_code resp =? 200) then None
      else match body resp with
           | None | Some JNull => None
           | Some data =>
               match Json.opt_field "content"
                       (Json.opt_field "message"
                          (Json.opt_index0 (Json.field "choices" data))) with
               | Some (JStr content) =>
                   if JS.truthy content then
                     let content := JS.trim content in
                     let content :=
                       if starts_with_fence content
                       then JS.trim (strip_code_fence content) else content in
                     match parse_content content with
                     | Some parsedContent => Some (extract_examples parsedContent)
                     | None => None
                     end
                   else None
               | _ => None
               end
           end
  end.

(** The [try] block of [generateBatch]: [None] when anything throws. *)
Definition try_generate (fetched : fetch_result) : option (list gen_example) :=
  match provider_examples fetched with
  | Some examples => validate_all examples
  | None => None
  end.

Definition generateBatch (title description : string) (count : nat)
    (fetched : fetch_result) : list gen_example :=
  match try_generate fetched with
  | Some validExamples => validExamples
  | None => map to_gen (generateFallbackExamples title description count)
  end.


Lemma generateFallbackExamples_length title description count :
  length (generateFallbackExamples title description count) = count.
Proof. unfold generateFallbackExamples. by rewrite length_map, length_seq. Qed.

Lemma validate_example_length ex v :
  validate_example ex = Some v -> (length v <= 1)%nat.
Proof.
  unfold validate_example. intros H.
  repeat (case_match; simplify_eq/=); lia.
Qed.

Lemma validate_all_length examples v :
  validate_all examples = Some v -> (length v <= length examples)%nat.
Proof.
  revert v; induction examples as [|ex r IH]; intros v H; simpl in *.
  - by simplify_eq.
  - destruct (validate_example ex) as [v1|] eqn:E1; [|done].
    destruct (validate_all r) as [vs|]; [|done]. simplify_eq.
    apply validate_example_length in E1. specialize (IH vs eq_refl).
    rewrite length_app. lia.
Qed.

(** The two ways [generateBatch] returns. *)
Lemma generateBatch_cases title description count fetched :
  (try_generate fetched = None /\
   length (generateBatch title description count fetched) = count)
  \/ (exists examples v,
        provider_examples fetched = Some examples /\
        validate_all examples = Some v /\
        generateBatch title description count fetched = v /\
        (length v <= length examples)%nat).
Proof.
  unfold generateBatch, try_generate.
  destruct (provider_examples fetched) as [examples|] eqn:E.
  - destruct (validate_all examples) as [v|] eqn:Ev.
    + right. exists examples, v. eauto using validate_all_length.
    + left. split; [done|]. by rewrite length_map, generateFallbackExamples_length.
  - left. split; [done|]. by rewrite length_map, generateFallbackExamples_length.
Qed.




End Generate.

(** ** A provider answer with more examples than requested *)

Definition parse_table (tbl : list (string * json)) (s : string) : option json :=
  Json.assoc s tbl.

Definition json_message (r c : string) : json :=
  JObj [("role"%string, JStr r); ("content"%string, JStr c)].

Definition json_example (ms : list json) : json := JObj [("messages"%string, JArr ms)].






End BatchGenerator.

(** * State and exceptions

    Handlers run in a monad with a mutable state and string-valued
    exceptions (the [message] of the thrown [Error]); [catch] is
    [try { } catch { }]. *)

Module Eff.

Inductive outcome (A : Type) : Type :=
| Ok (a : A)
| Throw (msg : string).
Arguments Ok {A} a.
Arguments Throw {A} msg.

Record M (S A : Type) : Type := Run { run : S -> outcome A * S }.
Arguments Run {S A} _.
Arguments run {S A} _ _.

Section Ops.
Context {S : Type}.

#[export] Instance M_ret : MRet (M S) := fun A a => Run (fun s => (Ok a, s)).

#[export] Instance M_bind : MBind (M S) := fun A B f m =>
  Run (fun s => match run m s with
                | (Ok a, s') => run (f a) s'
                | (Throw e, s') => (Throw e, s')
                end).

Definition throw {A} (msg : string) : M S A := Run (fun s => (Throw msg, s)).

Definition catch {A} (m : M S A) (h : string -> M S A) : M S A :=
  Run (fun s => match run m s with
                | (Ok a, s') => (Ok a, s')
                | (Throw e, s') => run (h e) s'
                end).

Definition get : M S S := Run (fun s => (Ok s, s)).
Definition put (s : S) : M S unit := Run (fun _ => (Ok tt, s)).
Definition modify (f : S -> S) : M S unit := Run (fun s => (Ok tt, f s)).

(** [triple P m Q E]: from a state satisfying [P], [m] either returns a
    value and a state satisfying [Q] or throws in a state satisfying [E]. *)
Definition triple {A} (P : S -> Prop) (m : M S A)
    (Q : A -> S -> Prop) (E : string -> S -> Prop) : Prop :=
  forall s, P s ->
    match run m s with
    | (Ok a, s') => Q a s'
    | (Throw e, s') => E e s'
    end.

(** The same as a predicate on the initial state. *)
Definition wp {A} (m : M S A) (Q : A -> S -> Prop) (E : string -> S -> Prop) (s : S) : Prop :=
  match run m s with
  | (Ok a, s') => Q a s'
  | (Throw e, s') => E e s'
  end.

Lemma wp_bind {A B} (m : M S A) (f : A -> M S B) R E s :
  wp m (fun a s' => wp (f a) R E s') E s -> wp (m ≫= f) R E s.
Proof. unfold wp. simpl. by destruct (run m s) as [[a|e] s']. Qed.

Lemma wp_catch {A} (m : M S A) h Q E s :
  wp m Q (fun e s' => wp (h e) Q E s') s -> wp (catch m h) Q E s.
Proof. unfold wp. simpl. by destruct (run m s) as [[a|e] s']. Qed.

Lemma wp_mono {A} (m : M S A) (Q Q' : A -> S -> Prop) (E E' : string -> S -> Prop) s :
  wp m Q' E' s -> (forall a s', Q' a s' -> Q a s') -> (forall e s', E' e s' -> E e s') ->
  wp m Q E s.
Proof. unfold wp. destruct (run m s) as [[a|e] s']; eauto. Qed.

Lemma wp_triple {A} (m : M S A) P Q E s : triple P m Q E -> P s -> wp m Q E s.
Proof. intros H Hs. exact (H s Hs). Qed.

Lemma wp_ret {A} (a : A) (Q : A -> S -> Prop) E s : Q a s -> wp (mret a) Q E s.
Proof. done. Qed.

Lemma wp_throw {A} msg (Q : A -> S -> Prop) (E : string -> S -> Prop) s :
  E msg s -> wp (throw msg) Q E s.
Proof. done. Qed.

Lemma wp_ret_bind {A B} (a : A) (f : A -> M S B) Q E s :
  wp (f a) Q E s -> wp (mret a ≫= f) Q E s.
Proof. unfold wp. simpl. done. Qed.

Lemma wp_get_bind {B} (f : S -> M S B) Q E s :
  wp (f s) Q E s -> wp (get ≫= f) Q E s.
Proof. unfold wp. simpl. done. Qed.

Lemma wp_put_bind {B} s' (f : unit -> M S B) Q E s :
  wp (f tt) Q E s' -> wp (put s' ≫= f) Q E s.
Proof. unfold wp. simpl. done. Qed.

Lemma wp_modify_bind {B} g (f : unit -> M S B) Q E s :
  wp (f tt) Q E (g s) -> wp (modify g ≫= f) Q E s.
Proof. unfold wp. simpl. done. Qed.

Lemma wp_run {A} (m : M S A) (Q : A -> S -> Prop) E s r :
  run m s = r ->
  match r with (Ok a, s') => Q a s' | (Throw e, s') => E e s' end ->
  wp m Q E s.
Proof. unfold wp. by intros ->. Qed.

Lemma wp_ok_bind {A B} (m : M S A) (f : A -> M S B) Q E s a s' :
  run m s = (Ok a, s') -> wp (f a) Q E s' -> wp (m ≫= f) Q E s.
Proof. intros Hr H. apply wp_bind. unfold wp at 1. by rewrite Hr. Qed.

Lemma wp_throw_bind {A B} (m : M S A) (f : A -> M S B) Q (E : string -> S -> Prop) s e s' :
  run m s = (Throw e, s') -> E e s' -> wp (m ≫= f) Q E s.
Proof. intros Hr H. apply wp_bind. unfold wp at 1. by rewrite Hr. Qed.

Lemma wp_run_bind {A B} (m : M S A) (f : A -> M S B) Q E s r :
  run m s = r ->
  match r with (Ok a, s') => wp (f a) Q E s' | (Throw e, s') => E e s' end ->
  wp (m ≫= f) Q E s.
Proof. intros Hr H. apply wp_bind. by eapply wp_run. Qed.

Lemma triple_ret {A} (a : A) (Q : A -> S -> Prop) E : triple (Q a) (mret a) Q E.
Proof. by intros s H. Qed.

Lemma triple_throw {A} msg (Q : A -> S -> Prop) (E : string -> S -> Prop) :
  triple (E msg) (throw msg) Q E.
Proof. by intros s H. Qed.

Lemma triple_bind {A B} (m : M S A) (f : A -> M S B) P Q R E :
  triple P m Q E -> (forall a, triple (Q a) (f a) R E) -> triple P (m ≫= f) R E.
Proof.
  intros Hm Hf s Hs. specialize (Hm s Hs). simpl.
  destruct (run m s) as [[a|e] s']; [|done]. by apply Hf.
Qed.

Lemma triple_catch {A} (m : M S A) h P Q E E' :
  triple P m Q E' -> (forall e, triple (E' e) (h e) Q E) -> triple P (catch m h) Q E.
Proof.
  intros Hm Hh s Hs. specialize (Hm s Hs). simpl.
  destruct (run m s) as [[a|e] s']; [done|]. by apply Hh.
Qed.

Lemma triple_get (Q : S -> S -> Prop) E : triple (fun s => Q s s) get Q E.
Proof. by intros s H. Qed.

Lemma triple_put s' (Q : unit -> S -> Prop) E : triple (fun _ => Q tt s') (put s') Q E.
Proof. by intros s H. Qed.

Lemma triple_modify f (Q : unit -> S -> Prop) E :
  triple (fun s => Q tt (f s)) (modify f) Q E.
Proof. by intros s H. Qed.

Lemma triple_conseq {A} (m : M S A) (P P' : S -> Prop) (Q Q' : A -> S -> Prop)
    (E E' : string -> S -> Prop) :
  triple P' m Q' E' ->
  (forall s, P s -> P' s) -> (forall a s, Q' a s -> Q a s) -> (forall e s, E' e s -> E e s) ->
  triple P m Q E.
Proof.
  intros Hm HP HQ HE s Hs. specialize (Hm s (HP s Hs)).
  destruct (run m s) as [[a|e] s']; eauto.
Qed.

End Ops.
End Eff.

(** * Dataset generation job runner *)

Module Runner.
Import Eff.

Inductive gen_status := Pending | Processing | Completed | Failed.

(** The columns of a Dataset record the runner reads or writes;
    [ds_target_examples] is [metadata.target_examples] and [ds_error] is
    [error.message]. *)
Record dataset := Dataset {
  ds_title : string;
  ds_description : string;
  ds_type : string;
  ds_status : gen_status;
  ds_error : option string;
  ds_content : option string;
  ds_training_content : option string;
  ds_test_content : option string;
  ds_num_examples : option nat;
  ds_training_examples_count : option nat;
  ds_test_examples_count : option nat;
  ds_progress : Z;
  ds_current_batch : nat;
  ds_total_batches : nat;
  ds_generated_count : nat;
  ds_target_examples : option Z
}.

(** The record [POST] creates: [status: 'pending'], five examples per batch. *)
Definition new_job (title description dataset_type : string) (numExamples : Z) : dataset :=
  {| ds_title := JS.trim title;
     ds_description := JS.trim description;
     ds_type := dataset_type;
     ds_status := Pending;
     ds_error := None;
     ds_content := None;
     ds_training_content := None;
     ds_test_content := None;
     ds_num_examples := None;
     ds_training_examples_count := None;
     ds_test_examples_count := None;
     ds_progress := 0;
     ds_current_batch := 0;
     ds_total_batches := Z.to_nat (Qceiling (Num.fdiv (Num.of_Z numExamples) (Num.of_Z 5)));
     ds_generated_count := 0;
     ds_target_examples := Some numExamples |}.

(** The state of a run: the record with the job's id in the store, the
    numbers of store operations and of [generateBatch] calls made so far,
    and the runner's local collections. *)
Record state := State {
  db : option dataset;
  ops : nat;
  calls : nat;
  existingHashes : gset string;
  allExamples : list example;
  currentJobHashes : gset string
}.

Definition initial (d : dataset) : state :=
  {| db := Some d; ops := 0; calls := 0; existingHashes := ∅;
     allExamples := []; currentJobHashes := ∅ |}.

Definition set_db (d : option dataset) (s : state) : state :=
  {| db := d; ops := ops s; calls := calls s; existingHashes := existingHashes s;
     allExamples := allExamples s; currentJobHashes := currentJobHashes s |}.

Definition set_ops (n : nat) (s : state) : state :=
  {| db := db s; ops := n; calls := calls s; existingHashes := existingHashes s;
     allExamples := allExamples s; currentJobHashes := currentJobHashes s |}.

Definition set_calls (n : nat) (s : state) : state :=
  {| db := db s; ops := ops s; calls := n; existingHashes := existingHashes s;
     allExamples := allExamples s; currentJobHashes := currentJobHashes s |}.

Definition set_existingHashes (h : gset string) (s : state) : state :=
  {| db := db s; ops := ops s; calls := calls s; existingHashes := h;
     allExamples := allExamples s; currentJobHashes := currentJobHashes s |}.

Definition set_allExamples (l : list example) (s : state) : state :=
  {| db := db s; ops := ops s; calls := calls s; existingHashes := existingHashes s;
     allExamples := l; currentJobHashes := currentJobHashes s |}.

Definition set_currentJobHashes (h : gset string) (s : state) : state :=
  {| db := db s; ops := ops s; calls := calls s; existingHashes := existingHashes s;
     allExamples := allExamples s; currentJobHashes := h |}.

(** ** Record updates *)

Definition mark_processing (d : dataset) : dataset :=
  {| ds_title := ds_title d; ds_description := ds_description d; ds_type := ds_type d;
     ds_status := Processing;
     ds_error := ds_error d; ds_content := ds_content d;
     ds_training_content := ds_training_content d; ds_test_content := ds_test_content d;
     ds_num_examples := ds_num_examples d;
     ds_training_examples_count := ds_training_examples_count d;
     ds_test_examples_count := ds_test_examples_count d;
     ds_progress := ds_progress d; ds_current_batch := ds_current_batch d;
     ds_total_batches := ds_total_batches d; ds_generated_count := ds_generated_count d;
     ds_target_examples := ds_target_examples d |}.

Definition mark_progress (current_batch : nat) (progress : Z) (generated_count : nat)
    (d : dataset) : dataset :=
  {| ds_title := ds_title d; ds_description := ds_description d; ds_type := ds_type d;
     ds_status := ds_status d;
     ds_error := ds_error d; ds_content := ds_content d;
     ds_training_content := ds_training_content d; ds_test_content := ds_test_content d;
     ds_num_examples := ds_num_examples d;
     ds_training_examples_count := ds_training_examples_count d;
     ds_test_examples_count := ds_test_examples_count d;
     ds_progress := progress; ds_current_batch := current_batch;
     ds_total_batches := ds_total_batches d; ds_generated_count := generated_count;
     ds_target_examples := ds_target_examples d |}.

Definition mark_completed (fullContent trainingContent testContent : string)
    (num training test : nat) (d : dataset) : dataset :=
  {| ds_title := ds_title d; ds_description := ds_description d; ds_type := ds_type d;
     ds_status := Completed;
     ds_error := ds_error d; ds_content := Some fullContent;
     ds_training_content := Some trainingContent; ds_test_content := Some testContent;
     ds_num_examples := Some num;
     ds_training_examples_count := Some training;
     ds_test_examples_count := Some test;
     ds_progress := 100; ds_current_batch := ds_current_batch d;
     ds_total_batches := ds_total_batches d; ds_generated_count := num;
     ds_target_examples := ds_target_examples d |}.

Definition mark_failed (errorMessage : string) (d : dataset) : dataset :=
  {| ds_title := ds_title d; ds_description := ds_description d; ds_type := ds_type d;
     ds_status := Failed;
     ds_error := Some errorMessage; ds_content := ds_content d;
     ds_training_content := ds_training_content d; ds_test_content := ds_test_content d;
     ds_num_examples := ds_num_examples d;
     ds_training_examples_count := ds_training_examples_count d;
     ds_test_examples_count := ds_test_examples_count d;
     ds_progress := ds_progress d; ds_current_batch := ds_current_batch d;
     ds_total_batches := ds_total_batches d; ds_generated_count := ds_generated_count d;
     ds_target_examples := ds_target_examples d |}.

(** ** Serialisation to JSONL *)

(** [cleanExample]: contents trimmed, messages with an empty content
    dropped; [None] when the example is skipped. *)
Definition clean_message (m : message) : message :=
  {| role := role m; content := JS.trim (content m) |}.

Definition has_role (r : string) (ms : list message) : bool :=
  existsb (fun m => bool_decide (role m = r)) ms.

Definition clean_example (ex : example) : option example :=
  let msgs := filter (fun m => JS.truthy (content m) = true)
                     (map clean_message (messages ex)) in
  if has_role "user" msgs && has_role "assistant" msgs && (2 <=? length msgs)%nat
  then Some {| messages := msgs |} else None.

Section Run.
Variable toLowerCase : string -> string.
Variable localeCompare : string -> string -> Z.
Variable JSON_parse : string -> option json.
(** [db_fault k] is the message of the error the store raises on the
    [k]-th operation of the run, if it raises one. *)
Variable db_fault : nat -> option string.
(** [generate k count] is what the [k]-th call of [generateBatch] returns
    when asked for [count] examples, at the type the function declares:
    every content is a string.  (A content of another type, which the
    filter of [generateBatch] lets through when it is truthy, makes
    [createExampleHash] throw; that run is not part of this model.) *)
Variable generate : nat -> Z -> list example.
(** [process.env.OPENAI_API_KEY] *)
Variable api_key : option string.
(** The [content] column of the datasets whose content is not null. *)
Variable existing_contents : list string.
(** The message of the error [update] raises when the record is absent. *)
Variable record_not_found : string.

Definition hash (e : example) : string :=
  Fingerprint.createExampleHash toLowerCase localeCompare e.

Definition parses (s : string) : bool :=
  match JSON_parse s with Some _ => true | None => false end.

Definition serialise (ex : example) : option (example * string) :=
  match clean_example ex with
  | Some clean =>
      let jsonString := Fingerprint.stringify_example (messages clean) in
      if parses jsonString then Some (clean, jsonString) else None
  | None => None
  end.

(** The examples whose serialisations are the lines [convertToJSONL]
    writes. *)
Definition written_examples (examples : list example) : list example :=
  omap (fun ex => fst <$> serialise ex) examples.

Definition convertToJSONL (examples : list example) : string :=
  JS.join_lines (omap (fun ex => snd <$> serialise ex) examples).

Definition nonblank_lines (s : string) : list string :=
  filter (fun line => JS.truthy (JS.trim line) = true) (JS.split_lines s).

Definition validateJSONL (jsonl : string) : bool :=
  if negb (JS.truthy jsonl) || negb (JS.truthy (JS.trim jsonl)) then false
  else forallb parses (nonblank_lines jsonl).

(** The filter applied to [allExamples] before the split. *)
Definition validates (ex : example) : bool :=
  parses (Fingerprint.stringify_example (messages ex)).

(** [Math.floor(validatedExamples.length * 0.8)] *)
Definition trainingCount (n : nat) : nat :=
  Z.to_nat (Num.floor (Num.fmul (Num.of_nat n) Num.lit_0_8)).

(** [Math.floor(((batch + 1) / job.total_batches) * 100)] *)
Definition progress_of (batch total_batches : nat) : Z :=
  Num.floor (Num.fmul (Num.fdiv (Num.of_nat (batch + 1)) (Num.of_nat total_batches))
                      (Num.of_Z 100)).

(** ** Store operations *)

Definition db_op : M state unit :=
  s ← get;
  put (set_ops (S (ops s)) s);;
  match db_fault (ops s) with
  | Some msg => throw msg
  | None => mret tt
  end.

(** [prisma.dataset.update]: fails when the record does not exist. *)
Definition update (f : dataset -> dataset) : M state dataset :=
  db_op;;
  s ← get;
  match db s with
  | Some d => put (set_db (Some (f d)) s);; mret (f d)
  | None => throw record_not_found
  end.

Definition findUnique : M state (option dataset) :=
  db_op;; s ← get; mret (db s).

(** ** The global uniqueness index *)

(** A message of a stored line.  [None] when reading it throws (the entry
    is [null], or its content is a truthy value without [trim]); a role
    that is not a string is outside the declared type and is treated the
    same way. *)
Definition stored_message (msg : json) : option message :=
  match msg with
  | JNull => None
  | _ =>
      match Json.or_default (Json.field "role" msg) (JStr "user"),
            Json.or_default (Json.field "content" msg) (JStr EmptyString) with
      | JStr r, JStr c => Some {| role := r; content := JS.trim c |}
      | _, _ => None
      end
  end.

Definition stored_example (line : string) : option example :=
  match JSON_parse line with
  | Some ex =>
      if Json.truthy ex then
        match Json.field "messages" ex with
        | Some (JArr msgs) => Example <$> mapM stored_message msgs
        | _ => None
        end
      else None
  | None => None
  end.

Definition content_hashes (content : string) : list string :=
  omap (fun line => hash <$> stored_example line) (nonblank_lines content).

Definition getAllExistingExampleHashes : M state (gset string) :=
  catch
    (db_op;;
     mret (list_to_set
             (concat (map content_hashes
                          (filter (fun c => JS.truthy c = true) existing_contents)))))
    (fun _ => mret ∅).

(** ** One batch *)

Definition call_generateBatch (count : Z) : M state (list example) :=
  s ← get;
  put (set_calls (S (calls s)) s);;
  mret (generate (calls s) count).

(** The loop over [batchExamples]: an example whose hash is known is
    skipped, the others are appended and their hashes recorded. *)
Fixpoint dedup (existingHashes : gset string) (examples : list example)
    (unique : list example) (current : gset string) : list example * gset string :=
  match examples with
  | [] => (unique, current)
  | ex :: r =>
      let h := hash ex in
      if bool_decide (h ∈ existingHashes) || bool_decide (h ∈ current)
      then dedup existingHashes r unique current
      else dedup existingHashes r (unique ++ [ex]) ({[h]} ∪ current)
  end.

(** The loop over [additionalExamples]: the same, leaving the loop once
    [batchCount] examples are there. *)
Fixpoint dedup_upto (existingHashes : gset string) (batchCount : Z) (examples : list example)
    (unique : list example) (current : gset string) : list example * gset string :=
  match examples with
  | [] => (unique, current)
  | ex :: r =>
      let h := hash ex in
      if bool_decide (h ∈ existingHashes) || bool_decide (h ∈ current)
      then dedup_upto existingHashes batchCount r unique current
      else
        let unique' := unique ++ [ex] in
        let current' := {[h]} ∪ current in
        if batchCount <=? Z.of_nat (length unique') then (unique', current')
        else dedup_upto existingHashes batchCount r unique' current'
  end.

(** [while (uniqueBatchExamples.length < batchCount && attempts < maxRetryAttempts)] *)
Fixpoint retry (attempts_left : nat) (existingHashes : gset string) (batchCount : Z)
    (unique : list example) : M state (list example) :=
  match attempts_left with
  | O => mret unique
  | S k =>
      if Z.of_nat (length unique) <? batchCount then
        let needed := batchCount - Z.of_nat (length unique) in
        additionalExamples ← call_generateBatch needed;
        s ← get;
        let '(unique', current') :=
          dedup_upto existingHashes batchCount additionalExamples unique (currentJobHashes s) in
        put (set_currentJobHashes current' s);;
        retry k existingHashes batchCount unique'
      else mret unique
  end.

Definition maxRetryAttempts : nat := 3.

(** The body of the [try] block of one batch. *)
Definition batch_body (existingHashes : gset string) (job : dataset) (batch : nat)
    (batchCount : Z) : M state unit :=
  batchExamples ← call_generateBatch batchCount;
  s ← get;
  let '(unique, current) := dedup existingHashes batchExamples [] (currentJobHashes s) in
  put (set_currentJobHashes current s);;
  uniqueBatchExamples ← retry maxRetryAttempts existingHashes batchCount unique;
  modify (fun s => set_allExamples (allExamples s ++ uniqueBatchExamples) s);;
  s ← get;
  update (mark_progress (batch + 1) (progress_of batch (ds_total_batches job))
                        (length (allExamples s)));;
  mret tt.

(** [for (let batch = 0; batch < job.total_batches; batch++)], with
    [remaining] iterations left; a batch that throws is skipped. *)
Fixpoint batches (remaining : nat) (existingHashes : gset string) (job : dataset)
    (targetExamples : Z) (batch : nat) : M state unit :=
  match remaining with
  | O => mret tt
  | S k =>
      let batchCount := Z.min 5 (targetExamples - Z.of_nat batch * 5) in
      if batchCount <=? 0 then mret tt
      else
        catch (batch_body existingHashes job batch batchCount) (fun _ => mret tt);;
        batches k existingHashes job targetExamples (S batch)
  end.

(** ** The runner *)

(** What follows the loop: validation, the 80/20 split, serialisation and
    the final update. *)
Definition finish : M state unit :=
  s ← get;
  let validatedExamples := filter (fun ex => validates ex = true) (allExamples s) in
  if (length validatedExamples =? 0)%nat
  then throw "No valid examples generated after validation"
  else
    let trainingExamples := take (trainingCount (length validatedExamples)) validatedExamples in
    let testExamples := drop (trainingCount (length validatedExamples)) validatedExamples in
    let fullContent := convertToJSONL validatedExamples in
    let trainingContent := convertToJSONL trainingExamples in
    let testContent := convertToJSONL testExamples in
    if negb (validateJSONL fullContent)
    then throw "Generated JSONL content is invalid"
    else
      update (mark_completed fullContent trainingContent testContent
                (length validatedExamples) (length trainingExamples) (length testExamples));;
      mret tt.

(** The [try] block of [processGenerationJob]. *)
Definition process_body : M state unit :=
  update mark_processing;;
  job ← findUnique;
  match job with
  | None => throw "Job not found"
  | Some job =>
      match api_key with
      | Some (String _ _) =>
          existingHashes ← getAllExistingExampleHashes;
          modify (set_existingHashes existingHashes);;
          let targetExamples :=
            match ds_target_examples job with
            | Some t => t
            | None => Z.of_nat (ds_total_batches job) * 5
            end in
          batches (ds_total_batches job) existingHashes job targetExamples 0;;
          finish
      | _ => throw "OPENAI_API_KEY not configured"
      end
  end.

(** The [catch] block: the title is read, then the record is marked
    failed; an error of either store operation is ignored. *)
Definition on_error (errorMessage : string) : M state unit :=
  catch (findUnique;; mret tt) (fun _ => mret tt);;
  catch (update (mark_failed errorMessage);; mret tt) (fun _ => mret tt).

Definition processGenerationJob : M state unit :=
  catch process_body on_error.

(** ** What the store operations compute *)

Lemma run_update f s :
  run (update f) s =
  match db_fault (ops s) with
  | Some msg => (Throw msg, set_ops (S (ops s)) s)
  | None =>
      match db s with
      | Some d => (Ok (f d), set_db (Some (f d)) (set_ops (S (ops s)) s))
      | None => (Throw record_not_found, set_ops (S (ops s)) s)
      end
  end.
Proof.
  unfold update, db_op. cbn. destruct (db_fault (ops s)); cbn; [done|].
  by destruct (db s).
Qed.

Lemma run_findUnique s :
  run findUnique s =
  match db_fault (ops s) with
  | Some msg => (Throw msg, set_ops (S (ops s)) s)
  | None => (Ok (db s), set_ops (S (ops s)) s)
  end.
Proof. unfold findUnique, db_op. cbn. by destruct (db_fault (ops s)). Qed.

Lemma run_getAllExistingExampleHashes s :
  exists X, run getAllExistingExampleHashes s = (Ok X, set_ops (S (ops s)) s).
Proof.
  unfold getAllExistingExampleHashes, db_op. cbn.
  destruct (db_fault (ops s)); cbn; eauto.
Qed.

(** ** Invariants of a run *)

(** The record exists and has not been marked completed. *)
Definition alive (o : option dataset) : Prop :=
  exists d, o = Some d /\ ds_status d <> Completed.

(** The examples of [l] have pairwise distinct hashes, all recorded in
    [current] and none in [X]. *)
Definition fresh (X : gset string) (l : list example) (current : gset string) : Prop :=
  NoDup (map hash l) /\ forall e, e ∈ l -> hash e ∈ current /\ hash e ∉ X.

(** The invariant of the batch loop, with [unique] the examples of the
    batch under way. *)
Definition inv (X : gset string) (unique : list example) (s : state) : Prop :=
  existingHashes s = X /\ alive (db s)
  /\ fresh X (allExamples s ++ unique) (currentJobHashes s).

Lemma fresh_snoc X l current ex :
  fresh X l current -> hash ex ∉ X -> hash ex ∉ current ->
  fresh X (l ++ [ex]) ({[hash ex]} ∪ current).
Proof.
  intros [Hnd Hin] HX Hc. split.
  - rewrite map_app. apply NoDup_app. split; [done|]. split.
    + intros h Hh Hh'. apply list_elem_of_singleton in Hh'. subst h.
      apply list_elem_of_fmap in Hh as (e & He & Hel). apply Hc. rewrite He. by apply Hin.
    + simpl. apply NoDup_singleton.
  - intros e [He| ->%list_elem_of_singleton]%elem_of_app.
    + pose proof (Hin e He) as [? ?]. split; [|done]. apply elem_of_union. by right.
    + split; [|done]. apply elem_of_union. left. by apply elem_of_singleton.
Qed.

Lemma dedup_fresh X all examples unique current unique' current' :
  fresh X (all ++ unique) current ->
  dedup X examples unique current = (unique', current') ->
  fresh X (all ++ unique') current'.
Proof.
  revert unique current. induction examples as [|ex r IH]; intros unique current Hf Hd; simpl in Hd.
  - by simplify_eq.
  - destruct (bool_decide (hash ex ∈ X)) eqn:EX; simpl in Hd; [by eapply IH|].
    destruct (bool_decide (hash ex ∈ current)) eqn:EC; simpl in Hd; [by eapply IH|].
    apply bool_decide_eq_false in EX, EC.
    eapply IH; [|exact Hd]. rewrite (assoc_L (++)). by apply fresh_snoc.
Qed.

Lemma dedup_upto_fresh X batchCount all examples unique current unique' current' :
  fresh X (all ++ unique) current ->
  dedup_upto X batchCount examples unique current = (unique', current') ->
  fresh X (all ++ unique') current'.
Proof.
  revert unique current. induction examples as [|ex r IH]; intros unique current Hf Hd; simpl in Hd.
  - by simplify_eq.
  - destruct (bool_decide (hash ex ∈ X)) eqn:EX; simpl in Hd; [by eapply IH|].
    destruct (bool_decide (hash ex ∈ current)) eqn:EC; simpl in Hd; [by eapply IH|].
    apply bool_decide_eq_false in EX, EC.
    assert (fresh X (all ++ unique ++ [ex]) ({[hash ex]} ∪ current)) as Hf'.
    { rewrite (assoc_L (++)). by apply fresh_snoc. }
    destruct (batchCount <=? Z.of_nat (length (unique ++ [ex]))); [by simplify_eq|].
    by eapply IH.
Qed.

Lemma run_call_generateBatch count s :
  run (call_generateBatch count) s = (Ok (generate (calls s) count), set_calls (S (calls s)) s).
Proof. done. Qed.

Lemma retry_inv k X batchCount unique s :
  inv X unique s ->
  wp (retry k X batchCount unique) (fun unique' s' => inv X unique' s') (fun _ _ => False) s.
Proof.
  revert unique s. induction k as [|k IH]; intros unique s Hinv; [done|].
  cbn [retry]. destruct (Z.of_nat (length unique) <? batchCount); [|done].
  eapply wp_ok_bind; [apply run_call_generateBatch|].
  apply wp_get_bind.
  destruct (dedup_upto _ _ _ _ _) as [unique' current'] eqn:Hd.
  apply wp_put_bind, IH.
  destruct Hinv as (HX & Hal & Hf). split; [done|]. split; [done|].
  by eapply dedup_upto_fresh.
Qed.

Lemma alive_progress d c p g :
  alive (Some d) -> alive (Some (mark_progress c p g d)).
Proof. intros (d' & [= <-] & H). by exists (mark_progress c p g d). Qed.

Lemma batch_body_inv X job batch batchCount s :
  inv X [] s ->
  wp (batch_body X job batch batchCount)
     (fun _ s' => inv X [] s') (fun _ s' => inv X [] s') s.
Proof.
  intros (HX & Hal & Hf). unfold batch_body.
  eapply wp_ok_bind; [apply run_call_generateBatch|].
  apply wp_get_bind.
  destruct (dedup _ _ _ _) as [unique current] eqn:Hd.
  apply wp_put_bind, wp_bind. eapply wp_mono.
  - apply retry_inv. split; [done|]. split; [done|].
    eapply dedup_fresh; [|exact Hd]. by rewrite app_nil_r in Hf |- *.
  - intros unique' s' (HX' & Hal' & Hf').
    apply wp_modify_bind, wp_get_bind.
    destruct Hal' as (d & Hd' & Hst).
    destruct (db_fault (ops s')) as [msg|] eqn:Hfault.
    + eapply wp_throw_bind.
      { rewrite run_update. cbn [set_allExamples ops db]. by rewrite Hfault. }
      split; [done|]. split; [by exists d|]. cbn. by rewrite app_nil_r.
    + eapply wp_ok_bind.
      { rewrite run_update. cbn [set_allExamples ops db]. by rewrite Hfault, Hd'. }
      apply wp_ret. split; [done|]. split; [|cbn; by rewrite app_nil_r].
      cbn. apply alive_progress. by exists d.
  - done.
Qed.

Lemma batches_inv k X job targetExamples batch s :
  inv X [] s ->
  wp (batches k X job targetExamples batch)
     (fun _ s' => inv X [] s') (fun _ _ => False) s.
Proof.
  revert batch s. induction k as [|k IH]; intros batch s Hinv; [done|].
  cbn [batches]. destruct (Z.min 5 _ <=? 0); [done|].
  apply wp_bind, wp_catch. eapply wp_mono; [by apply batch_body_inv| |].
  - intros [] s' Hs'. by apply IH.
  - intros e s' Hs'. apply wp_ret_bind. by apply IH.
Qed.

(** [committed s d]: [d] is the record the final update writes from the
    examples accumulated in [s]. *)
Definition committed (s : state) (d : dataset) : Prop :=
  let v := filter (fun ex => validates ex = true) (allExamples s) in
  let tc := trainingCount (length v) in
  v <> [] /\
  ds_status d = Completed /\
  ds_num_examples d = Some (length v) /\
  ds_training_examples_count d = Some (length (take tc v)) /\
  ds_test_examples_count d = Some (length (drop tc v)) /\
  ds_content d = Some (convertToJSONL v) /\
  ds_training_content d = Some (convertToJSONL (take tc v)) /\
  ds_test_content d = Some (convertToJSONL (drop tc v)) /\
  validateJSONL (convertToJSONL v) = true.

Definition unique_so_far (s : state) : Prop :=
  fresh (existingHashes s) (allExamples s) (currentJobHashes s).

Definition done_ok (s : state) : Prop :=
  unique_so_far s /\ exists d, db s = Some d /\ committed s d.

Definition not_done (s : state) : Prop :=
  unique_so_far s /\ alive (db s).

Lemma inv_not_done X s : inv X [] s -> not_done s.
Proof.
  intros (HX & Hal & Hf). split; [|done].
  unfold unique_so_far. by rewrite HX, app_nil_r in *.
Qed.

Lemma finish_spec X s :
  inv X [] s -> wp finish (fun _ s' => done_ok s') (fun _ s' => not_done s') s.
Proof.
  intros Hinv. pose proof (inv_not_done _ _ Hinv) as Hnot.
  pose proof Hnot as [Hu (d & Hd & Hst)].
  unfold finish. apply wp_get_bind.
  destruct (length _ =? 0)%nat eqn:Hlen; [by apply wp_throw|].
  destruct (validateJSONL _) eqn:Hval; cbn [negb]; [|by apply wp_throw].
  destruct (db_fault (ops s)) as [msg|] eqn:Hfault.
  - eapply wp_throw_bind; [rewrite run_update; by rewrite Hfault|].
    split; [done|]. by exists d.
  - eapply wp_ok_bind; [rewrite run_update; by rewrite Hfault, Hd|].
    apply wp_ret. split; [done|]. eexists. split; [done|].
    unfold committed. cbn. repeat split; try done.
    intros Hnil. rewrite Hnil in Hlen. done.
Qed.

Lemma alive_processing d : alive (Some (mark_processing d)).
Proof. by exists (mark_processing d). Qed.

Lemma process_body_spec s :
  alive (db s) -> allExamples s = [] ->
  wp process_body (fun _ s' => done_ok s') (fun _ s' => not_done s') s.
Proof.
  intros (d & Hd & Hst) Hall.
  assert (forall X n1 n2 o, alive o ->
            not_done (set_existingHashes X (set_ops n1 (set_db o (set_ops n2 s))))) as Hnd.
  { intros X n1 n2 o Ho. split; [|done]. unfold unique_so_far. cbn. rewrite Hall.
    split; [constructor|]. intros e He. by apply elem_of_nil in He. }
  assert (forall n o, alive o -> not_done (set_db o (set_ops n s))) as Hnd0.
  { intros n o Ho. split; [|done]. unfold unique_so_far. cbn. rewrite Hall.
    split; [constructor|]. intros e He. by apply elem_of_nil in He. }
  unfold process_body.
  destruct (db_fault (ops s)) as [msg|] eqn:Hfault.
  { eapply wp_throw_bind; [rewrite run_update; by rewrite Hfault|].
    split; [|by exists d]. unfold unique_so_far. cbn. rewrite Hall.
    split; [constructor|]. intros e He. by apply elem_of_nil in He. }
  eapply wp_ok_bind; [rewrite run_update; by rewrite Hfault, Hd|].
  set (s1 := set_db _ _).
  destruct (db_fault (ops s1)) as [msg|] eqn:Hfault1.
  { eapply wp_throw_bind; [rewrite run_findUnique; by rewrite Hfault1|].
    split; [|apply alive_processing]. unfold unique_so_far. cbn. rewrite Hall.
    split; [constructor|]. intros e He. by apply elem_of_nil in He. }
  eapply wp_ok_bind; [rewrite run_findUnique; by rewrite Hfault1|].
  cbn [s1 set_db db].
  assert (not_done (set_ops (S (ops s1)) s1)) as Hnd1.
  { split; [|apply alive_processing]. unfold unique_so_far. cbn. rewrite Hall.
    split; [constructor|]. intros e He. by apply elem_of_nil in He. }
  destruct api_key as [[|c k]|]; [by apply wp_throw| |by apply wp_throw].
  destruct (run_getAllExistingExampleHashes (set_ops (S (ops s1)) s1)) as [X HX].
  eapply wp_ok_bind; [exact HX|].
  apply wp_modify_bind, wp_bind. eapply wp_mono.
  - apply batches_inv. split; [done|]. split; [apply alive_processing|].
    cbn. rewrite Hall. split; [constructor|]. intros e He. by apply elem_of_nil in He.
  - intros [] s' Hs'. by eapply finish_spec.
  - done.
Qed.

Lemma on_error_spec msg s :
  not_done s -> wp (on_error msg) (fun _ s' => not_done s') (fun _ _ => False) s.
Proof.
  intros [Hu (d & Hd & Hst)]. unfold on_error.
  assert (wp (catch (findUnique ≫= λ _, mret ()) (λ _, mret ()))
            (fun _ s' => s' = set_ops (S (ops s)) s) (fun _ _ => False) s) as H1.
  { apply wp_catch. destruct (db_fault (ops s)) as [m|] eqn:Hfault.
    - eapply wp_throw_bind; [rewrite run_findUnique; by rewrite Hfault|]. by apply wp_ret.
    - eapply wp_ok_bind; [rewrite run_findUnique; by rewrite Hfault|]. by apply wp_ret. }
  apply wp_bind. eapply wp_mono; [exact H1| |done].
  intros [] s' ->. apply wp_catch.
  destruct (db_fault (S (ops s))) as [m|] eqn:Hfault.
  - eapply wp_throw_bind; [rewrite run_update; cbn [set_ops ops]; by rewrite Hfault|].
    apply wp_ret. split; [done|]. by exists d.
  - eapply wp_ok_bind; [rewrite run_update; cbn [set_ops ops db]; by rewrite Hfault, Hd|].
    apply wp_ret. split; [done|]. by exists (mark_failed msg d).
Qed.

Lemma processGenerationJob_spec s :
  alive (db s) -> allExamples s = [] ->
  wp processGenerationJob (fun _ s' => done_ok s' \/ not_done s') (fun _ _ => False) s.
Proof.
  intros Hal Hall. unfold processGenerationJob. apply wp_catch.
  eapply wp_mono; [by apply process_body_spec|by left|].
  intros e s' Hs'. eapply wp_mono; [by apply on_error_spec|by right|done].
Qed.

(** What the [catch] block computes: two store operations, the second of
    which marks the record failed unless the store raises an error. *)
Lemma run_on_error msg s :
  run (on_error msg) s =
  (Ok tt,
   match db_fault (S (ops s)), db s with
   | None, Some d => set_db (Some (mark_failed msg d)) (set_ops (S (S (ops s))) s)
   | _, _ => set_ops (S (S (ops s))) s
   end).
Proof.
  unfold on_error, findUnique, update, db_op. cbn.
  destruct (db_fault (ops s)); cbn; destruct (db_fault (S (ops s))); cbn;
    try done; by destruct (db s).
Qed.

(** ** Results *)

(** The examples a run accumulates have pairwise distinct fingerprints, and
    none of them has a fingerprint of the set loaded at the start of the
    run. *)
Lemma accepted_examples_unique d s' :
  ds_status d <> Completed ->
  snd (run processGenerationJob (initial d)) = s' ->
  NoDup (map hash (allExamples s'))
  /\ forall e, e ∈ allExamples s' -> hash e ∉ existingHashes s'.
Proof.
  intros Hst <-.
  assert (alive (db (initial d))) as Hal by (by exists d).
  pose proof (processGenerationJob_spec (initial d) Hal eq_refl) as H. unfold wp in H.
  destruct (run processGenerationJob (initial d)) as [[[]|e] s']; simpl; [|done].
  assert (unique_so_far s') as [Hnd Hin] by (by destruct H as [[? _]|[? _]]).
  split; [done|]. intros e He. by apply Hin.
Qed.

Lemma trainingCount_four_fifths n :
  (Z.of_nat n < 2 ^ 32) -> trainingCount n = Z.to_nat (4 * Z.of_nat n / 5).
Proof.
  intros Hn. unfold trainingCount. rewrite Num.of_nat_int by lia.
  rewrite Num.floor_mul_0_8 by lia. done.
Qed.

(** C2: when a run ends with the record completed, the validated examples
    are split into a prefix and the remaining suffix (the original order is
    kept), the prefix holds the integer part of 0.8 times their number, the
    three counts are the lengths of the whole, the prefix and the suffix,
    so that the training and test counts add up to [num_examples], and the
    three contents are the serialisations of the whole, the prefix and the
    suffix.  The bound on the number of examples is the one every
    ECMAScript array obeys. *)
Theorem completed_split d s' d' :
  ds_status d = Pending ->
  snd (run processGenerationJob (initial d)) = s' ->
  db s' = Some d' ->
  ds_status d' = Completed ->
  (Z.of_nat (length (allExamples s')) < 2 ^ 32) ->
  exists validatedExamples trainingExamples testExamples : list example,
    validatedExamples = filter (fun ex => validates ex = true) (allExamples s')
    /\ validatedExamples = trainingExamples ++ testExamples
    /\ (1 <= length validatedExamples)%nat
    /\ Z.of_nat (length trainingExamples) = 4 * Z.of_nat (length validatedExamples) / 5
    /\ ds_num_examples d' = Some (length validatedExamples)
    /\ ds_training_examples_count d' = Some (length trainingExamples)
    /\ ds_test_examples_count d' = Some (length testExamples)
    /\ (length trainingExamples + length testExamples = length validatedExamples)%nat
    /\ ds_content d' = Some (convertToJSONL validatedExamples)
    /\ ds_training_content d' = Some (convertToJSONL trainingExamples)
    /\ ds_test_content d' = Some (convertToJSONL testExamples).
Proof.
  intros Hst <- Hdb Hdone Hlen.
  assert (alive (db (initial d))) as Hal by (exists d; by rewrite Hst).
  pose proof (processGenerationJob_spec (initial d) Hal eq_refl) as H. unfold wp in H.
  destruct (run processGenerationJob (initial d)) as [[[]|e] s']; simpl in *; [|done].
  destruct H as [H|H].
  - destruct H as [_ (d0 & Hd0 & Hv & _ & Hnum & Htr & Hte & Hc & Htc & Htec & _)].
    assert (d0 = d') as -> by congruence.
    set (v := filter (fun ex => validates ex = true) (allExamples s')) in *.
    assert (length v <= length (allExamples s'))%nat as Hvl by apply length_filter.
    assert (trainingCount (length v) <= length v)%nat as Htcl.
    { rewrite trainingCount_four_fifths by lia.
      assert (4 * Z.of_nat (length v) / 5 <= Z.of_nat (length v)); [|lia].
      apply Z.div_le_upper_bound; lia. }
    exists v, (take (trainingCount (length v)) v), (drop (trainingCount (length v)) v).
    split; [done|]. split; [by rewrite take_drop|].
    split; [destruct v; [done|simpl; lia]|].
    split.
    { rewrite length_take, Nat.min_l by done. rewrite trainingCount_four_fifths by lia.
      rewrite Z2Nat.id; [done|]. apply Z.div_pos; lia. }
    repeat split; try done.
    rewrite length_take, length_drop. lia.
  - destruct H as [_ (d0 & Hd0 & Hnc)]. congruence.
Qed.

(** C7, as amended: the runner never throws to its caller.  When its [try]
    block ends normally the record is completed.  When an exception leaves
    the [try] block, the record is marked failed with the message of that
    exception provided the store accepts the update of the [catch] block;
    when the store rejects that update the error is ignored and the record
    stays as it was (for instance still processing). *)
Theorem runner_exit d :
  ds_status d = Pending ->
  exists s2 d2,
    run processGenerationJob (initial d) = (Ok tt, s2) /\ db s2 = Some d2 /\
    match run process_body (initial d) with
    | (Ok _, s1) => s2 = s1 /\ ds_status d2 = Completed
    | (Throw msg, s1) =>
        match db_fault (S (ops s1)) with
        | None => ds_status d2 = Failed /\ ds_error d2 = Some msg
        | Some _ => db s2 = db s1
        end
    end.
Proof.
  intros Hst.
  assert (alive (db (initial d))) as Hal by (exists d; by rewrite Hst).
  pose proof (process_body_spec (initial d) Hal eq_refl) as H. unfold wp in H.
  unfold processGenerationJob. cbn [catch run].
  destruct (run process_body (initial d)) as [[[]|msg] s1].
  - destruct H as [_ (d2 & Hd2 & Hc)].
    exists s1, d2. repeat split; try done. apply Hc.
  - destruct H as [_ (d1 & Hd1 & Hnc)].
    rewrite run_on_error, Hd1.
    destruct (db_fault (S (ops s1))); eauto 10.
Qed.

End Run.

(** ** Sample runs *)

Definition qa (q a : string) : example :=
  {| messages := [ {| role := "user"; content := q |};
                   {| role := "assistant"; content := a |} ] |}.

Definition json_of_example (e : example) : json :=
  BatchGenerator.json_example
    (map (fun m => BatchGenerator.json_message (role m) (content m)) (messages e)).

(** [JSON.parse] restricted to the serialisations of the examples of [l]
    and of their cleaned forms. *)
Definition parse_examples (l : list example) : string -> option json :=
  BatchGenerator.parse_table
    (map (fun e => (Fingerprint.stringify_example (messages e), json_of_example e))
         (l ++ omap clean_example l)).

Definition no_fault : nat -> option string := fun _ => None.

Definition not_found : string := "Record to update not found.".

(** Ten examples are requested.  The first batch brings five new examples;
    the second brings three new ones and two that repeat earlier ones up to
    case and white space; the retry brings the two missing ones. *)
Definition scenario_batches (k : nat) (count : Z) : list example :=
  match k with
  | 0%nat => [qa "q1" "a1"; qa "q2" "a2"; qa "q3" "a3"; qa "q4" "a4"; qa "q5" "a5"]
  | 1%nat => [qa "q6" "a6"; qa "Q1 " " A1"; qa "q7" "a7"; qa "q2" "a2"; qa "q8" "a8"]
  | 2%nat => [qa "q9" "a9"; qa "q10" "a10"]
  | _ => []
  end.

Definition scenario_job : dataset := new_job "Greetings" "Short greetings" "chat" 10.

Definition scenario_run : outcome unit * state :=
  run (processGenerationJob Platform.ascii_toLowerCase Platform.codeunit_compare
         (parse_examples (scenario_batches 0 5 ++ scenario_batches 1 5 ++ scenario_batches 2 2))
         no_fault scenario_batches (Some "sk-test"%string) [] not_found)
      (initial scenario_job).

Definition scenario_record : dataset := default scenario_job (db (snd scenario_run)).

Example scenario_counts :
  ds_total_batches scenario_job = 2%nat
  /\ ds_status scenario_record = Completed
  /\ ds_num_examples scenario_record = Some 10%nat
  /\ ds_training_examples_count scenario_record = Some 8%nat
  /\ ds_test_examples_count scenario_record = Some 2%nat
  /\ ds_progress scenario_record = 100.
Proof. vm_compute. repeat split; reflexivity. Qed.

Lemma completed_split_witness :
  ds_status scenario_job = Pending
  /\ db (snd scenario_run) = Some scenario_record
  /\ ds_status scenario_record = Completed
  /\ (exists tr te : list example,
        allExamples (snd scenario_run) = tr ++ te
        /\ ds_training_examples_count scenario_record = Some (length tr)
        /\ ds_test_examples_count scenario_record = Some (length te)
        /\ Z.of_nat (length tr) = 8).
Proof.
  assert (ds_status scenario_job = Pending) as H1 by reflexivity.
  assert (db (snd scenario_run) = Some scenario_record) as H2 by (vm_compute; reflexivity).
  assert (ds_status scenario_record = Completed) as H3 by (vm_compute; reflexivity).
  assert (Z.of_nat (length (allExamples (snd scenario_run))) < 2 ^ 32) as H4
    by (vm_compute; reflexivity).
  destruct (completed_split _ _ _ _ _ _ _ _ _ _ _ H1 eq_refl H2 H3 H4)
    as (v & tr & te & Hv & Happ & _ & Hlen & _ & Htr & Hte & _).
  split; [exact H1|]. split; [exact H2|]. split; [exact H3|].
  exists tr, te. split; [|split; [exact Htr|split; [exact Hte|]]].
  - rewrite <- Happ, Hv. vm_compute. reflexivity.
  - rewrite Hlen, Hv. vm_compute. reflexivity.
Defined.

(** One example is requested and the provider has nothing to offer, so the
    [try] block throws; the store then refuses the update of the [catch]
    block (its sixth operation of the run). *)
Definition outage (k : nat) : option string :=
  if (k =? 5)%nat then Some "Can't reach database server"%string else None.

Definition outage_run : outcome unit * state :=
  run (processGenerationJob Platform.ascii_toLowerCase Platform.codeunit_compare
         (parse_examples []) outage (fun _ _ => []) (Some "sk-test"%string) [] not_found)
      (initial (new_job "Greetings" "Short greetings" "chat" 1)).

(** C7, counterexample: an exception leaves the [try] block after the record
    was marked processing, yet the runner returns with the record still
    processing and without an error. *)
Lemma runner_leaves_processing :
  exists s1 s2 d2,
    run (process_body Platform.ascii_toLowerCase Platform.codeunit_compare
           (parse_examples []) outage (fun _ _ => []) (Some "sk-test"%string) [] not_found)
        (initial (new_job "Greetings" "Short greetings" "chat" 1))
    = (Throw "No valid examples generated after validation"%string, s1)
    /\ (exists d1, db s1 = Some d1 /\ ds_status d1 = Processing)
    /\ outage_run = (Ok tt, s2)
    /\ db s2 = Some d2
    /\ ds_status d2 = Processing
    /\ ds_error d2 = None.
Proof.
  do 3 eexists. split; [vm_compute; reflexivity|].
  split; [eexists; split; vm_compute; reflexivity|].
  split; [vm_compute; reflexivity|].
  repeat split; vm_compute; reflexivity.
Qed.

(** The same request with a store that works: the record is marked failed
    with the message of the exception. *)
Definition empty_run : outcome unit * state :=
  run (processGenerationJob Platform.ascii_toLowerCase Platform.codeunit_compare
         (parse_examples []) no_fault (fun _ _ => []) (Some "sk-test"%string) [] not_found)
      (initial (new_job "Greetings" "Short greetings" "chat" 1)).

Example empty_run_failed :
  fst empty_run = Ok tt
  /\ (ds_status <$> db (snd empty_run)) = Some Failed
  /\ (ds_error <$> db (snd empty_run))
     = Some (Some "No valid examples generated after validation"%string).
Proof. vm_compute. repeat split; reflexivity. Qed.

Lemma runner_exit_witness :
  ds_status (new_job "Greetings" "Short greetings" "chat" 1) = Pending
  /\ exists s2 d2,
       empty_run = (Ok tt, s2) /\ db s2 = Some d2 /\
       match run (process_body Platform.ascii_toLowerCase Platform.codeunit_compare
                    (parse_examples []) no_fault (fun _ _ => []) (Some "sk-test"%string) []
                    not_found)
                 (initial (new_job "Greetings" "Short greetings" "chat" 1)) with
       | (Ok _, s1) => s2 = s1 /\ ds_status d2 = Completed
       | (Throw msg, s1) =>
           match no_fault (S (ops s1)) with
           | None => ds_status d2 = Failed /\ ds_error d2 = Some msg
           | Some _ => db s2 = db s1
           end
       end.
Proof.
  split; [reflexivity|].
  exact (runner_exit Platform.ascii_toLowerCase Platform.codeunit_compare
           (parse_examples []) no_fault (fun _ _ => []) (Some "sk-test"%string) [] not_found
           (new_job "Greetings" "Short greetings" "chat" 1) eq_refl).
Defined.

(** Two examples are requested.  The provider sends an example with a
    system message of one blank, and the same example without that
    message. *)
Definition blank_system : example :=
  {| messages := [ {| role := "user"; content := "hi" |};
                   {| role := "assistant"; content := "yo" |};
                   {| role := "system"; content := " " |} ] |}.

Definition twin_batches (k : nat) (count : Z) : list example :=
  match k with
  | 0%nat => [blank_system; qa "hi" "yo"]
  | _ => []
  end.

Definition twin_parse : string -> option json := parse_examples (twin_batches 0 2).

Definition twin_run : outcome unit * state :=
  run (processGenerationJob Platform.ascii_toLowerCase Platform.codeunit_compare
         twin_parse no_fault twin_batches (Some "sk-test"%string) [] not_found)
      (initial (new_job "Greetings" "Short greetings" "chat" 2)).

Definition twin_line : string :=
  Fingerprint.stringify_example (messages (qa "hi" "yo")).

(** C1, at the failing input: the two examples have different fingerprints
    and both are accepted; the run completes; the serialisation drops the
    blank message, so the content holds the same line twice, and the two
    examples written have the same fingerprint. *)
Theorem twin_run_writes_duplicates :
  exists s' d',
    twin_run = (Ok tt, s')
    /\ db s' = Some d'
    /\ ds_status d' = Completed
    /\ allExamples s' = [blank_system; qa "hi" "yo"]
    /\ hash Platform.ascii_toLowerCase Platform.codeunit_compare blank_system
        <> hash Platform.ascii_toLowerCase Platform.codeunit_compare (qa "hi" "yo")
    /\ ds_content d' = Some (JS.join_lines [twin_line; twin_line])
    /\ written_examples twin_parse (allExamples s') = [qa "hi" "yo"; qa "hi" "yo"]
    /\ ~ NoDup (map (hash Platform.ascii_toLowerCase Platform.codeunit_compare)
                    (written_examples twin_parse (allExamples s'))).
Proof.
  exists (snd twin_run), (default (new_job "Greetings" "Short greetings" "chat" 2)
                                  (db (snd twin_run))).
  assert (allExamples (snd twin_run) = [blank_system; qa "hi" "yo"]) as Hall
    by (vm_compute; reflexivity).
  assert (written_examples twin_parse [blank_system; qa "hi" "yo"]
          = [qa "hi" "yo"; qa "hi" "yo"]) as Hw by (vm_compute; reflexivity).
  rewrite Hall, Hw.
  split; [vm_compute; reflexivity|]. split; [vm_compute; reflexivity|].
  split; [vm_compute; reflexivity|]. split; [reflexivity|].
  split; [vm_compute; discriminate|]. split; [vm_compute; reflexivity|].
  split; [reflexivity|].
  simpl. intros Hnd. apply NoDup_cons in Hnd as [Hn _].
  apply Hn. by left.
Qed.

(** The same gap against the global index: a completed dataset already holds
    the line of [qa "hi" "yo"]; the provider sends that example with one more,
    blank, system message.  The example is accepted, and the line written has
    a fingerprint of the set loaded at the start of the run. *)
Definition repeat_batches (k : nat) (count : Z) : list example :=
  match k with
  | 0%nat => [blank_system]
  | _ => []
  end.

Definition repeat_run : outcome unit * state :=
  run (processGenerationJob Platform.ascii_toLowerCase Platform.codeunit_compare
         twin_parse no_fault repeat_batches (Some "sk-test"%string) [twin_line] not_found)
      (initial (new_job "Greetings" "Short greetings" "chat" 1)).

Example written_line_repeats_existing :
  (ds_status <$> db (snd repeat_run)) = Some Completed
  /\ (ds_content <$> db (snd repeat_run)) = Some (Some twin_line)
  /\ forallb (fun e => bool_decide
                 (hash Platform.ascii_toLowerCase Platform.codeunit_compare e
                  ∈ existingHashes (snd repeat_run)))
       (written_examples twin_parse (allExamples (snd repeat_run))) = true.
Proof.
  split; [vm_compute; reflexivity|]. split; [vm_compute; reflexivity|].
  vm_compute; reflexivity.
Qed.

End Runner.

(** * Fine-tune job lifecycle *)

Module FineTune.
Import Eff.

(** ** Records *)

Record job := Job {
  j_bot_id : string;
  j_training_file_id : string;
  j_openai_job_id : option string;
  j_status : string;
  j_fine_tuned_model_id : option string;
  j_error : option json;
  j_parent_job_id : option string;
  j_hyperparameters : json;
  j_file_size_bytes : option Z;
  j_total_examples : option Z;
  j_trained_tokens : option Z;
  j_created_at : Z;
  j_validation_started_at : option Z;
  j_validation_ended_at : option Z;
  j_training_started_at : option Z;
  j_training_ended_at : option Z;
  j_finished_at : option Z;
  j_total_duration_seconds : option Z;
  j_validation_duration_seconds : option Z;
  j_training_duration_seconds : option Z;
  j_training_cost_usd : option Q
}.

Record bot := Bot {
  b_name : string;
  b_model : option string;
  b_status : string;
  b_fine_tuned_model_id : option string;
  b_training_file_id : option string
}.

(** The store: the two tables, and the number of operations made so far. *)
Record world := World {
  jobs : gmap string job;
  bots : gmap string bot;
  ops : nat
}.

(** What a handler answers. *)
Inductive api_response :=
| SUCCESS (data : option job)
| ERROR (code : string).

(** The status order of the specification. *)
Definition rank (status : string) : option nat :=
  if decide (status = "pending") then Some 0%nat
  else if decide (status = "validating_files") then Some 1%nat
  else if decide (status = "running") then Some 2%nat
  else if decide (status = "succeeded" \/ status = "failed" \/ status = "cancelled")
  then Some 3%nat else None.

(** [a] may be followed by [b]: both are statuses of the machine and [b] is
    not earlier than [a]. *)
Definition advances (a b : string) : Prop :=
  match rank a, rank b with
  | Some m, Some n => (m <= n)%nat
  | _, _ => False
  end.

(** ** Values *)

(** The truth value of an optional string and of an optional number. *)
Definition truthy_str (o : option string) : option string :=
  match o with
  | Some (String c r) => Some (String c r)
  | _ => None
  end.

Definition truthy_num (o : option Z) : option Z :=
  match o with
  | Some 0 | None => None
  | Some n => Some n
  end.

(** [{ ...base, k: v }] on the members of an object. *)
Fixpoint obj_set (k : string) (v : json) (fs : list (string * json)) : list (string * json) :=
  match fs with
  | [] => [(k, v)]
  | (k', v') :: r => if decide (k = k') then (k, v) :: r else (k', v') :: obj_set k v r
  end.

Fixpoint indexed (i : nat) (l : list json) : list (string * json) :=
  match l with
  | [] => []
  | x :: r => (pretty i, x) :: indexed (S i) r
  end.

Fixpoint chars (s : string) : list json :=
  match s with
  | EmptyString => []
  | String c r => JStr (String c EmptyString) :: chars r
  end.

(** The own enumerable properties [{ ...j }] copies. *)
Definition spread (j : json) : list (string * json) :=
  match j with
  | JObj fs => fs
  | JArr l => indexed 0 l
  | JStr s => indexed 0 (chars s)
  | _ => []
  end.

(** [k] read as an array index: a canonical numeric string whose value is
    below [2^32 - 1]. *)
Fixpoint digits_value (s : string) (acc : Z) : option Z :=
  match s with
  | EmptyString => Some acc
  | String c r =>
      let b := JS.code c in
      if (48 <=? b) && (b <=? 57) then digits_value r (acc * 10 + (b - 48)) else None
  end.

Definition array_index (k : string) : option Z :=
  match digits_value k 0 with
  | Some n => if (n <? 2 ^ 32 - 1) && bool_decide (pretty n = k) then Some n else None
  | None => None
  end.

(** The order in which an object lists its own members: those whose key is
    an array index first, in ascending order of the index, then the others
    in the order in which they were created. *)
Definition own_keys_order (fs : list (string * json)) : list (string * json) :=
  JS.sort (fun a b => default 0 (array_index (fst a)) - default 0 (array_index (fst b)))
          (filter (fun kv => is_Some (array_index (fst kv))) fs)
  ++ filter (fun kv => array_index (fst kv) = None) fs.

(** [{ ...base, ...overrides }] *)
Definition assign (base overrides : list (string * json)) : list (string * json) :=
  own_keys_order (fold_left (fun acc kv => obj_set (fst kv) (snd kv) acc) overrides base).

Definition or_null (v : option json) : json :=
  Json.or_default v JNull.

(** [{ message: e.message || dflt_message, code: e.code || dflt_code,
       type: e.type || null, param: e.param || null, ...e }] for the
    submission route, and with the members in the order
    message, code, param, type for the status route. *)
Definition error_object (submission : bool) (dflt_message : string) (dflt_code : json)
    (e : json) : json :=
  let message := ("message"%string, Json.or_default (Json.field "message" e) (JStr dflt_message)) in
  let code := ("code"%string, Json.or_default (Json.field "code" e) dflt_code) in
  let type := ("type"%string, or_null (Json.field "type" e)) in
  let param := ("param"%string, or_null (Json.field "param" e)) in
  JObj (assign (if submission then [message; code; type; param]
                else [message; code; param; type]) (spread e)).

(** An error member that is a string is spread into its characters, which
    the object lists before the named members. *)
Example error_object_of_string :
  error_object true "failed" (JStr "400") (JStr "no")
  = JObj [("0", JStr "n"); ("1", JStr "o"); ("message", JStr "failed");
          ("code", JStr "400"); ("type", JNull); ("param", JNull)]%string.
Proof. vm_compute. reflexivity. Qed.

(** ** Store operations *)

Section Handlers.
(** [db_fault k]: the message of the error the store raises on the [k]-th
    operation of the request, if it raises one. *)
Variable db_fault : nat -> option string.
(** [process.env.OPENAI_API_KEY] *)
Variable api_key : option string.
(** The messages of the errors raised by the store when a record is missing
    or a value is rejected, by [response.json()] on a body that does not
    parse, and by reading a property of [null]. *)
Variable store_error : string.
Variable json_error : string.
Variable type_error : string.

Definition db_op : M world unit :=
  w ← get;
  put {| jobs := jobs w; bots := bots w; ops := S (ops w) |};;
  match db_fault (ops w) with
  | Some msg => throw msg
  | None => mret tt
  end.

Definition find_job (id : string) : M world (option job) :=
  db_op;; w ← get; mret (jobs w !! id).

Definition find_bot (id : string) : M world (option bot) :=
  db_op;; w ← get; mret (bots w !! id).

(** [prisma.fineTuneJob.update]: fails when the record does not exist. *)
Definition update_job (id : string) (f : job -> job) : M world job :=
  db_op;;
  w ← get;
  match jobs w !! id with
  | Some j =>
      put {| jobs := <[id := f j]> (jobs w); bots := bots w; ops := ops w |};;
      mret (f j)
  | None => throw store_error
  end.

Definition update_bot (id : string) (f : bot -> bot) : M world bot :=
  db_op;;
  w ← get;
  match bots w !! id with
  | Some b =>
      put {| jobs := jobs w; bots := <[id := f b]> (bots w); ops := ops w |};;
      mret (f b)
  | None => throw store_error
  end.

(** [prisma.fineTuneJob.create]: the store chooses the identifier [id]; the
    bot and, when given, the parent job must exist. *)
Definition create_job (id : string) (j : job) : M world job :=
  db_op;;
  w ← get;
  match jobs w !! id, bots w !! j_bot_id j with
  | None, Some _ =>
      match j_parent_job_id j with
      | Some p =>
          match jobs w !! p with
          | Some _ =>
              put {| jobs := <[id := j]> (jobs w); bots := bots w; ops := ops w |};; mret j
          | None => throw store_error
          end
      | None =>
          put {| jobs := <[id := j]> (jobs w); bots := bots w; ops := ops w |};; mret j
      end
  | _, _ => throw store_error
  end.

(** ** Record updates *)

Definition set_bot_status (status : string) (b : bot) : bot :=
  {| b_name := b_name b; b_model := b_model b; b_status := status;
     b_fine_tuned_model_id := b_fine_tuned_model_id b;
     b_training_file_id := b_training_file_id b |}.

Definition set_bot_training (training_file_id : string) (b : bot) : bot :=
  {| b_name := b_name b; b_model := b_model b; b_status := "training";
     b_fine_tuned_model_id := b_fine_tuned_model_id b;
     b_training_file_id := Some training_file_id |}.

Definition set_bot_active (model : string) (b : bot) : bot :=
  {| b_name := b_name b; b_model := Some model; b_status := "active";
     b_fine_tuned_model_id := Some model;
     b_training_file_id := b_training_file_id b |}.

Definition set_job_status_error (status : string) (error : option json) (j : job) : job :=
  {| j_bot_id := j_bot_id j; j_training_file_id := j_training_file_id j;
     j_openai_job_id := j_openai_job_id j; j_status := status;
     j_fine_tuned_model_id := j_fine_tuned_model_id j;
     j_error := match error with Some e => Some e | None => j_error j end;
     j_parent_job_id := j_parent_job_id j; j_hyperparameters := j_hyperparameters j;
     j_file_size_bytes := j_file_size_bytes j; j_total_examples := j_total_examples j;
     j_trained_tokens := j_trained_tokens j; j_created_at := j_created_at j;
     j_validation_started_at := j_validation_started_at j;
     j_validation_ended_at := j_validation_ended_at j;
     j_training_started_at := j_training_started_at j;
     j_training_ended_at := j_training_ended_at j;
     j_finished_at := j_finished_at j;
     j_total_duration_seconds := j_total_duration_seconds j;
     j_validation_duration_seconds := j_validation_duration_seconds j;
     j_training_duration_seconds := j_training_duration_seconds j;
     j_training_cost_usd := j_training_cost_usd j |}.

Definition set_job_submitted (openai_job_id status : string) (j : job) : job :=
  {| j_bot_id := j_bot_id j; j_training_file_id := j_training_file_id j;
     j_openai_job_id := Some openai_job_id; j_status := status;
     j_fine_tuned_model_id := j_fine_tuned_model_id j;
     j_error := j_error j;
     j_parent_job_id := j_parent_job_id j; j_hyperparameters := j_hyperparameters j;
     j_file_size_bytes := j_file_size_bytes j; j_total_examples := j_total_examples j;
     j_trained_tokens := j_trained_tokens j; j_created_at := j_created_at j;
     j_validation_started_at := j_validation_started_at j;
     j_validation_ended_at := j_validation_ended_at j;
     j_training_started_at := j_training_started_at j;
     j_training_ended_at := j_training_ended_at j;
     j_finished_at := j_finished_at j;
     j_total_duration_seconds := j_total_duration_seconds j;
     j_validation_duration_seconds := j_validation_duration_seconds j;
     j_training_duration_seconds := j_training_duration_seconds j;
     j_training_cost_usd := j_training_cost_usd j |}.

Definition set_job_model (model : string) (j : job) : job :=
  {| j_bot_id := j_bot_id j; j_training_file_id := j_training_file_id j;
     j_openai_job_id := j_openai_job_id j; j_status := j_status j;
     j_fine_tuned_model_id := Some model;
     j_error := j_error j;
     j_parent_job_id := j_parent_job_id j; j_hyperparameters := j_hyperparameters j;
     j_file_size_bytes := j_file_size_bytes j; j_total_examples := j_total_examples j;
     j_trained_tokens := j_trained_tokens j; j_created_at := j_created_at j;
     j_validation_started_at := j_validation_started_at j;
     j_validation_ended_at := j_validation_ended_at j;
     j_training_started_at := j_training_started_at j;
     j_training_ended_at := j_training_ended_at j;
     j_finished_at := j_finished_at j;
     j_total_duration_seconds := j_total_duration_seconds j;
     j_validation_duration_seconds := j_validation_duration_seconds j;
     j_training_duration_seconds := j_training_duration_seconds j;
     j_training_cost_usd := j_training_cost_usd j |}.

(** ** Submission: [POST /api/fine-tune/jobs] *)

Record submit_request := SubmitRequest {
  r_bot_id : option string;
  r_training_file_id : option string;
  r_validation_file_id : option string;
  r_model : option string;
  r_hyperparameters : option json;
  r_training_method : option string;
  r_model_type : option string;
  r_model_types : option (list string);
  r_suffix : option string;
  r_parent_job_id : option string
}.

(** What [fetch] gives: an error (network failure), or a response. *)
Inductive fetch_outcome :=
| FetchError (msg : string)
| Fetched (response : http_response).

Definition str_or_null (o : option string) : json :=
  match truthy_str o with Some s => JStr s | None => JNull end.

Definition defaultHyperparameters : list (string * json) :=
  [("n_epochs", JStr "auto"); ("batch_size", JStr "auto");
   ("learning_rate_multiplier", JStr "auto")]%string.

Definition validTrainingMethods : list string := ["supervised"; "reinforcement"]%string.
Definition validModelTypes : list string := ["chat"; "calling"; "voice"]%string.

Definition includes (l : list string) (x : string) : bool := bool_decide (x ∈ l).

(** [message.includes(needle)] *)
Fixpoint str_includes (needle s : string) : bool :=
  String.prefix needle s
  || match s with
     | EmptyString => false
     | String _ r => str_includes needle r
     end.

Definition initial_job (bot_id training_file_id : string) (parent : option string)
    (hyperparameters : json) (file_size_bytes total_examples : option Z) (now : Z) : job :=
  {| j_bot_id := bot_id; j_training_file_id := training_file_id;
     j_openai_job_id := None; j_status := "pending";
     j_fine_tuned_model_id := None; j_error := None;
     j_parent_job_id := parent; j_hyperparameters := hyperparameters;
     j_file_size_bytes := file_size_bytes; j_total_examples := total_examples;
     j_trained_tokens := None; j_created_at := now;
     j_validation_started_at := None; j_validation_ended_at := None;
     j_training_started_at := None; j_training_ended_at := None;
     j_finished_at := None; j_total_duration_seconds := None;
     j_validation_duration_seconds := None; j_training_duration_seconds := None;
     j_training_cost_usd := None |}.

(** The [try] block around the call of the provider.  [reply] is what
    [fetch] gives for the submission. *)
Definition submit (job_id bot_id : string) (reply : fetch_outcome) : M world api_response :=
  match reply with
  | FetchError msg => throw msg
  | Fetched response =>
      if negb (status_code response =? 200) then
        let errorResponse :=
          match body response with
          | Some j => j
          | None =>
              JObj [("error"%string,
                     JObj [("message"%string,
                            JStr ("HTTP " +:+ pretty (status_code response) +:+ ": "
                                  +:+ status_text response));
                           ("code"%string, JStr (pretty (status_code response)))])]
          end in
        match errorResponse with
        | JNull => throw type_error
        | _ =>
            let errorDetails := Json.or_default (Json.field "error" errorResponse) (JObj []) in
            update_job job_id
              (set_job_status_error "failed"
                 (Some (error_object true "Failed to create fine-tuning job"
                          (JStr (pretty (status_code response))) errorDetails)));;
            update_bot bot_id (set_bot_status "inactive");;
            mret (ERROR "FINE_TUNE_JOB_CREATION_FAILED")
        end
      else
        match body response with
        | None => throw json_error
        | Some openaiResponse =>
            if negb (Json.truthy openaiResponse)
               || negb (Json.truthy (or_null (Json.field "id" openaiResponse)))
            then
              update_job job_id
                (set_job_status_error "failed"
                   (Some (JObj [("message"%string, JStr "Invalid response from OpenAI API");
                                ("code"%string, JStr "INVALID_RESPONSE")])));;
              mret (ERROR "FINE_TUNE_JOB_CREATION_FAILED")
            else
              match Json.field "id" openaiResponse,
                    Json.or_default (Json.field "status" openaiResponse) (JStr "pending") with
              | Some (JStr openai_job_id), JStr status =>
                  updatedJob ← update_job job_id (set_job_submitted openai_job_id status);
                  mret (SUCCESS (Some updatedJob))
              | _, _ => throw store_error
              end
        end
  end.

(** The handler.  [new_id] is the identifier the store gives the new job,
    [now] the time of creation, [file_bytes] the size the provider reports
    for the training file when it does.  The error object of the [catch]
    block is given without its [stack] member, a text the engine
    supplies. *)
Definition POST (req : submit_request) (new_id : string) (now : Z) (file_bytes : option Z)
    (reply : fetch_outcome) : M world api_response :=
  catch
    (match truthy_str (r_bot_id req), truthy_str (r_training_file_id req) with
     | Some bot_id, Some training_file_id =>
         let trainingMethod := default "supervised"%string (truthy_str (r_training_method req)) in
         if negb (includes validTrainingMethods trainingMethod)
         then mret (ERROR "INVALID_TRAINING_METHOD")
         else
           let modelType := default "chat"%string (truthy_str (r_model_type req)) in
           if negb (includes validModelTypes modelType)
           then mret (ERROR "INVALID_MODEL_TYPE")
           else
             let validatedModelTypes :=
               match r_model_types req with
               | Some model_types =>
                   match filter (fun t => includes validModelTypes t = true) model_types with
                   | [] => [modelType]
                   | l => l
                   end
               | None => [modelType]
               end in
             bot ← find_bot bot_id;
             match bot with
             | None => mret (ERROR "BOT_NOT_FOUND")
             | Some bot =>
                 match truthy_str api_key with
                 | None => mret (ERROR "OPENAI_API_KEY_NOT_CONFIGURED")
                 | Some _ =>
                     let baseModel :=
                       match truthy_str (r_model req), truthy_str (b_model bot) with
                       | Some m, _ => m
                       | None, Some m => m
                       | None, None => "gpt-4o-mini-2024-07-18"%string
                       end in
                     let fileSizeBytes := truthy_num file_bytes in
                     let totalExamples :=
                       (fun b => Num.floor (Num.fdiv (Num.of_Z b) (Num.of_Z 500))) <$> fileSizeBytes in
                     let finalHyperparameters :=
                       assign defaultHyperparameters
                              (spread (default (JObj []) (r_hyperparameters req))) in
                     let parent := truthy_str (r_parent_job_id req) in
                     let jobMetadata :=
                       JObj [("training_method", JStr trainingMethod);
                             ("model_type", JStr modelType);
                             ("model_types", JArr (JStr <$> validatedModelTypes));
                             ("base_model", JStr baseModel);
                             ("suffix", str_or_null (r_suffix req));
                             ("validation_file_id", str_or_null (r_validation_file_id req));
                             ("parent_job_id", str_or_null (r_parent_job_id req));
                             ("is_enhancement", JBool (bool_decide (is_Some parent)))]%string in
                     let createData :=
                       initial_job bot_id training_file_id parent
                         (JObj (obj_set "_metadata" jobMetadata finalHyperparameters))
                         fileSizeBytes totalExamples now in
                     created ← catch (j ← create_job new_id createData; mret (Some j))
                                 (fun dbErrorMessage =>
                                    if str_includes "parent_job_id" dbErrorMessage
                                       || str_includes "parentJob" dbErrorMessage
                                       || str_includes "Unknown argument" dbErrorMessage
                                    then mret None else throw dbErrorMessage);
                     match created with
                     | None => mret (ERROR "MIGRATION_REQUIRED")
                     | Some fineTuneJob =>
                         match parent with
                         | Some parent_job_id =>
                             catch (find_job parent_job_id;; mret tt) (fun _ => mret tt)
                         | None => mret tt
                         end;;
                         update_bot bot_id (set_bot_training training_file_id);;
                         catch (submit new_id bot_id reply)
                           (fun errorMessage =>
                              update_job new_id
                                (set_job_status_error "failed"
                                   (Some (JObj [("message", JStr errorMessage);
                                                ("code", JStr "API_ERROR");
                                                ("type", JStr "internal_error")]%string)));;
                              update_bot bot_id (set_bot_status "inactive");;
                              throw errorMessage)
                     end
                 end
             end
     | _, _ => mret (ERROR "MISSING_REQUIRED_FIELDS")
     end)
    (fun _ => mret (ERROR "INTERNAL_ERROR")).

(** ** Reconciliation: [GET /api/fine-tune/jobs/[job_id]] *)

(** The job the provider reports, with the members the handler declares;
    [None] is an absent or null member.  Times are in seconds. *)
Record openai_job := OpenAIJob {
  oj_status : option string;
  oj_fine_tuned_model : option string;
  oj_fine_tuned_model_id : option string;
  oj_trained_tokens : option Z;
  oj_finished_at : option Z;
  oj_created_at : option Z;
  oj_error : option json;
  oj_result_files : option json
}.

(** What [fetch] gives for the status query: an error, or a response with
    a status code and a body; the body is [None] when it does not parse or
    is not an object. *)
Inductive status_reply :=
| StatusError (msg : string)
| StatusReply (code : Z) (body : option openai_job).

(** [updateData]: [None] in the last eight members is an absent key. *)
Record update_data := UpdateData {
  u_status : string;
  u_fine_tuned_model_id : option string;
  u_trained_tokens : option Z;
  u_finished_at : option Z;
  u_error : option json;
  u_hyperparameters : json;
  u_validation_started_at : option Z;
  u_validation_ended_at : option Z;
  u_training_started_at : option Z;
  u_training_ended_at : option Z;
  u_total_duration_seconds : option Z;
  u_validation_duration_seconds : option Z;
  u_training_duration_seconds : option Z;
  u_training_cost_usd : option Q
}.

Definition keep {A} (new old : option A) : option A :=
  match new with Some v => Some v | None => old end.

Definition apply_update (u : update_data) (j : job) : job :=
  {| j_bot_id := j_bot_id j; j_training_file_id := j_training_file_id j;
     j_openai_job_id := j_openai_job_id j;
     j_status := u_status u;
     j_fine_tuned_model_id := u_fine_tuned_model_id u;
     j_error := keep (u_error u) (j_error j);
     j_parent_job_id := j_parent_job_id j;
     j_hyperparameters := u_hyperparameters u;
     j_file_size_bytes := j_file_size_bytes j; j_total_examples := j_total_examples j;
     j_trained_tokens := u_trained_tokens u;
     j_created_at := j_created_at j;
     j_validation_started_at := keep (u_validation_started_at u) (j_validation_started_at j);
     j_validation_ended_at := keep (u_validation_ended_at u) (j_validation_ended_at j);
     j_training_started_at := keep (u_training_started_at u) (j_training_started_at j);
     j_training_ended_at := keep (u_training_ended_at u) (j_training_ended_at j);
     j_finished_at := u_finished_at u;
     j_total_duration_seconds := keep (u_total_duration_seconds u) (j_total_duration_seconds j);
     j_validation_duration_seconds :=
       keep (u_validation_duration_seconds u) (j_validation_duration_seconds j);
     j_training_duration_seconds :=
       keep (u_training_duration_seconds u) (j_training_duration_seconds j);
     j_training_cost_usd := keep (u_training_cost_usd u) (j_training_cost_usd j) |}.

Definition is_status (o : option string) (s : string) : bool := bool_decide (o = Some s).

(** [Math.floor((later - earlier) / 1000)], on times in milliseconds. *)
Definition seconds_between (later earlier : Z) : Z :=
  Num.floor (Num.fdiv (Num.of_Z (later - earlier)) (Num.of_Z 1000)).

(** The fine-tuned model the provider reports. *)
Definition reported_model (oj : openai_job) : option string :=
  match truthy_str (oj_fine_tuned_model oj), truthy_str (oj_fine_tuned_model_id oj) with
  | Some m, _ => Some m
  | None, o => o
  end.

(** The status written: the reported one, or the stored one when none is
    reported. *)
Definition reported_status (oj : openai_job) (j : job) : string :=
  default (j_status j) (truthy_str (oj_status oj)).

Definition build_update (j : job) (oj : openai_job) (now : Z) : update_data :=
  let trainingMetrics :=
    match oj_result_files oj with
    | Some (JArr (_ :: _)) => JObj [("checkpoints"%string, JArr [])]
    | _ => JNull
    end in
  let validation_started_1 :=
    if is_status (oj_status oj) "validating_files"
       && negb (bool_decide (j_status j = "validating_files"%string))
    then Some now else None in
  let running_now :=
    is_status (oj_status oj) "running" && negb (bool_decide (j_status j = "running"%string)) in
  let training_started := if running_now then Some now else None in
  let validation_ended :=
    if running_now && bool_decide (j_status j = "validating_files"%string)
    then Some now else None in
  let validation_started :=
    match truthy_num (oj_created_at oj), j_validation_started_at j with
    | Some created, None =>
        if is_status (oj_status oj) "validating_files" || is_status (oj_status oj) "running"
           || is_status (oj_status oj) "succeeded"
        then Some (created * 1000) else validation_started_1
    | _, _ => validation_started_1
    end in
  let finished := (fun t => t * 1000) <$> truthy_num (oj_finished_at oj) in
  let training_start :=
    match training_started with
    | Some t => Some t
    | None => j_training_started_at j
    end in
  {| u_status := reported_status oj j;
     u_fine_tuned_model_id := reported_model oj;
     u_trained_tokens := truthy_num (oj_trained_tokens oj);
     u_finished_at := finished;
     u_error :=
       match oj_error oj with
       | Some e => if Json.truthy e then Some (error_object false "Unknown error" JNull e)
                   else None
       | None => None
       end;
     u_hyperparameters :=
       JObj (obj_set "_result_files" (Json.or_default (oj_result_files oj) (JArr []))
               (obj_set "_training_metrics" trainingMetrics (spread (j_hyperparameters j))));
     u_validation_started_at := validation_started;
     u_validation_ended_at := validation_ended;
     u_training_started_at := training_started;
     u_training_ended_at :=
       match finished, training_start with
       | Some f, Some _ => Some f
       | _, _ => None
       end;
     u_total_duration_seconds := (fun f => seconds_between f (j_created_at j)) <$> finished;
     u_validation_duration_seconds :=
       match finished, validation_ended with
       | Some _, Some e =>
           match validation_started, j_validation_started_at j with
           | Some st, _ => Some (seconds_between e st)
           | None, Some st => Some (seconds_between e st)
           | None, None => None
           end
       | _, _ => None
       end;
     u_training_duration_seconds :=
       match finished, training_start with
       | Some f, Some st => Some (seconds_between f st)
       | _, _ => None
       end;
     u_training_cost_usd :=
       match finished, truthy_num (oj_trained_tokens oj) with
       | Some _, Some tokens =>
           Some (Num.fmul (Num.fdiv (Num.of_Z tokens) (Num.of_Z 1000)) (Num.b64 (8 # 1000)))
       | _, _ => None
       end |}.

(** The update of the bot that follows the update of the job, with the
    propagation to the parent job and the store query that looks for a test
    set; errors of the last two are logged and ignored. *)
Definition derive_bot_unfinished (j : job) (oj : openai_job) : M world unit :=
  if is_status (oj_status oj) "failed" then
    update_bot (j_bot_id j) (set_bot_status "inactive");; mret tt
  else if is_status (oj_status oj) "cancelled" then
    update_bot (j_bot_id j) (set_bot_status "inactive");; mret tt
  else if is_status (oj_status oj) "running" || is_status (oj_status oj) "validating_files"
          || is_status (oj_status oj) "pending" then
    update_bot (j_bot_id j) (set_bot_status "training");; mret tt
  else mret tt.

Definition derive_bot (j : job) (oj : openai_job) : M world unit :=
  match is_status (oj_status oj) "succeeded", reported_model oj with
  | true, Some fineTunedModelId =>
      update_bot (j_bot_id j) (set_bot_active fineTunedModelId);;
      match truthy_str (j_parent_job_id j) with
      | Some parent_job_id =>
          catch (update_job parent_job_id (set_job_model fineTunedModelId);;
                 find_job parent_job_id;;
                 mret tt)
                (fun _ => mret tt)
      | None => mret tt
      end;;
      catch db_op (fun _ => mret tt)
  | _, _ => derive_bot_unfinished j oj
  end.

(** The [try] block around the status query. *)
Definition reconcile (job_id : string) (j : job) (now : Z) (reply : status_reply)
    : M world api_response :=
  match reply with
  | StatusError msg => throw msg
  | StatusReply code body =>
      if code =? 200 then
        match body with
        | None => mret (SUCCESS (Some j))
        | Some oj =>
            update_job job_id (apply_update (build_update j oj now));;
            derive_bot j oj;;
            finalJob ← find_job job_id;
            mret (SUCCESS finalJob)
        end
      else mret (SUCCESS (Some j))
  end.

Definition GET (job_id : string) (now : Z) (reply : status_reply) : M world api_response :=
  catch
    (job ← find_job job_id;
     match job with
     | None => mret (ERROR "FINE_TUNE_JOB_NOT_FOUND")
     | Some j =>
         match truthy_str (j_openai_job_id j), truthy_str api_key with
         | Some _, Some _ =>
             catch (reconcile job_id j now reply) (fun _ => mret (SUCCESS (Some j)))
         | _, _ => mret (SUCCESS (Some j))
         end
     end)
    (fun _ => mret (ERROR "INTERNAL_ERROR")).

(** A sequence of status queries, each with its time and the provider's
    answer. *)
Fixpoint polls (job_id : string) (queries : list (Z * status_reply)) : M world unit :=
  match queries with
  | [] => mret tt
  | (now, reply) :: rest => GET job_id now reply;; polls job_id rest
  end.

(** ** What the store operations compute *)

Definition bump (w : world) : world :=
  {| jobs := jobs w; bots := bots w; ops := S (ops w) |}.

Lemma run_db_op w :
  run db_op w = match db_fault (ops w) with
                | Some msg => (Throw msg, bump w)
                | None => (Ok tt, bump w)
                end.
Proof. unfold db_op. cbn. by destruct (db_fault (ops w)). Qed.

Lemma run_find_job id w :
  run (find_job id) w = match db_fault (ops w) with
                        | Some msg => (Throw msg, bump w)
                        | None => (Ok (jobs w !! id), bump w)
                        end.
Proof. unfold find_job, db_op. cbn. by destruct (db_fault (ops w)). Qed.

Lemma run_update_job id f w :
  run (update_job id f) w =
  match db_fault (ops w) with
  | Some msg => (Throw msg, bump w)
  | None =>
      match jobs w !! id with
      | Some j => (Ok (f j), {| jobs := <[id := f j]> (jobs w); bots := bots w;
                                ops := S (ops w) |})
      | None => (Throw store_error, bump w)
      end
  end.
Proof.
  unfold update_job, db_op. cbn. destruct (db_fault (ops w)); cbn; [done|].
  by destruct (jobs w !! id).
Qed.

Lemma run_update_bot id f w :
  run (update_bot id f) w =
  match db_fault (ops w) with
  | Some msg => (Throw msg, bump w)
  | None =>
      match bots w !! id with
      | Some b => (Ok (f b), {| jobs := jobs w; bots := <[id := f b]> (bots w);
                                ops := S (ops w) |})
      | None => (Throw store_error, bump w)
      end
  end.
Proof.
  unfold update_bot, db_op. cbn. destruct (db_fault (ops w)); cbn; [done|].
  by destruct (bots w !! id).
Qed.

(** ** The stored status follows the provider *)

Section Status.
Variable job_id : string.
Variable P : string -> Prop.

(** The job is stored and its status satisfies [P]. *)
Definition status_is (w : world) : Prop :=
  exists j, jobs w !! job_id = Some j /\ P (j_status j).

Lemma status_is_bump w : status_is w -> status_is (bump w).
Proof. done. Qed.

Lemma db_op_status w :
  status_is w -> wp db_op (fun _ w' => status_is w') (fun _ w' => status_is w') w.
Proof. intros H. eapply wp_run; [apply run_db_op|]. by destruct (db_fault (ops w)). Qed.

Lemma find_job_status id w :
  status_is w ->
  wp (find_job id) (fun r w' => status_is w' /\ r = jobs w' !! id)
     (fun _ w' => status_is w') w.
Proof. intros H. eapply wp_run; [apply run_find_job|]. by destruct (db_fault (ops w)). Qed.

Lemma update_job_status id f w :
  (forall j, id = job_id -> jobs w !! job_id = Some j -> P (j_status (f j))) ->
  status_is w ->
  wp (update_job id f) (fun _ w' => status_is w') (fun _ w' => status_is w') w.
Proof.
  intros Hf H. eapply wp_run; [apply run_update_job|].
  destruct (db_fault (ops w)); [done|].
  destruct (jobs w !! id) as [j|] eqn:Hj; [|done].
  destruct (decide (id = job_id)) as [->|Hne].
  - exists (f j). cbn. rewrite lookup_insert_eq. split; [done|]. by apply Hf.
  - destruct H as (j' & Hj' & HP). exists j'. cbn. by rewrite lookup_insert_ne.
Qed.

Lemma update_bot_status id f w :
  status_is w ->
  wp (update_bot id f) (fun _ w' => status_is w') (fun _ w' => status_is w') w.
Proof.
  intros H. eapply wp_run; [apply run_update_bot|].
  destruct (db_fault (ops w)); [done|]. by destruct (bots w !! id).
Qed.

Lemma derive_bot_unfinished_status j oj w :
  status_is w ->
  wp (derive_bot_unfinished j oj) (fun _ w' => status_is w') (fun _ w' => status_is w') w.
Proof.
  intros H. unfold derive_bot_unfinished.
  assert (forall s,
            wp (update_bot (j_bot_id j) (set_bot_status s) ≫= λ _, mret ())
               (fun _ w' => status_is w') (fun _ w' => status_is w') w) as Hset.
  { intros s. apply wp_bind. eapply wp_mono; [apply update_bot_status; exact H| |].
    - intros ? w' Hw'. apply wp_ret. exact Hw'.
    - intros ? w' Hw'. exact Hw'. }
  destruct (is_status (oj_status oj) "failed"); [apply Hset|].
  destruct (is_status (oj_status oj) "cancelled"); [apply Hset|].
  destruct (_ || _); [apply Hset|]. apply wp_ret. exact H.
Qed.

Lemma ignore_db_op_status w :
  status_is w ->
  wp (catch db_op (λ _, mret ())) (fun _ w' => status_is w') (fun _ w' => status_is w') w.
Proof.
  intros H. apply wp_catch. eapply wp_mono; [apply db_op_status; exact H| |].
  - intros ? w' Hw'. exact Hw'.
  - intros e w' Hw'. apply wp_ret. exact Hw'.
Qed.

Lemma derive_bot_status j oj w :
  status_is w ->
  wp (derive_bot j oj) (fun _ w' => status_is w') (fun _ w' => status_is w') w.
Proof.
  intros H. unfold derive_bot.
  destruct (is_status (oj_status oj) "succeeded");
    [|apply derive_bot_unfinished_status; exact H].
  destruct (reported_model oj) as [m|]; [|apply derive_bot_unfinished_status; exact H].
  apply wp_bind. eapply wp_mono; [apply update_bot_status; exact H| |intros ? ? Hw; exact Hw].
  intros ? w1 H1. apply wp_bind.
  destruct (truthy_str (j_parent_job_id j)) as [parent|].
  - apply wp_catch, wp_bind.
    eapply wp_mono; [apply update_job_status; [|exact H1]| |].
    + intros j' _ Hj'. destruct H1 as (j1 & Hj1 & HP). by simplify_eq.
    + intros ? w2 H2. apply wp_bind.
      eapply wp_mono; [apply find_job_status; exact H2| |].
      * intros r w3 [H3 _]. apply wp_ret. apply ignore_db_op_status. exact H3.
      * intros e w3 H3. apply wp_ret. apply ignore_db_op_status. exact H3.
    + intros e w2 H2. apply wp_ret. apply ignore_db_op_status. exact H2.
  - apply wp_ret. apply ignore_db_op_status. exact H1.
Qed.

End Status.

(** The status a query reports, if it reports one. *)
Definition reported (reply : status_reply) : option string :=
  match reply with
  | StatusReply 200 (Some oj) => truthy_str (oj_status oj)
  | _ => None
  end.

Definition reported_all (queries : list (Z * status_reply)) : list string :=
  omap (fun q => reported (snd q)) queries.

(** After a query the stored status is the one stored before or the one
    the provider reported. *)
Lemma GET_status job_id now reply w j :
  jobs w !! job_id = Some j ->
  wp (GET job_id now reply)
     (fun _ w' => status_is job_id
                    (fun s => s = j_status j \/ reported reply = Some s) w')
     (fun _ _ => False) w.
Proof.
  intros Hj. set (P := fun s => s = j_status j \/ reported reply = Some s).
  assert (status_is job_id P (bump w)) as H by (exists j; split; [done|by left]).
  unfold GET. apply wp_catch.
  destruct (db_fault (ops w)) as [msg|] eqn:Hfault.
  { eapply wp_throw_bind; [rewrite run_find_job; by rewrite Hfault|].
    apply wp_ret. exact H. }
  eapply wp_ok_bind; [rewrite run_find_job; by rewrite Hfault|]. rewrite Hj.
  destruct (truthy_str (j_openai_job_id j)); [|apply wp_ret; exact H].
  destruct (truthy_str api_key); [|apply wp_ret; exact H].
  apply wp_catch. unfold reconcile.
  destruct reply as [msg|code [oj|]].
  - apply wp_throw, wp_ret. exact H.
  - destruct (Z.eqb_spec code 200) as [->|Hne]; [|apply wp_ret; exact H].
    apply wp_bind.
    eapply wp_mono; [apply update_job_status; [|exact H]| |].
    + intros j' _ Hj'. cbn in Hj'. assert (j' = j) as -> by congruence.
      cbn. unfold reported_status, P, reported.
      destruct (truthy_str (oj_status oj)); cbn; eauto.
    + intros ? w2 H2. apply wp_bind.
      eapply wp_mono; [apply derive_bot_status; exact H2| |].
      * intros ? w3 H3. apply wp_bind.
        eapply wp_mono; [apply find_job_status; exact H3| |].
        -- intros r w4 [H4 _]. apply wp_ret. exact H4.
        -- intros e w4 H4. apply wp_ret. exact H4.
      * intros e w3 H3. apply wp_ret. exact H3.
    + intros e w2 H2. apply wp_ret. exact H2.
  - destruct (code =? 200); apply wp_ret; exact H.
Qed.

(** [a] is [b] or may be followed by [b]. *)
Definition no_regress (a b : string) : Prop := a = b \/ advances a b.

(** The statuses of [l], taken in order from [s], never go back. *)
Fixpoint chain (s : string) (l : list string) : Prop :=
  match l with
  | [] => True
  | t :: r => advances s t /\ chain t r
  end.

Lemma advances_trans a b c : advances a b -> advances b c -> advances a c.
Proof.
  unfold advances. destruct (rank a), (rank b), (rank c); try done. lia.
Qed.

Lemma chain_weaken s t l : advances s t -> chain t l -> chain s l.
Proof.
  destruct l as [|u r]; [done|]. intros Hst [Htu Hr]. split; [|done].
  by eapply advances_trans.
Qed.

Lemma no_regress_trans a b c : advances a b -> no_regress b c -> no_regress a c.
Proof.
  intros Hab [<-|Hbc]; [by right|]. right. by eapply advances_trans.
Qed.

Lemma run_polls_cons job_id now reply rest w :
  run (polls job_id ((now, reply) :: rest)) w =
  match run (GET job_id now reply) w with
  | (Ok _, w1) => run (polls job_id rest) w1
  | (Throw e, w1) => (Throw e, w1)
  end.
Proof. reflexivity. Qed.

(** C4, as amended: every status query answers, and leaves the stored
    status either as it was or equal to the status the provider reported in
    that query, whatever that status is.  Along a sequence of queries the
    stored status is therefore the initial one or one of the reported ones,
    and it never regresses in the order pending, validating_files, running,
    {succeeded, failed, cancelled} provided the statuses the provider
    reports never regress. *)
Theorem polls_follow_provider job_id queries w j :
  jobs w !! job_id = Some j ->
  exists w' j',
    run (polls job_id queries) w = (Ok tt, w')
    /\ jobs w' !! job_id = Some j'
    /\ (j_status j' = j_status j \/ j_status j' ∈ reported_all queries)
    /\ (chain (j_status j) (reported_all queries) -> no_regress (j_status j) (j_status j')).
Proof.
  revert w j. induction queries as [|[now reply] rest IH]; intros w j Hj.
  - exists w, j. cbn. repeat split; try done; by left.
  - pose proof (GET_status job_id now reply w j Hj) as Hget. unfold wp in Hget.
    rewrite run_polls_cons.
    destruct (run (GET job_id now reply) w) as [[r|e] w1] eqn:Hrun; [|done].
    destruct Hget as (j1 & Hj1 & Hst).
    destruct (IH w1 j1 Hj1) as (w' & j' & Hpolls & Hj' & Hin & Hchain).
    exists w', j'. split; [done|].
    split; [done|].
    unfold reported_all in *. cbn [omap list_omap snd].
    destruct Hst as [Hsame|Hrep].
    + rewrite Hsame in Hin, Hchain. split.
      * destruct Hin as [?|?]; [by left|right].
        destruct (reported reply); [apply elem_of_cons; by right|done].
      * destruct (reported reply) as [t|]; [|done].
        intros [Hst Hc]. apply Hchain. by eapply chain_weaken.
    + rewrite Hrep. split.
      * right. destruct Hin as [->|?]; [by left|by right].
      * intros [Hadv Hc]. eapply no_regress_trans; [done|]. by apply Hchain.
Qed.

(** ** Propagation to the parent job *)



End Handlers.

(** ** Sample submissions *)

Definition no_fault : nat -> option string := fun _ => None.

Definition helper_bot : bot :=
  {| b_name := "Helper"; b_model := None; b_status := "inactive";
     b_fine_tuned_model_id := None; b_training_file_id := None |}.

Definition one_bot : world :=
  {| jobs := ∅; bots := {["bot-1"%string := helper_bot]}; ops := 0 |}.

Definition plain_request : submit_request :=
  {| r_bot_id := Some "bot-1"%string; r_training_file_id := Some "file-1"%string;
     r_validation_file_id := None; r_model := None; r_hyperparameters := None;
     r_training_method := None; r_model_type := None; r_model_types := None;
     r_suffix := None; r_parent_job_id := None |}.

Definition submit_with (reply : fetch_outcome) : outcome api_response * world :=
  run (POST no_fault (Some "sk-test"%string) "store error" "json error" "type error"
         plain_request "job-1" 1700000000000 None reply) one_bot.

(** The provider answers 200 with an object that has no [id]. *)
Definition answer_without_id : fetch_outcome :=
  Fetched {| status_code := 200; status_text := "OK";
             body := Some (JObj [("object"%string, JStr "fine_tuning.job")]) |}.

(** The provider answers 400 with an error object. *)
Definition answer_rejected : fetch_outcome :=
  Fetched {| status_code := 400; status_text := "Bad Request";
             body := Some (JObj [("error"%string,
                                  JObj [("message"%string, JStr "invalid training_file");
                                        ("type"%string, JStr "invalid_request_error")])]) |}.

(** The sibling path: on a non-success status the job is failed with the
    provider's message, the bot is inactive, and the error is returned. *)
Example submission_rejected :
  exists w' j b,
    submit_with answer_rejected = (Ok (ERROR "FINE_TUNE_JOB_CREATION_FAILED"), w')
    /\ jobs w' !! "job-1"%string = Some j
    /\ j_status j = "failed"%string
    /\ (Json.field "message" <$> j_error j) = Some (Some (JStr "invalid training_file"))
    /\ (Json.field "code" <$> j_error j) = Some (Some (JStr "400"))
    /\ bots w' !! "bot-1"%string = Some b
    /\ b_status b = "inactive"%string.
Proof.
  exists (snd (submit_with answer_rejected)),
         (default (initial_job EmptyString EmptyString None JNull None None 0)
                  (jobs (snd (submit_with answer_rejected)) !! "job-1"%string)),
         (default helper_bot (bots (snd (submit_with answer_rejected)) !! "bot-1"%string)).
  repeat split; vm_compute; reflexivity.
Qed.

(** C5, at the failing input: the provider answers with a success status
    and a payload without [id].  The job is failed with a structured error
    and the error is returned to the caller, but the bot is left in status
    [training]. *)
Theorem submission_without_id_leaves_bot_training :
  exists w' j b,
    submit_with answer_without_id = (Ok (ERROR "FINE_TUNE_JOB_CREATION_FAILED"), w')
    /\ jobs w' !! "job-1"%string = Some j
    /\ j_status j = "failed"%string
    /\ (Json.field "message" <$> j_error j)
        = Some (Some (JStr "Invalid response from OpenAI API"))
    /\ bots w' !! "bot-1"%string = Some b
    /\ b_status b = "training"%string
    /\ b_status b <> "inactive"%string.
Proof.
  exists (snd (submit_with answer_without_id)),
         (default (initial_job EmptyString EmptyString None JNull None None 0)
                  (jobs (snd (submit_with answer_without_id)) !! "job-1"%string)),
         (default helper_bot (bots (snd (submit_with answer_without_id)) !! "bot-1"%string)).
  repeat split; try (vm_compute; reflexivity). vm_compute. discriminate.
Qed.

(** ** Sample status queries *)

Definition status_query (reply : status_reply) (w : world) : outcome api_response * world :=
  run (GET no_fault (Some "sk-test"%string) "store error" "job-1" 1700000600000 reply) w.

Definition report (status : string) (model : option string) : status_reply :=
  StatusReply 200
    (Some {| oj_status := Some status; oj_fine_tuned_model := model;
             oj_fine_tuned_model_id := None; oj_trained_tokens := None;
             oj_finished_at := None; oj_created_at := None; oj_error := None;
             oj_result_files := None |}).

Definition stored_job (status : string) (model parent : option string) : job :=
  {| j_bot_id := "bot-1"; j_training_file_id := "file-1";
     j_openai_job_id := Some "ftjob-1"%string; j_status := status;
     j_fine_tuned_model_id := model; j_error := None;
     j_parent_job_id := parent; j_hyperparameters := JObj [];
     j_file_size_bytes := None; j_total_examples := None;
     j_trained_tokens := None; j_created_at := 1700000000000;
     j_validation_started_at := None; j_validation_ended_at := None;
     j_training_started_at := None; j_training_ended_at := None;
     j_finished_at := None; j_total_duration_seconds := None;
     j_validation_duration_seconds := None; j_training_duration_seconds := None;
     j_training_cost_usd := None |}.

Definition one_job (status : string) (model : option string) : world :=
  {| jobs := {["job-1"%string := stored_job status model None]};
     bots := {["bot-1"%string := helper_bot]}; ops := 0 |}.

(** C4, counterexample: the job is stored as succeeded and the provider
    reports running; the stored status becomes running, which is earlier
    in the order. *)
Lemma status_regresses :
  exists r w' j',
    jobs (one_job "succeeded" (Some "ft:model-1"%string)) !! "job-1"%string
      = Some (stored_job "succeeded" (Some "ft:model-1"%string) None)
    /\ status_query (report "running" None) (one_job "succeeded" (Some "ft:model-1"%string))
        = (Ok r, w')
    /\ jobs w' !! "job-1"%string = Some j'
    /\ j_status j' = "running"%string
    /\ ~ no_regress "succeeded" (j_status j').
Proof.
  set (w := one_job "succeeded" (Some "ft:model-1"%string)).
  exists (default (ERROR EmptyString) (match fst (status_query (report "running" None) w) with
                              | Ok r => Some r | Throw _ => None end)),
         (snd (status_query (report "running" None) w)),
         (default (stored_job EmptyString None None)
                  (jobs (snd (status_query (report "running" None) w)) !! "job-1"%string)).
  split; [vm_compute; reflexivity|]. split; [vm_compute; reflexivity|].
  split; [vm_compute; reflexivity|].
  assert (j_status (default (stored_job EmptyString None None)
                      (jobs (snd (status_query (report "running" None) w)) !! "job-1"%string))
          = "running"%string) as -> by (vm_compute; reflexivity).
  split; [reflexivity|].
  intros [Heq|Hadv]; [discriminate|]. vm_compute in Hadv. lia.
Qed.

Definition three_reports : list (Z * status_reply) :=
  [(1700000060000, report "validating_files" None);
   (1700000120000, report "running" None);
   (1700000600000, report "succeeded" (Some "ft:model-1"%string))].

Lemma polls_follow_provider_witness :
  jobs (one_job "pending" None) !! "job-1"%string = Some (stored_job "pending" None None)
  /\ exists w' j',
       run (polls no_fault (Some "sk-test"%string) "store error" "job-1" three_reports)
           (one_job "pending" None) = (Ok tt, w')
       /\ jobs w' !! "job-1"%string = Some j'
       /\ (j_status j' = j_status (stored_job "pending" None None)
            \/ j_status j' ∈ reported_all three_reports)
       /\ (chain (j_status (stored_job "pending" None None)) (reported_all three_reports)
            -> no_regress (j_status (stored_job "pending" None None)) (j_status j')).
Proof.
  assert (jobs (one_job "pending" None) !! "job-1"%string
          = Some (stored_job "pending" None None)) as H by (vm_compute; reflexivity).
  split; [exact H|].
  exact (polls_follow_provider no_fault (Some "sk-test"%string) "store error" "job-1"
           three_reports (one_job "pending" None) (stored_job "pending" None None) H).
Defined.

(** A parent job with model [ft:model-1] and its parent, and a child job
    that enhances it. *)
Definition family : world :=
  {| jobs := {["job-0"%string := stored_job "succeeded" (Some "ft:model-0"%string) None;
               "job-1"%string := stored_job "running" None (Some "job-p"%string);
               "job-p"%string := stored_job "succeeded" (Some "ft:model-1"%string)
                                            (Some "job-0"%string)]};
     bots := {["bot-1"%string := helper_bot]}; ops := 0 |}.

Definition succeeded_with_model_2 : openai_job :=
  {| oj_status := Some "succeeded"%string; oj_fine_tuned_model := Some "ft:model-2"%string;
     oj_fine_tuned_model_id := None; oj_trained_tokens := Some 52000;
     oj_finished_at := Some 1700000590; oj_created_at := Some 1700000001;
     oj_error := None; oj_result_files := None |}.


(** The parent's parent keeps its own model. *)
Example grandparent_unchanged :
  let w' := snd (run (GET no_fault (Some "sk-test"%string) "store error" "job-1" 1700000600000
                        (StatusReply 200 (Some succeeded_with_model_2))) family) in
  (j_fine_tuned_model_id <$> jobs w' !! "job-p"%string) = Some (Some "ft:model-2"%string)
  /\ (j_fine_tuned_model_id <$> jobs w' !! "job-0"%string) = Some (Some "ft:model-0"%string)
  /\ (b_status <$> bots w' !! "bot-1"%string) = Some "active"%string.
Proof. vm_compute. repeat split; reflexivity. Qed.



End FineTune.

(** * Model evaluator *)

Record test_result := TestResult {
  input : string;
  expected : string;
  predicted : string;
  correct : bool;
  similarity : Q
}.

Record confusion_matrix := ConfusionMatrix {
  true_positives : nat;
  false_positives : nat;
  false_negatives : nat;
  true_negatives : Z
}.

Record metrics := Metrics {
  accuracy : Q;
  precision : Q;
  recall : Q;
  f1Score : Q;
  perplexity : Q;
  average_similarity : Q;
  similarity_distribution : nat * nat * nat;
  confusionMatrix : option confusion_matrix
}.

(** The outcome of one call of the model: it fails (the request is
    rejected, the status is not 200, the body does not parse), or it gives
    a content, possibly absent. *)
Inductive call_outcome :=
| CallFailed
| CallOk (content : option string).

Module Evaluator.

(** [new Set(iterable)]: the elements in insertion order, each once. *)
Definition set_add (acc : list string) (x : string) : list string :=
  if bool_decide (x ∈ acc) then acc else acc ++ [x].

Definition new_Set (l : list string) : list string := fold_left set_add l [].

Section Evaluate.
Variable toLowerCase : string -> string.
Variable Math_log : Q -> Q.
(** [chat i input]: the outcome of the call made for the [i]-th test
    example, with [input] as the user message. *)
Variable chat : nat -> string -> call_outcome.

Definition words (s : string) : list string := JS.split_ws (toLowerCase s).

Definition calculateSimilarity (str1 str2 : string) : Q :=
  let set1 := new_Set (words str1) in
  let set2 := new_Set (words str2) in
  let intersection := new_Set (filter (fun x => x ∈ set2) set1) in
  let union := new_Set (set1 ++ set2) in
  if (0 <? length union)%nat
  then Num.fdiv (Num.of_nat (length intersection)) (Num.of_nat (length union))
  else 0%Q.

Definition find_role (r : string) (e : example) : option message :=
  List.find (fun m => bool_decide (role m = r)) (messages e).

(** The result one test example contributes: none when it lacks a user or
    an assistant message. *)
Definition test_example (i : nat) (e : example) : option test_result :=
  match find_role "user" e, find_role "assistant" e with
  | Some userMessage, Some assistantMessage =>
      let input := content userMessage in
      let expected := content assistantMessage in
      match chat i input with
      | CallOk c =>
          let predicted := default EmptyString (FineTune.truthy_str c) in
          let similarity := calculateSimilarity expected predicted in
          Some {| input := input; expected := expected; predicted := predicted;
                  correct := Num.geb similarity Num.lit_0_7; similarity := similarity |}
      | CallFailed =>
          Some {| input := input; expected := expected; predicted := EmptyString;
                  correct := false; similarity := 0 |}
      end
  | _, _ => None
  end.

Fixpoint test_from (i : nat) (testExamples : list example) : list test_result :=
  match testExamples with
  | [] => []
  | e :: r =>
      match test_example i e with
      | Some res => res :: test_from (S i) r
      | None => test_from (S i) r
      end
  end.

Definition testModelWithExamples (testExamples : list example) : list test_result :=
  test_from 0 testExamples.

Definition count (f : test_result -> bool) (l : list test_result) : nat :=
  length (List.filter f l).

Definition sum (f : test_result -> Q) (l : list test_result) : Q :=
  fold_left (fun acc r => Num.fadd acc (f r)) l 0%Q.

Definition high (r : test_result) : bool := Num.geb (similarity r) Num.lit_0_7.

Definition ratio (n d : nat) : Q :=
  if (0 <? d)%nat then Num.fdiv (Num.of_nat n) (Num.of_nat d) else 0%Q.

Definition calculateMetrics (testResults : list test_result) : metrics :=
  let total := length testResults in
  if (total =? 0)%nat then
    {| accuracy := 0; precision := 0; recall := 0; f1Score := 0; perplexity := 0;
       average_similarity := 0; similarity_distribution := (0, 0, 0)%nat;
       confusionMatrix := None |}
  else
    let correct_n := count correct testResults in
    let accuracy := Num.fdiv (Num.of_nat correct_n) (Num.of_nat total) in
    let avgSimilarity := Num.fdiv (sum similarity testResults) (Num.of_nat total) in
    let tp := count high testResults in
    let fp := count (fun r => Num.ltb (similarity r) Num.lit_0_7 && correct r) testResults in
    let fn := count (fun r => Num.geb (similarity r) Num.lit_0_7 && negb (correct r))
                    testResults in
    let precision := ratio tp (tp + fp) in
    let recall := ratio tp (tp + fn) in
    let f1Score :=
      if Num.ltb 0 (Num.fadd precision recall)
      then Num.fdiv (Num.fmul (Num.fmul (Num.of_Z 2) precision) recall)
                    (Num.fadd precision recall)
      else 0%Q in
    let perplexity :=
      Num.fdiv (sum (fun r => if Num.ltb 0 (similarity r)
                              then (- Math_log (similarity r))%Q
                              else Num.of_Z 10) testResults)
               (Num.of_nat total) in
    {| accuracy := accuracy; precision := precision; recall := recall;
       f1Score := f1Score; perplexity := perplexity;
       average_similarity := avgSimilarity;
       similarity_distribution :=
         (count (fun r => Num.geb (similarity r) Num.lit_0_8) testResults,
          count (fun r => Num.geb (similarity r) (Num.b64 (1 # 2))
                          && Num.ltb (similarity r) Num.lit_0_8) testResults,
          count (fun r => Num.ltb (similarity r) (Num.b64 (1 # 2))) testResults);
       confusionMatrix :=
         Some {| true_positives := tp; false_positives := fp; false_negatives := fn;
                 true_negatives := Z.of_nat total - Z.of_nat tp - Z.of_nat fp - Z.of_nat fn |} |}.

(** ** The specification's similarity *)

(** The set the code builds from a text: the pieces of the lower-cased text
    between runs of white space.  As [split] has it, a text that is empty,
    or that begins or ends with white space, has the empty string among its
    pieces. *)
Definition word_set (s : string) : gset string := list_to_set (words s).

(** Following the specification's words, the word set of a text holds its
    lower-cased words: the pieces that are not empty. *)
Definition spec_word_set (s : string) : gset string :=
  list_to_set (filter (fun w => JS.truthy w = true) (words s)).

(** The Jaccard coefficient of two sets, as a Number: the size of the
    intersection divided by the size of the union. *)
Definition jaccard (A B : gset string) : Q :=
  Num.fdiv (Num.of_nat (size (A ∩ B))) (Num.of_nat (size (A ∪ B))).

(** ** Sets as lists *)

Lemma set_add_spec acc x :
  NoDup acc -> NoDup (set_add acc x) /\ forall y, y ∈ set_add acc x <-> y ∈ acc \/ y = x.
Proof.
  intros Hnd. unfold set_add. case_bool_decide as Hx.
  - split; [done|]. intros y. split; [by left|]. by intros [?| ->].
  - split.
    + apply NoDup_app. split; [done|]. split; [|apply NoDup_singleton].
      intros y Hy ->%list_elem_of_singleton. done.
    + intros y. rewrite elem_of_app, list_elem_of_singleton. done.
Qed.

Lemma fold_set_add_spec l acc :
  NoDup acc ->
  NoDup (fold_left set_add l acc)
  /\ forall y, y ∈ fold_left set_add l acc <-> y ∈ acc \/ y ∈ l.
Proof.
  revert acc. induction l as [|x l IH]; intros acc Hnd; simpl.
  - split; [done|]. intros y. split; [by left|]. intros [?|H]; [done|by apply elem_of_nil in H].
  - destruct (set_add_spec acc x Hnd) as [Hnd' Hin'].
    destruct (IH _ Hnd') as [Hnd'' Hin'']. split; [done|].
    intros y. rewrite Hin'', Hin', elem_of_cons. tauto.
Qed.

Lemma new_Set_NoDup l : NoDup (new_Set l).
Proof. apply fold_set_add_spec. constructor. Qed.

Lemma elem_of_new_Set l y : y ∈ new_Set l <-> y ∈ l.
Proof.
  unfold new_Set. destruct (fold_set_add_spec l [] (NoDup_nil_2)) as [_ H].
  rewrite H. split; [|by right]. intros [H'|?]; [by apply elem_of_nil in H'|done].
Qed.

(** The size of a [Set] built from a list is the number of distinct
    elements of the list. *)
Lemma new_Set_size l : length (new_Set l) = size (list_to_set l : gset string).
Proof.
  rewrite <- (size_list_to_set (C := gset string) (new_Set l)) by apply new_Set_NoDup.
  f_equal. apply set_eq. intros y. rewrite !elem_of_list_to_set. apply elem_of_new_Set.
Qed.

Lemma calculateSimilarity_jaccard str1 str2 :
  calculateSimilarity str1 str2 = jaccard (word_set str1) (word_set str2).
Proof.
  unfold calculateSimilarity, jaccard, word_set.
  set (w1 := words str1). set (w2 := words str2).
  assert (length (new_Set (new_Set w1 ++ new_Set w2))
          = size ((list_to_set w1 : gset string) ∪ list_to_set w2)) as Hu.
  { rewrite new_Set_size. f_equal. apply set_eq. intros y.
    rewrite elem_of_list_to_set, elem_of_app, !elem_of_new_Set, elem_of_union,
      !elem_of_list_to_set. done. }
  assert (length (new_Set (filter (fun x => x ∈ new_Set w2) (new_Set w1)))
          = size ((list_to_set w1 : gset string) ∩ list_to_set w2)) as Hi.
  { rewrite new_Set_size. f_equal. apply set_eq. intros y.
    rewrite elem_of_list_to_set, list_elem_of_filter, !elem_of_new_Set, elem_of_intersection,
      !elem_of_list_to_set. tauto. }
  rewrite Hu, Hi.
  assert (0 < size ((list_to_set w1 : gset string) ∪ list_to_set w2))%nat as Hpos.
  { destruct w1 as [|x r] eqn:E; [by apply JS.split_ws_nonempty in E|].
    assert (size ((list_to_set (x :: r) : gset string) ∪ list_to_set w2) <> 0%nat); [|lia].
    apply size_non_empty_iff. intros Hempty.
    assert (x ∈ (list_to_set (x :: r) : gset string) ∪ list_to_set w2) as Hx by set_solver.
    rewrite Hempty in Hx. by apply elem_of_empty in Hx. }
  by rewrite (proj2 (Nat.ltb_lt _ _) Hpos).
Qed.

(** The two sets differ by the empty piece only. *)
Lemma spec_word_set_pieces s : spec_word_set s = word_set s ∖ {[EmptyString]}.
Proof.
  unfold spec_word_set, word_set. apply set_eq. intros w.
  rewrite elem_of_difference, !elem_of_list_to_set, list_elem_of_filter, elem_of_singleton.
  destruct w; simpl; split; intros [? ?]; done.
Qed.

Lemma word_set_clean s : EmptyString ∉ words s -> word_set s = spec_word_set s.
Proof.
  intros Hne. rewrite spec_word_set_pieces. apply set_eq. intros w.
  rewrite elem_of_difference, elem_of_singleton. unfold word_set.
  rewrite elem_of_list_to_set. split; [|by intros [? _]].
  intros Hw. split; [done|]. by intros ->.
Qed.

(** ** Results of a run *)

(** Every result carries the flag [similarity >= 0.7]. *)
Definition threshold_flag (r : test_result) : Prop := correct r = high r.

Lemma test_example_flag i e r : test_example i e = Some r -> threshold_flag r.
Proof.
  unfold test_example, threshold_flag, high. intros H.
  destruct (find_role "user" e), (find_role "assistant" e); try done.
  destruct (chat i _); simplify_eq; cbn; [|done]. vm_compute. reflexivity.
Qed.

Lemma test_from_flag i l : Forall threshold_flag (test_from i l).
Proof.
  revert i. induction l as [|e l IH]; intros i; simpl; [constructor|].
  destruct (test_example i e) as [r|] eqn:E; [|apply IH].
  constructor; [by eapply test_example_flag|apply IH].
Qed.

(** What a test example with both messages contributes when its call
    succeeds. *)
Definition scored (i : nat) (e : example) (r : test_result) : Prop :=
  exists userMessage assistantMessage answer,
    find_role "user" e = Some userMessage
    /\ find_role "assistant" e = Some assistantMessage
    /\ chat i (content userMessage) = CallOk answer
    /\ input r = content userMessage
    /\ expected r = content assistantMessage
    /\ predicted r = default EmptyString (FineTune.truthy_str answer)
    /\ similarity r = jaccard (word_set (expected r)) (word_set (predicted r))
    /\ (EmptyString ∉ words (expected r) -> EmptyString ∉ words (predicted r) ->
        similarity r = jaccard (spec_word_set (expected r)) (spec_word_set (predicted r)))
    /\ correct r = Num.geb (similarity r) Num.lit_0_7.

(** The results [rs] are those of the examples [es], in order, [i] being
    the index of the first. *)
Fixpoint all_scored (i : nat) (es : list example) (rs : list test_result) : Prop :=
  match es, rs with
  | [], [] => True
  | e :: es', r :: rs' => scored i e r /\ all_scored (S i) es' rs'
  | _, _ => False
  end.

Lemma test_from_scored i l :
  Forall (fun e => is_Some (find_role "user" e) /\ is_Some (find_role "assistant" e)) l ->
  (forall i input, chat i input <> CallFailed) ->
  all_scored i l (test_from i l).
Proof.
  intros Hl Hchat. revert i. induction Hl as [|e l [[u Hu] [a Ha]] Hl IH]; intros i; simpl.
  - done.
  - unfold test_example. rewrite Hu, Ha.
    destruct (chat i (content u)) as [|c] eqn:Hc; [by apply Hchat in Hc|].
    split; [|apply IH].
    exists u, a, c. cbn. do 6 (split; [done|]).
    split; [apply calculateSimilarity_jaccard|]. split; [|done].
    intros H1 H2. rewrite calculateSimilarity_jaccard. by rewrite !word_set_clean.
Qed.

Lemma accuracy_ratio rs :
  accuracy (calculateMetrics rs) = ratio (count correct rs) (length rs).
Proof.
  unfold calculateMetrics, ratio. destruct rs as [|r rs]; [done|]. reflexivity.
Qed.

(** What the evaluation computes: when every test example has a user and
    an assistant message and every call of the model succeeds, each example yields one
    result, in order, whose predicted text is the model's answer; its
    similarity is the Jaccard coefficient (size of the intersection divided
    by size of the union) of the sets of pieces of the lower-cased expected
    and predicted texts between runs of white space, the empty piece
    included; when neither text has an empty piece these sets are the word
    sets of the two texts; the result is marked correct exactly when its
    similarity is at least 0.7; the accuracy is the number of correct results divided by the
    number of results, so 7 correct results out of 10 give an accuracy of
    0.7. *)
Theorem evaluation_scores testExamples :
  Forall (fun e => is_Some (find_role "user" e) /\ is_Some (find_role "assistant" e))
         testExamples ->
  (forall i input, chat i input <> CallFailed) ->
  all_scored 0 testExamples (testModelWithExamples testExamples)
  /\ accuracy (calculateMetrics (testModelWithExamples testExamples))
      = ratio (count correct (testModelWithExamples testExamples))
              (length (testModelWithExamples testExamples))
  /\ (forall rs, length rs = 10%nat -> count correct rs = 7%nat ->
                 accuracy (calculateMetrics rs) = Num.lit_0_7).
Proof.
  intros Hl Hchat. split; [by apply test_from_scored|]. split; [apply accuracy_ratio|].
  intros rs Hlen Hc. rewrite accuracy_ratio, Hlen, Hc. vm_compute. reflexivity.
Qed.

Lemma count_none (f : test_result -> bool) rs :
  Forall (fun r => f r = false) rs -> count f rs = 0%nat.
Proof.
  unfold count. induction 1 as [|r rs Hr _ IH]; simpl; [done|]. by rewrite Hr.
Qed.

Lemma count_le (f : test_result -> bool) rs : (count f rs <= length rs)%nat.
Proof. unfold count. apply List.filter_length_le. Qed.

Lemma count_pos (f : test_result -> bool) rs :
  existsb f rs = (0 <? count f rs)%nat.
Proof.
  unfold count. induction rs as [|r rs IH]; simpl; [done|].
  destruct (f r); simpl; [done|exact IH].
Qed.

(** C10: on a non-empty list of results of [testModelWithExamples] the
    confusion matrix has no false positive and no false negative, and
    precision, recall and F1 are all 1 when some result has similarity at
    least 0.7 ([Num.geb (similarity r) Num.lit_0_7]) and all 0 otherwise.
    The bound on the number of results is the one every ECMAScript array
    obeys. *)
Theorem precision_recall_degenerate testExamples :
  testModelWithExamples testExamples <> [] ->
  Z.of_nat (length (testModelWithExamples testExamples)) < 2 ^ 32 ->
  exists cm,
    confusionMatrix (calculateMetrics (testModelWithExamples testExamples)) = Some cm
    /\ false_positives cm = 0%nat
    /\ false_negatives cm = 0%nat
    /\ precision (calculateMetrics (testModelWithExamples testExamples))
        = (if existsb (fun r => Num.geb (similarity r) Num.lit_0_7)
                     (testModelWithExamples testExamples) then 1 else 0)%Q
    /\ recall (calculateMetrics (testModelWithExamples testExamples))
        = (if existsb (fun r => Num.geb (similarity r) Num.lit_0_7)
                     (testModelWithExamples testExamples) then 1 else 0)%Q
    /\ f1Score (calculateMetrics (testModelWithExamples testExamples))
        = (if existsb (fun r => Num.geb (similarity r) Num.lit_0_7)
                     (testModelWithExamples testExamples) then 1 else 0)%Q.
Proof.
  pose proof (test_from_flag 0 testExamples) as Hflag.
  change (test_from 0 testExamples) with (testModelWithExamples testExamples) in Hflag.
  set (rs := testModelWithExamples testExamples) in *. intros Hne Hlen.
  assert (count (fun r => Num.ltb (similarity r) Num.lit_0_7 && correct r) rs = 0%nat) as Hfp.
  { apply count_none. eapply Forall_impl; [exact Hflag|]. intros r Hr. rewrite Hr.
    unfold high, Num.ltb, Num.geb. by destruct (Qle_bool _ _). }
  assert (count (fun r => Num.geb (similarity r) Num.lit_0_7 && negb (correct r)) rs = 0%nat)
    as Hfn.
  { apply count_none. eapply Forall_impl; [exact Hflag|]. intros r Hr. rewrite Hr.
    unfold high. by destruct (Num.geb _ _). }
  assert (length rs <> 0%nat) as Hn0 by (by destruct rs).
  unfold calculateMetrics.
  replace (length rs =? 0)%nat with false by (symmetry; by apply Nat.eqb_neq).
  eexists. split; [reflexivity|]. cbn [false_positives false_negatives precision recall f1Score].
  rewrite Hfp, Hfn, Nat.add_0_r. split; [done|]. split; [done|].
  change (existsb (fun r => Num.geb (similarity r) Num.lit_0_7) rs) with (existsb high rs).
  rewrite count_pos. unfold ratio.
  pose proof (count_le high rs) as Hle.
  destruct (0 <? count high rs)%nat eqn:Hpos.
  - apply Nat.ltb_lt in Hpos. rewrite Num.fdiv_same by lia.
    repeat split; vm_compute; reflexivity.
  - repeat split; vm_compute; reflexivity.
Qed.

End Evaluate.

(** ** A sample evaluation *)

(** The model repeats the expected answer of the first example and answers
    the second one with other words; its third call fails. *)
Definition sample_examples : list example :=
  [ Runner.qa "What is tea?" "Tea is a drink made from leaves";
    Runner.qa "What is rain?" "Rain is water falling from clouds";
    Runner.qa "What is snow?" "Snow is frozen water" ].

Definition sample_chat (i : nat) (input : string) : call_outcome :=
  match i with
  | 0%nat => CallOk (Some "tea is a DRINK made from leaves"%string)
  | 1%nat => CallOk (Some "It is wet"%string)
  | _ => CallFailed
  end.

Definition always_answers (i : nat) (input : string) : call_outcome :=
  CallOk (Some "Tea is a drink"%string).

(** [Math.log] is not evaluated in the samples. *)
Definition no_log : Q -> Q := fun _ => 0%Q.

(** The model repeats the expected answer and ends it with a line break. *)
Definition hello : example := Runner.qa "Say hello" "hello world".

Definition hello_answer : string := "hello world" +:+ String (JS.byte 10) EmptyString.

Definition hello_newline (i : nat) (input : string) : call_outcome :=
  CallOk (Some hello_answer).

Definition hello_result : test_result :=
  {| input := "Say hello"; expected := "hello world"; predicted := hello_answer;
     correct := false; similarity := Num.b64 (2 # 3) |}.

(** C9, at the failing input: the expected text is [hello world] and the
    model answers [hello world] followed by a line break.  The two texts
    have the same words, so the Jaccard coefficient of their word sets is
    1, which passes the threshold; the similarity computed is 2/3, the
    empty piece [split] leaves after the line break being counted as a
    word of the answer, and the result is marked incorrect. *)
Lemma similarity_counts_empty_piece :
  testModelWithExamples Platform.ascii_toLowerCase hello_newline [hello] = [hello_result]
  /\ JS.split_ws hello_answer = ["hello"; "world"; EmptyString]%string
  /\ spec_word_set Platform.ascii_toLowerCase (expected hello_result)
     = spec_word_set Platform.ascii_toLowerCase (predicted hello_result)
  /\ jaccard (spec_word_set Platform.ascii_toLowerCase (expected hello_result))
             (spec_word_set Platform.ascii_toLowerCase (predicted hello_result)) = 1%Q
  /\ similarity hello_result
     <> jaccard (spec_word_set Platform.ascii_toLowerCase (expected hello_result))
                (spec_word_set Platform.ascii_toLowerCase (predicted hello_result))
  /\ Num.geb (jaccard (spec_word_set Platform.ascii_toLowerCase (expected hello_result))
                      (spec_word_set Platform.ascii_toLowerCase (predicted hello_result)))
             Num.lit_0_7 = true
  /\ correct hello_result = false.
Proof.
  split; [vm_compute; reflexivity|]. split; [vm_compute; reflexivity|].
  split; [vm_compute; reflexivity|]. split; [vm_compute; reflexivity|].
  split; [vm_compute; discriminate|]. split; [vm_compute; reflexivity|].
  reflexivity.
Qed.

Example sample_results :
  map (fun r => (correct r, similarity r))
      (testModelWithExamples Platform.ascii_toLowerCase sample_chat sample_examples)
  = [(true, 1%Q); (false, (1 # 8)%Q); (false, 0%Q)].
Proof. vm_compute. reflexivity. Qed.

Lemma evaluation_scores_witness :
  Forall (fun e => is_Some (find_role "user" e) /\ is_Some (find_role "assistant" e))
         sample_examples
  /\ (forall i input, always_answers i input <> CallFailed)
  /\ all_scored Platform.ascii_toLowerCase always_answers 0 sample_examples
        (testModelWithExamples Platform.ascii_toLowerCase always_answers sample_examples)
  /\ accuracy (calculateMetrics no_log
                 (testModelWithExamples Platform.ascii_toLowerCase always_answers
                    sample_examples))
      = ratio (count correct (testModelWithExamples Platform.ascii_toLowerCase always_answers
                                sample_examples))
              (length (testModelWithExamples Platform.ascii_toLowerCase always_answers
                         sample_examples))
  /\ (forall rs, length rs = 10%nat -> count correct rs = 7%nat ->
                 accuracy (calculateMetrics no_log rs) = Num.lit_0_7).
Proof.
  assert (Forall (fun e => is_Some (find_role "user" e) /\ is_Some (find_role "assistant" e))
                 sample_examples) as H1.
  { repeat constructor; eexists; reflexivity. }
  assert (forall i input, always_answers i input <> CallFailed) as H2 by discriminate.
  split; [exact H1|]. split; [exact H2|].
  exact (evaluation_scores Platform.ascii_toLowerCase no_log always_answers
           sample_examples H1 H2).
Defined.

Lemma precision_recall_degenerate_witness :
  testModelWithExamples Platform.ascii_toLowerCase sample_chat sample_examples <> []
  /\ Z.of_nat (length (testModelWithExamples Platform.ascii_toLowerCase sample_chat
                         sample_examples)) < 2 ^ 32
  /\ exists cm,
       confusionMatrix (calculateMetrics no_log
                          (testModelWithExamples Platform.ascii_toLowerCase sample_chat
                             sample_examples)) = Some cm
       /\ false_positives cm = 0%nat
       /\ false_negatives cm = 0%nat
       /\ precision (calculateMetrics no_log
                       (testModelWithExamples Platform.ascii_toLowerCase sample_chat
                          sample_examples))
           = (if existsb (fun r => Num.geb (similarity r) Num.lit_0_7)
                         (testModelWithExamples Platform.ascii_toLowerCase sample_chat
                                 sample_examples) then 1 else 0)%Q
       /\ recall (calculateMetrics no_log
                    (testModelWithExamples Platform.ascii_toLowerCase sample_chat
                       sample_examples))
           = (if existsb (fun r => Num.geb (similarity r) Num.lit_0_7)
                         (testModelWithExamples Platform.ascii_toLowerCase sample_chat
                                 sample_examples) then 1 else 0)%Q
       /\ f1Score (calculateMetrics no_log
                     (testModelWithExamples Platform.ascii_toLowerCase sample_chat
                        sample_examples))
           = (if existsb (fun r => Num.geb (similarity r) Num.lit_0_7)
                         (testModelWithExamples Platform.ascii_toLowerCase sample_chat
                                 sample_examples) then 1 else 0)%Q.
Proof.
  assert (testModelWithExamples Platform.ascii_toLowerCase sample_chat sample_examples <> [])
    as H1 by (vm_compute; discriminate).
  assert (Z.of_nat (length (testModelWithExamples Platform.ascii_toLowerCase sample_chat
                              sample_examples)) < 2 ^ 32) as H2 by (vm_compute; reflexivity).
  split; [exact H1|]. split; [exact H2|].
  exact (precision_recall_degenerate Platform.ascii_toLowerCase no_log sample_chat
           sample_examples H1 H2).
Defined.

End Evaluator.

(** * The JSONL content of a dataset *)

Module Jsonl.
Import Runner.

(** ** Lines *)

(** [single_line s]: [s] holds no line feed. *)
Fixpoint single_line (s : string) : bool :=
  match s with
  | EmptyString => true
  | String c r => negb (JS.code c =? 10) && single_line r
  end.

Lemma single_line_app a b : single_line (a +:+ b) = single_line a && single_line b.
Proof.
  induction a as [|c a IH]; [done|].
  change (String c a +:+ b) with (String c (a +:+ b)). cbn [single_line].
  rewrite IH. by rewrite andb_assoc.
Qed.

Lemma code_byte z : 0 <= z < 256 -> JS.code (JS.byte z) = z.
Proof.
  intros Hz. unfold JS.code, JS.byte. rewrite N_ascii_embedding by lia. lia.
Qed.

Lemma hex_digit_code z : 0 <= z < 16 -> 48 <= JS.code (JS.hex_digit z) <= 102.
Proof.
  intros Hz. unfold JS.hex_digit. destruct (z <? 10) eqn:E.
  - apply Z.ltb_lt in E. rewrite code_byte by lia. lia.
  - apply Z.ltb_ge in E. rewrite code_byte by lia. lia.
Qed.

(** [JSON.stringify] writes a line feed as the two characters [\n]. *)
Lemma json_escape_single_line s : single_line (JS.json_escape s) = true.
Proof.
  induction s as [|c s IH]; [done|]. cbn [JS.json_escape]. cbv zeta.
  assert (0 <= JS.code c) as Hc0 by (unfold JS.code; lia).
  destruct (JS.code c =? 34) eqn:E34; [rewrite ?single_line_app; cbn [single_line]; rewrite IH; reflexivity|].
  destruct (JS.code c =? 92) eqn:E92; [rewrite ?single_line_app; cbn [single_line]; rewrite IH; reflexivity|].
  destruct (JS.code c =? 8) eqn:E8; [rewrite ?single_line_app; cbn [single_line]; rewrite IH; reflexivity|].
  destruct (JS.code c =? 12) eqn:E12; [rewrite ?single_line_app; cbn [single_line]; rewrite IH; reflexivity|].
  destruct (JS.code c =? 10) eqn:E10; [rewrite ?single_line_app; cbn [single_line]; rewrite IH; reflexivity|].
  destruct (JS.code c =? 13) eqn:E13; [rewrite ?single_line_app; cbn [single_line]; rewrite IH; reflexivity|].
  destruct (JS.code c =? 9) eqn:E9; [rewrite ?single_line_app; cbn [single_line]; rewrite IH; reflexivity|].
  destruct (JS.code c <? 32) eqn:E32.
  - apply Z.ltb_lt in E32.
    assert (0 <= JS.code c / 16 < 16) as H1
      by (split; [apply Z.div_pos; lia|apply Z.div_lt_upper_bound; lia]).
    pose proof (Z.mod_pos_bound (JS.code c) 16 ltac:(lia)) as H2.
    pose proof (hex_digit_code _ H1). pose proof (hex_digit_code _ H2).
    rewrite single_line_app. cbn [single_line]. rewrite IH.
    rewrite (proj2 (Z.eqb_neq (JS.code (JS.hex_digit (JS.code c / 16))) 10)) by lia.
    rewrite (proj2 (Z.eqb_neq (JS.code (JS.hex_digit (JS.code c mod 16))) 10)) by lia.
    reflexivity.
  - cbn [single_line]. rewrite IH. by rewrite E10.
Qed.

Lemma json_string_single_line s : single_line (JS.json_string s) = true.
Proof.
  unfold JS.json_string. rewrite !single_line_app, json_escape_single_line. reflexivity.
Qed.

Lemma stringify_message_single_line m :
  single_line (Fingerprint.stringify_message m) = true.
Proof.
  unfold Fingerprint.stringify_message.
  rewrite !single_line_app, !json_string_single_line. reflexivity.
Qed.

Lemma join_commas_single_line l :
  Forall (fun x => single_line x = true) l -> single_line (Fingerprint.join_commas l) = true.
Proof.
  induction 1 as [|x l Hx Hl IH]; [done|]. cbn [Fingerprint.join_commas].
  destruct l as [|y l]; [done|]. rewrite !single_line_app, Hx, IH. reflexivity.
Qed.

Lemma stringify_example_single_line msgs :
  single_line (Fingerprint.stringify_example msgs) = true.
Proof.
  unfold Fingerprint.stringify_example.
  rewrite !single_line_app, json_string_single_line, join_commas_single_line; [done|].
  apply Forall_forall. intros x (m & -> & _)%list_elem_of_fmap.
  apply stringify_message_single_line.
Qed.

(** ** Splitting what was joined *)

Lemma split_lines_single s : single_line s = true -> JS.split_lines s = [s].
Proof.
  induction s as [|c s IH]; [done|]. cbn [single_line JS.split_lines].
  intros [Hc Hs]%andb_prop. apply negb_true_iff in Hc. by rewrite Hc, IH.
Qed.

Lemma split_lines_app s rest :
  single_line s = true ->
  JS.split_lines (s +:+ String (JS.byte 10) rest) = s :: JS.split_lines rest.
Proof.
  induction s as [|c s IH]; [done|].
  change (String c s +:+ String (JS.byte 10) rest)
    with (String c (s +:+ String (JS.byte 10) rest)).
  cbn [single_line JS.split_lines].
  intros [Hc Hs]%andb_prop. apply negb_true_iff in Hc. by rewrite Hc, IH.
Qed.

Lemma split_join_lines l :
  l <> [] -> Forall (fun x => single_line x = true) l ->
  JS.split_lines (JS.join_lines l) = l.
Proof.
  intros Hne Hl. induction Hl as [|x l Hx Hl IH]; [done|].
  cbn [JS.join_lines]. destruct l as [|y l]; [by apply split_lines_single|].
  rewrite split_lines_app by done. f_equal. by apply IH.
Qed.

(** ** Lines that begin with a brace *)

Lemma trim_brace r : JS.truthy (JS.trim (String "{" r)) = true.
Proof.
  assert (JS.ws_len (String "{" r) = 0%nat) as Hws
    by (destruct r as [|c1 [|c2 r]]; reflexivity).
  assert (JS.trimStart (String "{" r) = String "{" r) as Hts.
  { unfold JS.trimStart. cbn [String.length JS.trimStart_fuel]. by rewrite Hws. }
  unfold JS.trim. rewrite Hts. cbn [JS.trimEnd]. unfold JS.all_ws. by rewrite Hts.
Qed.

Lemma stringify_example_brace msgs :
  exists r, Fingerprint.stringify_example msgs = String "{" r.
Proof. eexists. reflexivity. Qed.

Lemma join_lines_brace r l : exists r', JS.join_lines (String "{" r :: l) = String "{" r'.
Proof. destruct l; eexists; reflexivity. Qed.

Lemma filter_nonblank l :
  Forall (fun x => exists r, x = String "{" r) l ->
  filter (fun line => JS.truthy (JS.trim line) = true) l = l.
Proof.
  induction 1 as [|x l [r ->] Hl IH]; [done|].
  rewrite filter_cons_True by apply trim_brace. by rewrite IH.
Qed.

Section Content.
Variable JSON_parse : string -> option json.

Local Abbreviation serialise := (serialise JSON_parse).
Local Abbreviation written_examples := (written_examples JSON_parse).
Local Abbreviation convertToJSONL := (convertToJSONL JSON_parse).
Local Abbreviation validateJSONL := (validateJSONL JSON_parse).
Local Abbreviation parses := (parses JSON_parse).

(** The line written for an example that is kept. *)
Definition line (e : example) : string := Fingerprint.stringify_example (messages e).

Lemma serialise_line ex clean l :
  serialise ex = Some (clean, l) -> l = line clean /\ parses (line clean) = true.
Proof.
  unfold Runner.serialise. destruct (clean_example ex) as [c|]; [|done].
  fold (line c). destruct (Runner.parses JSON_parse (line c)) eqn:Hp; [|done].
  intros [= <- <-]. by split.
Qed.

Lemma written_lines examples :
  omap (fun ex => snd <$> serialise ex) examples = map line (written_examples examples)
  /\ Forall (fun e => parses (line e) = true) (written_examples examples).
Proof.
  unfold Runner.written_examples.
  induction examples as [|ex r [IH1 IH2]]; [by split|]. cbn [omap list_omap].
  destruct (Runner.serialise JSON_parse ex) as [[clean l]|] eqn:E;
    cbn [fmap option_fmap option_map fst snd map]; [|by split].
  apply serialise_line in E as [-> Hp]. split; [by rewrite IH1|by constructor].
Qed.

(** The lines written for a non-empty list of kept examples are the lines
    of the text they are joined into. *)
Lemma joined_lines (es : list example) :
  nonblank_lines (JS.join_lines (map line es)) = map line es.
Proof.
  destruct es as [|e es]; [done|]. set (l := map line (e :: es)).
  assert (Forall (fun x => exists r, x = String "{" r) l) as Hb.
  { apply Forall_forall. intros x (e' & -> & _)%list_elem_of_fmap.
    apply stringify_example_brace. }
  assert (Forall (fun x => single_line x = true) l) as Hs.
  { apply Forall_forall. intros x (e' & -> & _)%list_elem_of_fmap.
    apply stringify_example_single_line. }
  unfold nonblank_lines. rewrite split_join_lines by done. by apply filter_nonblank.
Qed.

Lemma nonblank_lines_written examples :
  nonblank_lines (convertToJSONL examples) = map line (written_examples examples).
Proof.
  unfold Runner.convertToJSONL. destruct (written_lines examples) as [-> _].
  apply joined_lines.
Qed.

Lemma validateJSONL_kept examples :
  validateJSONL (convertToJSONL examples) = true -> written_examples examples <> [].
Proof.
  unfold Runner.convertToJSONL. destruct (written_lines examples) as [-> _].
  by destruct (written_examples examples).
Qed.

(** X1: the text [convertToJSONL] builds holds one line for each example it
    keeps, in order, each line being the serialisation of the cleaned
    example: no serialisation holds a line feed and none is blank, so
    splitting the text at line feeds gives the lines back.  [validateJSONL]
    accepts the text exactly when at least one example was kept. *)
Theorem jsonl_lines examples :
  nonblank_lines (convertToJSONL examples) = map line (written_examples examples)
  /\ validateJSONL (convertToJSONL examples)
     = negb (bool_decide (written_examples examples = [])).
Proof.
  split; [apply nonblank_lines_written|].
  unfold Runner.validateJSONL. rewrite nonblank_lines_written.
  unfold Runner.convertToJSONL. destruct (written_lines examples) as [-> Hp].
  destruct (written_examples examples) as [|e es] eqn:Hw; [done|].
  rewrite bool_decide_eq_false_2 by done. cbn [negb].
  assert (exists r', JS.join_lines (map line (e :: es)) = String "{" r') as [r' Hj].
  { cbn [map]. destruct (stringify_example_brace (messages e)) as [r Hr].
    unfold line at 1. rewrite Hr. apply join_lines_brace. }
  rewrite Hj, trim_brace. cbn [JS.truthy negb orb].
  apply forallb_forall. intros x (e' & <- & He')%in_map_iff.
  eapply Forall_forall in Hp; [exact Hp|]. by apply list_elem_of_In.
Qed.

Lemma written_examples_length examples :
  (length (written_examples examples) <= length examples)%nat.
Proof.
  unfold Runner.written_examples. induction examples as [|ex r IH]; [done|].
  cbn [omap list_omap]. destruct (Runner.serialise JSON_parse ex); simpl; lia.
Qed.

Lemma written_examples_parse examples :
  Forall (fun l => parses l = true) (map line (written_examples examples)).
Proof.
  destruct (written_lines examples) as [_ Hp]. apply Forall_fmap.
  eapply Forall_impl; [exact Hp|]. by intros e He.
Qed.

End Content.

(** ** The contents of a completed record *)

Section Stored.
Variable toLowerCase : string -> string.
Variable localeCompare : string -> string -> Z.
Variable JSON_parse : string -> option json.
Variable db_fault : nat -> option string.
Variable generate : nat -> Z -> list example.
Variable api_key : option string.
Variable existing_contents : list string.
Variable record_not_found : string.

Local Abbreviation processGenerationJob :=
  (processGenerationJob toLowerCase localeCompare JSON_parse db_fault generate api_key
     existing_contents record_not_found).
Local Abbreviation parses := (parses JSON_parse).

(** X2: in a completed record the content holds at least one line and at
    most [num_examples] lines, every line parses, and the lines of the
    training content followed by the lines of the test content are the
    lines of the content. *)
Theorem completed_content d s' d' :
  ds_status d <> Completed ->
  snd (Eff.run processGenerationJob (initial d)) = s' ->
  db s' = Some d' ->
  ds_status d' = Completed ->
  exists content training test n,
    ds_content d' = Some content
    /\ ds_training_content d' = Some training
    /\ ds_test_content d' = Some test
    /\ ds_num_examples d' = Some n
    /\ (1 <= length (nonblank_lines content) <= n)%nat
    /\ Forall (fun l => parses l = true) (nonblank_lines content)
    /\ nonblank_lines content = nonblank_lines training ++ nonblank_lines test.
Proof.
  intros Hst <- Hdb Hdone.
  assert (alive (db (initial d))) as Hal by (by exists d).
  pose proof (processGenerationJob_spec toLowerCase localeCompare JSON_parse db_fault generate
                api_key existing_contents record_not_found (initial d) Hal eq_refl) as H.
  unfold Eff.wp in H.
  destruct (Eff.run processGenerationJob (initial d)) as [[[]|e] s']; simpl in *; [|done].
  destruct H as [[_ (d0 & Hd0 & _ & _ & Hnum & _ & _ & Hc & Htc & Htec & Hval)]
                |[_ (d0 & Hd0 & Hnc)]]; [|congruence].
  assert (d0 = d') as -> by congruence.
  set (v := filter (fun ex => validates JSON_parse ex = true) (allExamples s')) in *.
  set (tc := trainingCount (length v)) in *.
  pose proof (validateJSONL_kept JSON_parse v Hval) as Hkept.
  eexists _, _, _, _. do 4 (split; [eassumption|]).
  rewrite !nonblank_lines_written. split; [|split].
  - rewrite length_map. split; [|apply written_examples_length].
    destruct (Runner.written_examples JSON_parse v); [done|simpl; lia].
  - apply written_examples_parse.
  - rewrite <- map_app. f_equal. unfold Runner.written_examples.
    by rewrite <- omap_app, take_drop.
Qed.

End Stored.

Lemma completed_content_witness :
  exists content training test n,
    ds_content scenario_record = Some content
    /\ ds_training_content scenario_record = Some training
    /\ ds_test_content scenario_record = Some test
    /\ ds_num_examples scenario_record = Some n
    /\ (1 <= length (nonblank_lines content) <= n)%nat
    /\ Forall (fun l =>
                 parses (parse_examples (scenario_batches 0 5 ++ scenario_batches 1 5
                                         ++ scenario_batches 2 2)) l = true)
              (nonblank_lines content)
    /\ nonblank_lines content = nonblank_lines training ++ nonblank_lines test.
Proof.
  apply (completed_content Platform.ascii_toLowerCase Platform.codeunit_compare
           (parse_examples (scenario_batches 0 5 ++ scenario_batches 1 5
                            ++ scenario_batches 2 2))
           no_fault scenario_batches (Some "sk-test"%string) [] not_found
           scenario_job (snd scenario_run) scenario_record).
  - discriminate.
  - reflexivity.
  - vm_compute. reflexivity.
  - vm_compute. reflexivity.
Defined.

End Jsonl.
(** * Further properties of the fingerprint *)

Module Digest.

(** ** The shape of a digest *)

Lemma round_length st kw : length st = 8%nat -> length (SHA256.round st kw) = 8%nat.
Proof.
  intros H. do 9 (destruct st as [|? st]; try done).
Qed.

Lemma rounds_length l h :
  length h = 8%nat -> length (fold_left SHA256.round l h) = 8%nat.
Proof.
  revert h. induction l as [|kw l IH]; intros h Hh; [done|].
  simpl. apply IH. by apply round_length.
Qed.

Lemma compress_length h block :
  length h = 8%nat -> length (SHA256.compress h block) = 8%nat.
Proof.
  intros Hh. unfold SHA256.compress.
  rewrite length_map, length_combine, rounds_length by done. rewrite Hh. done.
Qed.

Lemma blocks_length l h :
  length h = 8%nat -> length (fold_left SHA256.compress l h) = 8%nat.
Proof.
  revert h. induction l as [|b l IH]; intros h Hh; [done|].
  simpl. apply IH. by apply compress_length.
Qed.

Lemma be_bytes_spec n x :
  length (SHA256.be_bytes n x) = n
  /\ Forall (fun b => 0 <= b < 256) (SHA256.be_bytes n x).
Proof.
  unfold SHA256.be_bytes. split; [by rewrite length_map, length_seq|].
  apply Forall_forall. intros b (i & -> & _)%list_elem_of_fmap.
  apply Z.mod_pos_bound. lia.
Qed.

Lemma concat_bytes (h : list Z) :
  length (concat (map (SHA256.be_bytes 4) h)) = (4 * length h)%nat
  /\ Forall (fun b => 0 <= b < 256) (concat (map (SHA256.be_bytes 4) h)).
Proof.
  induction h as [|x h [IH1 IH2]]; [by split|]. cbn [map concat].
  destruct (be_bytes_spec 4 x) as [H1 H2]. split.
  - rewrite length_app, H1, IH1. simpl. lia.
  - by apply Forall_app.
Qed.

(** A digest has 32 bytes. *)
Lemma digest_bytes msg :
  length (SHA256.digest msg) = 32%nat /\ Forall (fun b => 0 <= b < 256) (SHA256.digest msg).
Proof.
  unfold SHA256.digest. cbv zeta.
  match goal with |- context [fold_left SHA256.compress ?l SHA256.H0] =>
    pose proof (blocks_length l SHA256.H0 eq_refl) as Hh;
    destruct (concat_bytes (fold_left SHA256.compress l SHA256.H0)) as [H1 H2]
  end.
  rewrite Hh in H1. by split.
Qed.

(** [lower_hex s]: [s] consists of the characters [0]..[9] and [a]..[f]. *)
Fixpoint lower_hex (s : string) : bool :=
  match s with
  | EmptyString => true
  | String c r =>
      (((48 <=? JS.code c) && (JS.code c <=? 57)) || ((97 <=? JS.code c) && (JS.code c <=? 102)))
      && lower_hex r
  end.

Lemma hex_digit_lower z :
  0 <= z < 16 ->
  let b := JS.code (JS.byte (JS.code (JS.hex_digit z))) in
  ((48 <=? b) && (b <=? 57)) || ((97 <=? b) && (b <=? 102)) = true.
Proof.
  intros Hz. cbv zeta. unfold JS.hex_digit. destruct (Z.ltb_spec z 10).
  - rewrite !Jsonl.code_byte by (rewrite ?Jsonl.code_byte; lia).
    apply orb_true_iff. left. apply andb_true_iff. split; apply Z.leb_le; lia.
  - rewrite !Jsonl.code_byte by (rewrite ?Jsonl.code_byte; lia).
    apply orb_true_iff. right. apply andb_true_iff. split; apply Z.leb_le; lia.
Qed.

Lemma hex_spec l :
  Forall (fun b => 0 <= b < 256) l ->
  String.length (SHA256.hex l) = (2 * length l)%nat /\ lower_hex (SHA256.hex l) = true.
Proof.
  unfold SHA256.hex. induction 1 as [|b l Hb Hl [IH1 IH2]]; [by split|].
  cbn [map concat app JS.of_bytes String.length lower_hex].
  rewrite IH1, IH2.
  assert (0 <= b / 16 < 16)
    by (split; [apply Z.div_pos; lia|apply Z.div_lt_upper_bound; lia]).
  pose proof (Z.mod_pos_bound b 16 ltac:(lia)).
  rewrite !hex_digit_lower by done. split; [simpl length; lia|done].
Qed.

(** X3: a fingerprint is a text of 64 characters, each a digit or a letter
    from a to f in lower case. *)
Theorem createExampleHash_hex toLowerCase localeCompare e :
  String.length (Fingerprint.createExampleHash toLowerCase localeCompare e) = 64%nat
  /\ lower_hex (Fingerprint.createExampleHash toLowerCase localeCompare e) = true.
Proof.
  unfold Fingerprint.createExampleHash, SHA256.sha256_hex.
  match goal with |- context [SHA256.digest ?m] =>
    destruct (digest_bytes m) as [H1 H2]; destruct (hex_spec _ H2) as [H3 H4]
  end.
  rewrite H1 in H3. by split.
Qed.

(** ** The sort on the messages of one example *)

Section SortOn.
Context {A : Type} (cmp : A -> A -> Z) (P : A -> Prop).
Hypothesis cmp_total : forall a b, JS.cmp_le cmp a b \/ JS.cmp_le cmp b a.
Hypothesis cmp_trans :
  forall a b c, P a -> P b -> P c ->
                JS.cmp_le cmp a b -> JS.cmp_le cmp b c -> JS.cmp_le cmp a c.

Lemma sort_insert_sorted_on x l :
  P x -> Forall P l ->
  StronglySorted (JS.cmp_le cmp) l -> StronglySorted (JS.cmp_le cmp) (JS.sort_insert cmp x l).
Proof.
  intros Hx Hl. induction 1 as [|y r Hr IH Hy]; simpl.
  - repeat constructor.
  - apply Forall_cons in Hl as [Py Pr].
    destruct (Z.leb_spec (cmp y x) 0) as [Hle|Hgt].
    + constructor; [by apply IH|].
      rewrite JS.sort_insert_perm. by constructor.
    + assert (JS.cmp_le cmp x y) as Hxy.
      { destruct (cmp_total x y) as [?|H']; [done|unfold JS.cmp_le in H'; lia]. }
      constructor; [by constructor|]. constructor; [done|].
      apply Forall_forall. intros z Hz.
      apply (cmp_trans x y z Hx Py); [|done|].
      * eapply Forall_forall in Pr; [exact Pr|done].
      * eapply Forall_forall in Hy; [exact Hy|done].
Qed.

Lemma sort_from_sorted_on l acc :
  Forall P l -> Forall P acc ->
  StronglySorted (JS.cmp_le cmp) acc ->
  StronglySorted (JS.cmp_le cmp) (fold_left (fun acc x => JS.sort_insert cmp x acc) l acc).
Proof.
  intros Hl. revert acc. induction Hl as [|x l Hx Hl IH]; intros acc Hacc Hs; simpl; [done|].
  apply IH; [|by apply sort_insert_sorted_on].
  rewrite JS.sort_insert_perm. by constructor.
Qed.

Lemma sort_sorted_on l : Forall P l -> StronglySorted (JS.cmp_le cmp) (JS.sort cmp l).
Proof. intros Hl. apply sort_from_sorted_on; [done|constructor|constructor]. Qed.

End SortOn.

(** [no_ties e]: no two distinct messages of [e], as normalised, tie under
    the comparator of the sort. *)
Definition no_ties (toLowerCase : string -> string) (localeCompare : string -> string -> Z)
    (e : example) : Prop :=
  forall m1 m2,
    m1 ∈ map (Fingerprint.normalize_message toLowerCase) (messages e) ->
    m2 ∈ map (Fingerprint.normalize_message toLowerCase) (messages e) ->
    Fingerprint.compare_messages localeCompare m1 m2 <= 0 ->
    Fingerprint.compare_messages localeCompare m2 m1 <= 0 ->
    m1 = m2.

(** X4: where [localeCompare] is a total preorder on strings (it may tie
    distinct strings, as it does for canonically equivalent ones) and no
    two distinct messages of the first example, once normalised, tie
    under the comparator of the sort, a second example whose messages agree
    with those of the first up to their order, the letter case of their
    contents and the white space around them has the same fingerprint. *)
Theorem fingerprint_canonical toLowerCase localeCompare e1 e2 :
  (forall a b, localeCompare a b <= 0 \/ localeCompare b a <= 0) ->
  (forall a b c, localeCompare a b <= 0 -> localeCompare b c <= 0 -> localeCompare a c <= 0) ->
  no_ties toLowerCase localeCompare e1 ->
  Fingerprint.same_messages toLowerCase e1 e2 ->
  Fingerprint.createExampleHash toLowerCase localeCompare e1
  = Fingerprint.createExampleHash toLowerCase localeCompare e2.
Proof.
  intros Htotal Htrans Hties Hsame.
  unfold Fingerprint.createExampleHash, Fingerprint.normalized. do 2 f_equal.
  unfold Fingerprint.same_messages in Hsame.
  set (l1 := map (Fingerprint.normalize_message toLowerCase) (messages e1)) in *.
  set (l2 := map (Fingerprint.normalize_message toLowerCase) (messages e2)) in *.
  set (cmp := Fingerprint.compare_messages localeCompare).
  assert (forall a b, JS.cmp_le cmp a b \/ JS.cmp_le cmp b a) as Ht.
  { intros a b. unfold JS.cmp_le, cmp, Fingerprint.compare_messages.
    destruct (decide (role a = role b)) as [E|N].
    - rewrite decide_True by done. apply Htotal.
    - rewrite decide_False by (intros E; by apply N). apply Htotal. }
  assert (forall a b c, a ∈ l1 -> b ∈ l1 -> c ∈ l1 ->
            JS.cmp_le cmp a b -> JS.cmp_le cmp b c -> JS.cmp_le cmp a c) as Htr.
  { intros a b c Ha Hb Hc Hab Hbc.
    destruct (decide (role a = role b)) as [E1|N1],
             (decide (role b = role c)) as [E2|N2];
      unfold JS.cmp_le, cmp, Fingerprint.compare_messages in *.
    - rewrite decide_True in Hab by done. rewrite decide_True in Hbc by done.
      rewrite decide_True by congruence. eauto.
    - rewrite decide_True in Hab by done. rewrite decide_False in Hbc by done.
      rewrite decide_False by congruence. by rewrite E1.
    - rewrite decide_False in Hab by done. rewrite decide_True in Hbc by done.
      rewrite decide_False by congruence. by rewrite <- E2.
    - rewrite decide_False in Hab by done. rewrite decide_False in Hbc by done.
      destruct (decide (role a = role c)) as [E3|N3]; [|eauto].
      exfalso. apply N1. f_equal. apply (Hties a b Ha Hb).
      + unfold Fingerprint.compare_messages. by rewrite decide_False.
      + unfold Fingerprint.compare_messages. rewrite decide_False by congruence.
        by rewrite E3. }
  apply (StronglySorted_unique_strong (JS.cmp_le cmp)).
  - intros a b Ha Hb. rewrite JS.sort_perm in Ha, Hb. rewrite <- Hsame in Hb.
    by apply Hties.
  - apply (sort_sorted_on cmp (fun m => m ∈ l1)); [done|done|]. by apply Forall_forall.
  - apply (sort_sorted_on cmp (fun m => m ∈ l1)); [done|done|].
    apply Forall_forall. intros m Hm. by rewrite Hsame.
  - by rewrite !JS.sort_perm.
Qed.

Lemma canonical_compare_total a b :
  Platform.canonical_compare a b <= 0 \/ Platform.canonical_compare b a <= 0.
Proof. apply Platform.codeunit_compare_total. Qed.

Lemma canonical_compare_trans a b c :
  Platform.canonical_compare a b <= 0 -> Platform.canonical_compare b c <= 0 ->
  Platform.canonical_compare a c <= 0.
Proof. apply Platform.codeunit_compare_trans. Qed.

(** [Platform.canonical_compare] is such a preorder, and it does tie distinct
    strings. *)
Lemma canonical_compare_ties :
  Samples.e_acute_composed <> Samples.e_acute_decomposed
  /\ Platform.canonical_compare Samples.e_acute_composed Samples.e_acute_decomposed = 0.
Proof. split; [discriminate|reflexivity]. Qed.

Lemma shouted_no_ties :
  no_ties Platform.ascii_toLowerCase Platform.canonical_compare Samples.shouted.
Proof.
  intros m1 m2 H1 H2.
  apply list_elem_of_In in H1, H2. simpl in H1, H2.
  destruct H1 as [<-|[<-|[]]], H2 as [<-|[<-|[]]]; intros Hle1 Hle2; try reflexivity;
    exfalso; vm_compute in Hle1, Hle2; done.
Qed.

Lemma fingerprint_canonical_witness :
  Fingerprint.createExampleHash Platform.ascii_toLowerCase Platform.canonical_compare
    Samples.shouted
  = Fingerprint.createExampleHash Platform.ascii_toLowerCase Platform.canonical_compare
      Samples.plain.
Proof.
  apply (fingerprint_canonical Platform.ascii_toLowerCase Platform.canonical_compare
           Samples.shouted Samples.plain).
  - exact canonical_compare_total.
  - exact canonical_compare_trans.
  - exact shouted_no_ties.
  - unfold Fingerprint.same_messages. vm_compute. apply Permutation_swap.
Defined.

End Digest.
(** * The examples a batch holds *)

Module Shape.
Import BatchGenerator.

(** [well_formed ms]: the example has a user and an assistant message, at
    least two messages, and each message has one of the three roles and a
    truthy content. *)
Definition well_formed (ms : gen_example) : Prop :=
  has_role "user" ms = true
  /\ has_role "assistant" ms = true
  /\ (2 <= length ms)%nat
  /\ Forall (fun m => (g_role m = "user" \/ g_role m = "assistant" \/ g_role m = "system")%string
                      /\ Json.truthy (g_content m) = true) ms.

Lemma keep_message_kept rc m :
  keep_message rc = Some m ->
  (g_role m = "user" \/ g_role m = "assistant" \/ g_role m = "system")%string
  /\ Json.truthy (g_content m) = true.
Proof.
  unfold keep_message, valid_role. destruct (Json.truthy (snd rc)) eqn:Ht; [|done].
  destruct (fst rc) as [| | |s| |]; try done.
  destruct (decide _) as [Hr|]; [|done]. intros [= <-]. by split.
Qed.

Lemma omap_keep_message rcs :
  Forall (fun m => (g_role m = "user" \/ g_role m = "assistant" \/ g_role m = "system")%string
                   /\ Json.truthy (g_content m) = true) (omap keep_message rcs).
Proof.
  induction rcs as [|rc r IH]; [constructor|]. cbn [omap list_omap].
  destruct (keep_message rc) as [m|] eqn:E; [|exact IH].
  constructor; [by eapply keep_message_kept|exact IH].
Qed.

Lemma validate_example_well_formed ex v :
  validate_example ex = Some v -> Forall well_formed v.
Proof.
  unfold validate_example. destruct (Json.truthy ex); [|by intros [= <-]].
  destruct (Json.field "messages" ex) as [[| | | |msgs|]|]; try by intros [= <-].
  destruct (mapM normalize_message msgs) as [rcs|]; [|done].
  destruct (has_role "user" _) eqn:Hu; [|by intros [= <-]].
  destruct (has_role "assistant" _) eqn:Ha; [|by intros [= <-]].
  destruct (2 <=? _)%nat eqn:Hl; intros [= <-]; constructor; [|constructor].
  apply Nat.leb_le in Hl. repeat split; try done. apply omap_keep_message.
Qed.

Lemma validate_all_well_formed examples v :
  validate_all examples = Some v -> Forall well_formed v.
Proof.
  revert v. induction examples as [|ex r IH]; intros v; simpl.
  - by intros [= <-].
  - destruct (validate_example ex) as [v1|] eqn:E1; [|done].
    destruct (validate_all r) as [vs|]; [|done]. intros [= <-].
    apply Forall_app. split; [by eapply validate_example_well_formed|by apply IH].
Qed.

Lemma truthy_app c r s : JS.truthy (String c r +:+ s) = true.
Proof. reflexivity. Qed.

Lemma truthy_app_r a c r : JS.truthy (a +:+ String c r) = true.
Proof. by destruct a. Qed.

Lemma question_template i :
  exists c before after, nth_error questions (i mod 5) = Some (String c before, after).
Proof.
  pose proof (Nat.mod_upper_bound i 5 ltac:(lia)) as Hi.
  destruct (i mod 5)%nat as [|[|[|[|[|k]]]]]; [by eexists _, _, _..|lia].
Qed.

Lemma fallback_example_well_formed title description i :
  well_formed (to_gen (fallback_example title description i)).
Proof.
  unfold to_gen, fallback_example. cbn [messages map role content].
  split; [done|]. split; [done|]. split; [simpl; lia|].
  constructor; [|constructor; [|constructor]]; cbn [g_role g_content Json.truthy].
  - split; [by left|]. unfold question.
    destruct (question_template i) as (c & before & after & ->). apply truthy_app.
  - split; [right; by left|]. apply truthy_app_r.
Qed.

Section Reading.
Variable JSON_parse : string -> option json.
Variable strip_code_fence : string -> string.
Variable match_json_array : string -> option string.
Variable split_concatenated : string -> string.

Local Abbreviation generateBatch :=
  (generateBatch JSON_parse strip_code_fence match_json_array split_concatenated).

(** X5: whatever the provider answers, every example [generateBatch] returns
    has a user message and an assistant message, at least two messages,
    and only messages with one of the three roles and a truthy content;
    this holds for the examples read from the answer and for the fallback
    examples. *)
Theorem generateBatch_well_formed title description count fetched :
  Forall well_formed (generateBatch title description count fetched).
Proof.
  unfold BatchGenerator.generateBatch, try_generate.
  destruct (provider_examples _ _ _ _ fetched) as [examples|].
  - destruct (validate_all examples) as [v|] eqn:Ev; [by eapply validate_all_well_formed|].
    apply Forall_fmap, Forall_fmap, Forall_forall. intros i _.
    apply fallback_example_well_formed.
  - apply Forall_fmap, Forall_fmap, Forall_forall. intros i _.
    apply fallback_example_well_formed.
Qed.

End Reading.

(** ** The questions of the fallback generator *)

(** [no_dollar s]: [s] holds no dollar sign. *)
Fixpoint no_dollar (s : string) : bool :=
  match s with
  | EmptyString => true
  | String c r => negb (JS.code c =? 36) && no_dollar r
  end.

Lemma expand_replacement_plain matched before after repl :
  no_dollar repl = true -> expand_replacement matched before after repl = repl.
Proof.
  induction repl as [|c r IH]; [done|]. cbn [no_dollar expand_replacement].
  intros [Hc Hr]%andb_true_iff. apply negb_true_iff in Hc. rewrite Hc. by rewrite IH.
Qed.

(** X6: for a title without a dollar sign, the [i]-th fallback example is
    the user question made of the template number [i mod 5] with the title
    in the place of [{topic}], followed by the assistant answer built from
    the description and the title. *)
Theorem fallback_question_plain title description count :
  no_dollar title = true ->
  forall i e,
    generateFallbackExamples title description count !! i = Some e ->
    exists before after,
      questions !! (i mod 5)%nat = Some (before, after)
      /\ messages e
         = [ {| role := "user"; content := before +:+ title +:+ after |};
             {| role := "assistant";
                content := description +:+ " This is what " +:+ title +:+ " is about." |} ].
Proof.
  intros Hplain i e He. unfold generateFallbackExamples in He.
  apply list_lookup_fmap_Some in He as (k & -> & Hk).
  apply lookup_seq in Hk as [-> _]. cbn [Nat.add].
  unfold fallback_example, question. cbn [messages].
  destruct (question_template i) as (c & before & after & Hq). rewrite Hq.
  exists (String c before), after. split.
  - rewrite <- Hq. clear. generalize (i mod 5)%nat. intros n.
    revert n. generalize questions. induction l as [|x l IH]; intros [|n]; simpl; try done.
  - by rewrite expand_replacement_plain.
Qed.

Lemma fallback_question_plain_witness :
  no_dollar "Greetings" = true
  /\ forall i e,
    generateFallbackExamples "Greetings" "Short greetings." 7 !! i = Some e ->
    exists before after,
      questions !! (i mod 5)%nat = Some (before, after)
      /\ messages e
         = [ {| role := "user"; content := before +:+ "Greetings" +:+ after |};
             {| role := "assistant";
                content := "Short greetings." +:+ " This is what " +:+ "Greetings"
                           +:+ " is about." |} ].
Proof.
  split; [reflexivity|].
  apply (fallback_question_plain "Greetings" "Short greetings." 7). reflexivity.
Defined.

(** A title with a replacement pattern is not copied as it is: [$&] stands
    for the text matched. *)
Example fallback_question_pattern :
  (content <$> (generateFallbackExamples "$&" "d" 1 !! 0%nat ≫= fun e => messages e !! 0%nat))
  = Some "What is {topic}?"%string.
Proof. reflexivity. Qed.

End Shape.
(** * Further properties of the generation runner *)

Module Workload.
Import Eff Runner.

Section Facts.
Variable toLowerCase : string -> string.
Variable localeCompare : string -> string -> Z.
Variable JSON_parse : string -> option json.
Variable db_fault : nat -> option string.
Variable generate : nat -> Z -> list example.
Variable api_key : option string.
Variable existing_contents : list string.
Variable record_not_found : string.

Local Abbreviation hash := (hash toLowerCase localeCompare).
Local Abbreviation dedup := (dedup toLowerCase localeCompare).
Local Abbreviation dedup_upto := (dedup_upto toLowerCase localeCompare).
Local Abbreviation retry := (retry toLowerCase localeCompare generate).
Local Abbreviation batch_body :=
  (batch_body toLowerCase localeCompare db_fault generate record_not_found).
Local Abbreviation batches :=
  (batches toLowerCase localeCompare db_fault generate record_not_found).
Local Abbreviation finish := (finish JSON_parse db_fault record_not_found).
Local Abbreviation update := (update db_fault record_not_found).
Local Abbreviation findUnique := (findUnique db_fault).
Local Abbreviation getAllExistingExampleHashes :=
  (getAllExistingExampleHashes toLowerCase localeCompare JSON_parse db_fault existing_contents).
Local Abbreviation process_body :=
  (process_body toLowerCase localeCompare JSON_parse db_fault generate api_key
     existing_contents record_not_found).
Local Abbreviation on_error := (on_error db_fault record_not_found).
Local Abbreviation processGenerationJob :=
  (processGenerationJob toLowerCase localeCompare JSON_parse db_fault generate api_key
     existing_contents record_not_found).

(** ** The two loops over the examples of a call *)

(** Every example kept comes from the list given or was there before. *)
Lemma dedup_kept X examples unique current :
  let unique' := fst (dedup X examples unique current) in
  (length unique' <= length unique + length examples)%nat
  /\ forall e, e ∈ unique' -> e ∈ unique \/ e ∈ examples.
Proof.
  revert unique current. induction examples as [|ex r IH]; intros unique current; simpl.
  - split; [lia|]. by left.
  - destruct (bool_decide _ || bool_decide _).
    + destruct (IH unique current) as [Hlen Hin]. split; [lia|].
      intros e He. destruct (Hin e He); [by left|right; by right].
    + destruct (IH (unique ++ [ex]) ({[hash ex]} ∪ current)) as [Hlen Hin].
      rewrite length_app in Hlen. simpl in Hlen. split; [lia|].
      intros e He. destruct (Hin e He) as [[?| ->%list_elem_of_singleton]%elem_of_app|?].
      * by left.
      * right; by left.
      * right; by right.
Qed.

(** The second loop stops as soon as [batchCount] examples are there. *)
Lemma dedup_upto_kept X batchCount examples unique current :
  Z.of_nat (length unique) < batchCount ->
  let unique' := fst (dedup_upto X batchCount examples unique current) in
  Z.of_nat (length unique') <= batchCount
  /\ forall e, e ∈ unique' -> e ∈ unique \/ e ∈ examples.
Proof.
  revert unique current. induction examples as [|ex r IH]; intros unique current Hlt; simpl.
  - split; [lia|]. by left.
  - destruct (bool_decide _ || bool_decide _).
    + destruct (IH unique current Hlt) as [Hlen Hin]. split; [done|].
      intros e He. destruct (Hin e He); [by left|right; by right].
    + destruct (Z.leb_spec batchCount (Z.of_nat (length (unique ++ [ex])))) as [Hge|Hlt'].
      * simpl. rewrite length_app in *. simpl in *. split; [lia|].
        intros e [?| ->%list_elem_of_singleton]%elem_of_app; [by left|right; by left].
      * destruct (IH (unique ++ [ex]) ({[hash ex]} ∪ current) Hlt') as [Hlen Hin].
        split; [done|].
        intros e He. destruct (Hin e He) as [[?| ->%list_elem_of_singleton]%elem_of_app|?].
        -- by left.
        -- right; by left.
        -- right; by right.
Qed.

(** ** What a run asks of the provider and what it keeps *)

(** [e] is an example some call of [generateBatch] returned. *)
Definition generated (e : example) : Prop := exists k count, e ∈ generate k count.

(** The provider never returns more examples than it is asked for. *)
Definition disciplined : Prop :=
  forall k count, 0 < count -> Z.of_nat (length (generate k count)) <= count.

(** [work c n s]: at most [c] calls were made, every example accumulated
    was generated, and, with a disciplined provider, at most [n] examples
    were accumulated. *)
Definition work (c : nat) (n : Z) (s : state) : Prop :=
  (calls s <= c)%nat
  /\ Forall generated (allExamples s)
  /\ (disciplined -> Z.of_nat (length (allExamples s)) <= n).

Lemma retry_work k X batchCount unique s :
  wp (retry k X batchCount unique)
     (fun unique' s' =>
        (calls s' <= calls s + k)%nat
        /\ allExamples s' = allExamples s
        /\ (Forall generated unique -> Forall generated unique')
        /\ (Z.of_nat (length unique) <= batchCount -> Z.of_nat (length unique') <= batchCount))
     (fun _ _ => False) s.
Proof.
  revert unique s. induction k as [|k IH]; intros unique s.
  { cbn. split; [lia|]. done. }
  cbn [Runner.retry].
  destruct (Z.ltb_spec (Z.of_nat (length unique)) batchCount) as [Hlt|Hge];
    [|cbn; split; [lia|done]].
  eapply wp_ok_bind; [apply run_call_generateBatch|].
  apply wp_get_bind.
  pose proof (dedup_upto_kept X batchCount
                (generate (calls s) (batchCount - Z.of_nat (length unique)))
                unique (currentJobHashes (set_calls (S (calls s)) s)) Hlt) as Hk.
  destruct (Runner.dedup_upto _ _ _ _ _ _ _) as [unique' current'] eqn:Hd.
  cbn [fst] in Hk. destruct Hk as [Hlen Hin].
  apply wp_put_bind. eapply wp_mono; [apply IH| |done].
  intros u' s' (Hc & Ha & Hg & Hl). cbn in Hc, Ha. split; [lia|]. split; [done|].
  split.
  - intros Hgu. apply Hg. apply Forall_forall. intros e He.
    destruct (Hin e He) as [?|?]; [by eapply Forall_forall in Hgu|].
    by exists (calls s), (batchCount - Z.of_nat (length unique)).
  - intros _. by apply Hl.
Qed.

(** [same_work s s']: from [s] to [s'] no call was made and no example was
    added. *)
Definition same_work (s s' : state) : Prop :=
  calls s' = calls s /\ allExamples s' = allExamples s.

Lemma update_same f s :
  wp (update f) (fun _ s' => same_work s s') (fun _ s' => same_work s s') s.
Proof.
  unfold wp. rewrite run_update. destruct (db_fault (ops s)); [done|]. by destruct (db s).
Qed.

Lemma findUnique_same s :
  wp findUnique (fun o s' => o = db s /\ same_work s s') (fun _ s' => same_work s s') s.
Proof. unfold wp. rewrite run_findUnique. by destruct (db_fault (ops s)). Qed.

Lemma getAllExistingExampleHashes_same s :
  wp getAllExistingExampleHashes (fun _ s' => same_work s s') (fun _ _ => False) s.
Proof.
  unfold wp.
  destruct (run_getAllExistingExampleHashes toLowerCase localeCompare JSON_parse db_fault
              existing_contents s) as [X ->]. done.
Qed.

Lemma on_error_same msg s :
  wp (on_error msg) (fun _ s' => same_work s s') (fun _ _ => False) s.
Proof.
  unfold wp. rewrite run_on_error. destruct (db_fault (S (ops s))); [done|]. by destruct (db s).
Qed.

Lemma finish_same s :
  wp finish (fun _ s' => same_work s s') (fun _ s' => same_work s s') s.
Proof.
  unfold Runner.finish. apply wp_get_bind.
  destruct (length _ =? 0)%nat; [by apply wp_throw|].
  destruct (negb _); [by apply wp_throw|].
  apply wp_bind. eapply wp_mono; [apply update_same| |done].
  intros d' s' Hs'. by apply wp_ret.
Qed.

Lemma work_same c n s s' : same_work s s' -> work c n s -> work c n s'.
Proof. intros [Hc Ha] (H1 & H2 & H3). unfold work. by rewrite Hc, Ha. Qed.

Lemma work_mono c c' n n' s :
  (c <= c')%nat -> n <= n' -> work c n s -> work c' n' s.
Proof. intros Hc Hn (H1 & H2 & H3). split; [lia|]. split; [done|]. intros Hd. specialize (H3 Hd). lia. Qed.

Lemma batch_body_work X job batch batchCount c n s :
  0 < batchCount -> work c n s ->
  wp (batch_body X job batch batchCount)
     (fun _ s' => work (c + 4) (n + batchCount) s')
     (fun _ s' => work (c + 4) (n + batchCount) s') s.
Proof.
  intros Hbc (Hc & Hg & Hn). unfold Runner.batch_body.
  eapply wp_ok_bind; [apply run_call_generateBatch|].
  apply wp_get_bind.
  pose proof (dedup_kept X (generate (calls s) batchCount) []
                (currentJobHashes (set_calls (S (calls s)) s))) as Hk.
  destruct (Runner.dedup _ _ _ _ _ _) as [unique current] eqn:Hd.
  cbn [fst length Nat.add] in Hk. destruct Hk as [Hlen Hin].
  apply wp_put_bind, wp_bind. eapply wp_mono; [apply retry_work| |done].
  intros unique' s' (Hc' & Ha' & Hg' & Hl'). cbn in Hc', Ha'.
  apply wp_modify_bind, wp_get_bind.
  assert (work (c + 4) (n + batchCount)
               (set_allExamples (allExamples s' ++ unique') s')) as Hw.
  { split; [cbn; unfold Runner.maxRetryAttempts in Hc'; lia|]. split.
    - cbn. rewrite Ha'. apply Forall_app. split; [done|]. apply Hg'.
      apply Forall_forall. intros e He. destruct (Hin e He) as [Hnil|?].
      + by apply elem_of_nil in Hnil.
      + by exists (calls s), batchCount.
    - intros Hdisc. cbn. rewrite Ha', length_app.
      specialize (Hn Hdisc). specialize (Hdisc (calls s) batchCount Hbc).
      assert (Z.of_nat (length unique') <= batchCount) by (apply Hl'; lia). lia. }
  apply wp_bind. eapply wp_mono; [apply update_same| |].
  - intros d' s2 Hs2. apply wp_ret. exact (work_same _ _ _ _ Hs2 Hw).
  - intros e s2 Hs2. exact (work_same _ _ _ _ Hs2 Hw).
Qed.

(** [Math.min(5, targetExamples - (batch * 5))] *)
Definition batchCount (targetExamples : Z) (batch : nat) : Z :=
  Z.min 5 (targetExamples - Z.of_nat batch * 5).

Lemma batches_work k X job targetExamples batch s :
  work (4 * batch) (Z.min (5 * Z.of_nat batch) (Z.max targetExamples 0)) s ->
  wp (batches k X job targetExamples batch)
     (fun _ s' => work (4 * (batch + k)) (Z.max targetExamples 0) s')
     (fun _ _ => False) s.
Proof.
  revert batch s. induction k as [|k IH]; intros batch s Hw.
  { apply wp_ret. eapply work_mono; [| |exact Hw]; lia. }
  cbn [Runner.batches]. fold (batchCount targetExamples batch).
  destruct (Z.leb_spec (batchCount targetExamples batch) 0) as [Hle|Hpos].
  { apply wp_ret. eapply work_mono; [| |exact Hw]; lia. }
  assert (work (4 * S batch) (Z.min (5 * Z.of_nat (S batch)) (Z.max targetExamples 0)) s
          -> True) as _ by done.
  apply wp_bind, wp_catch. eapply wp_mono; [by apply batch_body_work| |].
  - intros [] s' Hs'. replace (batch + S k)%nat with (S batch + k)%nat by lia.
    apply IH. eapply work_mono; [| |exact Hs']; unfold batchCount in *; lia.
  - intros e s' Hs'. apply wp_ret_bind.
    replace (batch + S k)%nat with (S batch + k)%nat by lia.
    apply IH. eapply work_mono; [| |exact Hs']; unfold batchCount in *; lia.
Qed.

(** [metadata.target_examples], or five examples per batch. *)
Definition targetExamples (job : dataset) : Z :=
  match ds_target_examples job with
  | Some t => t
  | None => Z.of_nat (ds_total_batches job) * 5
  end.

Lemma process_body_work d s :
  db s = Some d -> calls s = 0%nat -> allExamples s = [] ->
  wp process_body
     (fun _ s' => work (4 * ds_total_batches d) (Z.max (targetExamples d) 0) s')
     (fun _ s' => work (4 * ds_total_batches d) (Z.max (targetExamples d) 0) s') s.
Proof.
  intros Hd Hc Ha.
  assert (forall s', same_work s s' ->
            work (4 * ds_total_batches d) (Z.max (targetExamples d) 0) s') as Hstart.
  { intros s' [Hc' Ha']. split; [lia|]. rewrite Ha', Ha. split; [constructor|]. simpl. lia. }
  unfold Runner.process_body.
  apply wp_bind. unfold wp at 1. rewrite run_update.
  destruct (db_fault (ops s)) as [msg|]; [by apply Hstart|]. rewrite Hd.
  set (s1 := set_db _ _).
  apply wp_bind. unfold wp at 1. rewrite run_findUnique.
  destruct (db_fault (ops s1)) as [msg|]; [by apply Hstart|].
  cbn [s1 db set_db set_ops].
  set (s2 := set_ops _ _).
  destruct api_key as [[|c0 k0]|]; [by apply wp_throw, Hstart| |by apply wp_throw, Hstart].
  apply wp_bind. eapply wp_mono; [apply getAllExistingExampleHashes_same| |done].
  intros X s3 [Hc3 Ha3]. apply wp_modify_bind, wp_bind.
  change (ds_total_batches (mark_processing d)) with (ds_total_batches d).
  change (match ds_target_examples (mark_processing d) with
          | Some t => t
          | None => Z.of_nat (ds_total_batches d) * 5
          end) with (targetExamples d).
  eapply wp_mono; [apply batches_work| |done].
  - split; [cbn; rewrite Hc3; cbn; lia|]. cbn. rewrite Ha3. cbn. rewrite Ha.
    split; [constructor|]. simpl. lia.
  - intros [] s4 Hs4. rewrite Nat.add_0_l in Hs4.
    eapply wp_mono; [apply finish_same| |]; intros ? s5 Hs5; exact (work_same _ _ _ _ Hs5 Hs4).
Qed.

Lemma processGenerationJob_work d :
  work (4 * ds_total_batches d) (Z.max (targetExamples d) 0)
       (snd (run processGenerationJob (initial d))).
Proof.
  pose proof (process_body_work d (initial d) eq_refl eq_refl eq_refl) as H.
  unfold wp in H. unfold Runner.processGenerationJob. cbn [catch run].
  destruct (run process_body (initial d)) as [[[]|msg] s1]; [done|].
  pose proof (on_error_same msg s1) as H1. unfold wp in H1.
  destruct (run (on_error msg) s1) as [[[]|e] s2]; [|done]. exact (work_same _ _ _ _ H1 H).
Qed.


(** X7: a run calls [generateBatch] at most four times for each batch of the
    job: once, and at most three more times to make up for duplicates. *)
Theorem provider_calls_bounded d :
  (calls (snd (run processGenerationJob (initial d))) <= 4 * ds_total_batches d)%nat.
Proof. by destruct (processGenerationJob_work d) as [H _]. Qed.

(** X8: when every call of the generator returns at most the number of
    examples asked for, a run never accumulates more examples than the
    target of the job, and a completed record reports between one and that
    many examples. *)
Theorem examples_within_target d s' :
  disciplined ->
  ds_status d = Pending ->
  snd (run processGenerationJob (initial d)) = s' ->
  Z.of_nat (length (allExamples s')) <= Z.max (targetExamples d) 0
  /\ forall d', db s' = Some d' -> ds_status d' = Completed ->
       exists n, ds_num_examples d' = Some n /\ (1 <= n)%nat /\ Z.of_nat n <= targetExamples d.
Proof.
  intros Hdisc Hst <-.
  destruct (processGenerationJob_work d) as (_ & _ & Hn). specialize (Hn Hdisc).
  split; [exact Hn|]. intros d' Hd' Hdone.
  assert (alive (db (initial d))) as Hal by (exists d; by rewrite Hst).
  pose proof (processGenerationJob_spec toLowerCase localeCompare JSON_parse db_fault generate
                api_key existing_contents record_not_found (initial d) Hal eq_refl) as H.
  unfold wp in H.
  destruct (run processGenerationJob (initial d)) as [[[]|e] s']; simpl in *; [|done].
  destruct H as [[_ (d0 & Hd0 & Hv & _ & Hnum & _)]|[_ (d0 & Hd0 & Hnc)]]; [|congruence].
  assert (d0 = d') as -> by congruence.
  set (v := filter (fun ex => validates JSON_parse ex = true) (allExamples s')) in *.
  assert (length v <= length (allExamples s'))%nat by apply length_filter.
  exists (length v). split; [done|].
  assert (1 <= length v)%nat by (destruct v; [done|simpl; lia]). lia.
Qed.

(** X9: the examples a run accumulates have pairwise distinct fingerprints,
    none of them has a fingerprint of the set loaded at the start of the
    run, and each of them was returned by a call of the generator. *)
Theorem kept_examples_distinct d s' :
  ds_status d <> Completed ->
  snd (run processGenerationJob (initial d)) = s' ->
  NoDup (map hash (allExamples s'))
  /\ (forall e, e ∈ allExamples s' -> hash e ∉ existingHashes s')
  /\ Forall (fun e => exists k count, e ∈ generate k count) (allExamples s').
Proof.
  intros Hst Hs'.
  destruct (accepted_examples_unique toLowerCase localeCompare JSON_parse db_fault generate
              api_key existing_contents record_not_found d s' Hst Hs') as [Hnd Hnew].
  destruct (processGenerationJob_work d) as (_ & Hg & _). rewrite Hs' in Hg.
  by repeat split.
Qed.

(** X10: when every call of the generator falls back to the template
    examples, a run accumulates at most five examples whatever the target:
    the templates repeat with period five and a repeated example is
    dropped as a duplicate. *)
Theorem fallback_run_keeps_five title description d s' :
  (forall k count,
     generate k count
     = BatchGenerator.generateFallbackExamples title description (Z.to_nat count)) ->
  ds_status d <> Completed ->
  snd (run processGenerationJob (initial d)) = s' ->
  (length (allExamples s') <= 5)%nat.
Proof.
  intros Hgen Hst Hs'.
  destruct (accepted_examples_unique toLowerCase localeCompare JSON_parse db_fault generate
              api_key existing_contents record_not_found d s' Hst Hs') as [Hnd _].
  destruct (processGenerationJob_work d) as (_ & Hg & _). rewrite Hs' in Hg.
  apply NoDup_fmap_1 in Hnd.
  change 5%nat with (length (map (BatchGenerator.fallback_example title description) (seq 0 5))).
  apply submseteq_length, NoDup_submseteq; [done|].
  intros e He. eapply Forall_forall in Hg; [|exact He].
  destruct Hg as (k & count & Hin). rewrite Hgen in Hin.
  unfold BatchGenerator.generateFallbackExamples in Hin.
  apply list_elem_of_fmap in Hin as (i & -> & _).
  apply list_elem_of_fmap. exists (i mod 5)%nat. split.
  - unfold BatchGenerator.fallback_example, BatchGenerator.question.
    by rewrite Nat.Div0.mod_mod.
  - apply elem_of_seq. pose proof (Nat.mod_upper_bound i 5). lia.
Qed.

(** X11: without an API key (none configured, or an empty one) and with a
    store that raises no error, the run ends normally with the record
    marked failed with the message [OPENAI_API_KEY not configured], and the
    generator is never called. *)
Theorem missing_key_fails d :
  (forall k, db_fault k = None) ->
  FineTune.truthy_str api_key = None ->
  exists s',
    run processGenerationJob (initial d) = (Ok tt, s')
    /\ db s' = Some (mark_failed "OPENAI_API_KEY not configured" (mark_processing d))
    /\ calls s' = 0%nat.
Proof.
  intros Hok Hkey. eexists.
  unfold Runner.processGenerationJob, Runner.process_body. cbn [catch run].
  unfold mbind at 1, M_bind at 1. cbn [run]. rewrite run_update, Hok. cbn [initial db].
  unfold mbind at 1, M_bind at 1. cbn [run]. rewrite run_findUnique. cbn [ops set_db set_ops].
  rewrite Hok. cbn [db set_db set_ops].
  destruct api_key as [[|c0 k0]|]; [|done|];
    (cbn [throw run]; rewrite run_on_error; cbn [ops set_ops db]; rewrite Hok;
     split; [reflexivity|]; split; reflexivity).
Qed.

End Facts.

(** ** Sample runs *)

(** The batches of the sample run, cut to the number asked for. *)
Definition tidy_batches (k : nat) (count : Z) : list example :=
  take (Z.to_nat count) (scenario_batches k count).

Definition tidy_parse : string -> option json :=
  parse_examples (scenario_batches 0 5 ++ scenario_batches 1 5 ++ scenario_batches 2 2).

Definition tidy_run : outcome unit * state :=
  run (processGenerationJob Platform.ascii_toLowerCase Platform.codeunit_compare tidy_parse
         no_fault tidy_batches (Some "sk-test"%string) [] not_found)
      (initial scenario_job).

Lemma tidy_batches_disciplined : disciplined tidy_batches.
Proof. intros k count Hc. unfold tidy_batches. rewrite length_take. lia. Qed.

Lemma examples_within_target_witness :
  Z.of_nat (length (allExamples (snd tidy_run))) <= Z.max (targetExamples scenario_job) 0
  /\ forall d', db (snd tidy_run) = Some d' -> ds_status d' = Completed ->
       exists n, ds_num_examples d' = Some n /\ (1 <= n)%nat
                 /\ Z.of_nat n <= targetExamples scenario_job.
Proof.
  apply (examples_within_target Platform.ascii_toLowerCase Platform.codeunit_compare tidy_parse
           no_fault tidy_batches (Some "sk-test"%string) [] not_found scenario_job
           (snd tidy_run)).
  - exact tidy_batches_disciplined.
  - reflexivity.
  - reflexivity.
Defined.

Lemma kept_examples_distinct_witness :
  NoDup (map (hash Platform.ascii_toLowerCase Platform.codeunit_compare)
             (allExamples (snd tidy_run)))
  /\ (forall e, e ∈ allExamples (snd tidy_run) ->
        hash Platform.ascii_toLowerCase Platform.codeunit_compare e
        ∉ existingHashes (snd tidy_run))
  /\ Forall (fun e => exists k count, e ∈ tidy_batches k count) (allExamples (snd tidy_run)).
Proof.
  apply (kept_examples_distinct Platform.ascii_toLowerCase Platform.codeunit_compare tidy_parse
           no_fault tidy_batches (Some "sk-test"%string) [] not_found scenario_job
           (snd tidy_run)).
  - discriminate.
  - reflexivity.
Defined.

Definition fallback_only (k : nat) (count : Z) : list example :=
  BatchGenerator.generateFallbackExamples "Greetings" "Short greetings" (Z.to_nat count).

(** [JSON.parse] on the serialisations of the fallback examples. *)
Definition fallback_parse : string -> option json :=
  parse_examples (BatchGenerator.generateFallbackExamples "Greetings" "Short greetings" 5).

Definition fallback_run : outcome unit * state :=
  run (processGenerationJob Platform.ascii_toLowerCase Platform.codeunit_compare
         fallback_parse no_fault fallback_only (Some "sk-test"%string) [] not_found)
      (initial scenario_job).

(** The run asks for ten examples, keeps the five templates and completes
    with them. *)
Example fallback_run_completes :
  (ds_status <$> db (snd fallback_run)) = Some Completed
  /\ (ds_num_examples <$> db (snd fallback_run)) = Some (Some 5%nat)
  /\ length (allExamples (snd fallback_run)) = 5%nat
  /\ calls (snd fallback_run) = 5%nat.
Proof. vm_compute. repeat split; reflexivity. Qed.

Lemma fallback_run_keeps_five_witness :
  (length (allExamples (snd fallback_run)) <= 5)%nat.
Proof.
  apply (fallback_run_keeps_five Platform.ascii_toLowerCase Platform.codeunit_compare
           fallback_parse no_fault fallback_only (Some "sk-test"%string) [] not_found
           "Greetings" "Short greetings" scenario_job (snd fallback_run)).
  - intros k count. reflexivity.
  - discriminate.
  - reflexivity.
Defined.

Lemma missing_key_fails_witness :
  exists s',
    run (processGenerationJob Platform.ascii_toLowerCase Platform.codeunit_compare tidy_parse
           no_fault tidy_batches None [] not_found) (initial scenario_job) = (Ok tt, s')
    /\ db s' = Some (mark_failed "OPENAI_API_KEY not configured" (mark_processing scenario_job))
    /\ calls s' = 0%nat.
Proof.
  apply (missing_key_fails Platform.ascii_toLowerCase Platform.codeunit_compare tidy_parse
           no_fault tidy_batches None [] not_found scenario_job).
  - intros k. reflexivity.
  - reflexivity.
Defined.

End Workload.
(** * The batch plan of a generation job *)

Module Plan.
Import Runner.

(** [Math.ceil(n / 5)] is the least number of fives that covers [n]. *)
Lemma ceil_div_5 n :
  0 < n < 2 ^ 32 -> Qceiling (Num.fdiv (Num.of_Z n) (Num.of_Z 5)) = (n + 4) / 5.
Proof.
  intros [Hn0 Hn]. rewrite !Num.of_Z_int by lia. unfold Num.fdiv, Num.b64.
  replace (Qnum (inject_Z n / inject_Z 5)) with n
    by (unfold Qdiv, Qinv, Qmult; simpl; lia).
  replace (Qden (inject_Z n / inject_Z 5)) with 5%positive
    by (unfold Qdiv, Qinv, Qmult; simpl; lia).
  destruct (Z.compare_spec n 0) as [?|?|_]; [lia|lia|].
  unfold Num.round_pos.
  assert (Num.ilog2 n 5 <= 29) as He.
  { unfold Num.ilog2. change (Z.log2 5) with 2.
    assert (Z.log2 n < 32) by (apply Z.log2_lt_pow2; lia).
    destruct (Num.scale _ n 5) as [a b]. destruct (b <=? a); lia. }
  set (k := 52 - Num.ilog2 n 5) in *.
  rewrite Num.scale_nonneg by lia.
  assert (2 ^ 23 <= 2 ^ k) as HP by (apply Z.pow_le_mono_r; lia).
  set (P := 2 ^ k) in *. set (c := (n + 4) / 5).
  assert (5 * c - 4 <= n <= 5 * c) as Hc.
  { subst c. pose proof (Z.div_mod (n + 4) 5 ltac:(lia)).
    pose proof (Z.mod_pos_bound (n + 4) 5 ltac:(lia)). lia. }
  pose proof (Z.div_mod (n * P) 5 ltac:(lia)) as Hdm.
  pose proof (Z.mod_pos_bound (n * P) 5 ltac:(lia)) as Hr.
  set (m := n * P / 5) in *. set (r := (n * P) mod 5) in *.
  set (m' := if 2 * r <? 5 then m else _).
  assert ((c - 1) * P < m' <= c * P) as Hm'.
  { assert ((c - 1) * P < m) by nia.
    assert (r = 0 /\ m' = m \/ 0 < r /\ m <= m' <= m + 1) as [[Hr0 ->]|[Hr1 Hmm]].
    { subst m'. destruct (Z.eq_dec r 0) as [->|Hne]; [left; by split|right].
      split; [lia|]. destruct (_ <? 5); [lia|]. destruct (5 <? _); [lia|].
      destruct (Z.even m); lia. }
    - nia.
    - nia. }
  clearbody m'. rewrite Num.scale_neg by lia. replace (- - k) with k by lia. fold P.
  rewrite Z.mul_1_l. rewrite (Qceiling_comp _ _ (Qred_correct _)).
  unfold Qceiling, Qfloor. simpl. rewrite Z2Pos.id by lia.
  assert (- m' / P = - c); [|lia].
  symmetry. apply (Z.div_unique_pos _ _ _ (c * P - m')); lia.
Qed.

(** The sizes of the first [k] batches add up to five each while the
    target is not reached. *)
Lemma batch_sizes_full n k :
  5 * Z.of_nat k <= n ->
  foldr Z.add 0 (map (Workload.batchCount n) (seq 0 k)) = 5 * Z.of_nat k.
Proof.
  induction k as [|k IH]; intros Hk; [done|].
  rewrite seq_S, map_app, foldr_app. simpl.
  assert (forall l a, foldr Z.add a l = foldr Z.add 0 l + a) as Hsum.
  { induction l as [|x l IHl]; intros a; simpl; [lia|]. rewrite IHl. lia. }
  rewrite Hsum, IH by lia. unfold Workload.batchCount. lia.
Qed.

(** X12: for a request of between 1 and 100000 examples the job created has
    the least number of batches of five that covers the request, its
    target is the number requested, every batch of the plan asks for
    between one and five examples, and the sizes of the batches add up to
    the number requested. *)
Theorem batch_plan title description dataset_type numExamples :
  1 <= numExamples <= 100000 ->
  let job := new_job title description dataset_type numExamples in
  Z.of_nat (ds_total_batches job) = (numExamples + 4) / 5
  /\ Workload.targetExamples job = numExamples
  /\ (forall batch, (batch < ds_total_batches job)%nat ->
        1 <= Workload.batchCount numExamples batch <= 5)
  /\ foldr Z.add 0 (map (Workload.batchCount numExamples) (seq 0 (ds_total_batches job)))
     = numExamples.
Proof.
  intros Hn. cbv zeta. cbn [ds_total_batches new_job].
  rewrite ceil_div_5 by lia.
  set (c := (numExamples + 4) / 5).
  assert (5 * c - 4 <= numExamples <= 5 * c) as Hc.
  { subst c. pose proof (Z.div_mod (numExamples + 4) 5 ltac:(lia)).
    pose proof (Z.mod_pos_bound (numExamples + 4) 5 ltac:(lia)). lia. }
  assert (1 <= c) by lia.
  split; [lia|]. split; [reflexivity|]. split.
  - intros batch Hb. unfold Workload.batchCount. lia.
  - replace (Z.to_nat c) with (S (Z.to_nat (c - 1))) by lia.
    rewrite seq_S, map_app, foldr_app. simpl.
    assert (forall l a, foldr Z.add a l = foldr Z.add 0 l + a) as Hsum.
    { induction l as [|x l IHl]; intros a; simpl; [lia|]. rewrite IHl. lia. }
    rewrite Hsum, batch_sizes_full by lia. unfold Workload.batchCount. lia.
Qed.

Lemma batch_plan_witness :
  let job := new_job "Greetings" "Short greetings" "chat" 12 in
  Z.of_nat (ds_total_batches job) = (12 + 4) / 5
  /\ Workload.targetExamples job = 12
  /\ (forall batch, (batch < ds_total_batches job)%nat ->
        1 <= Workload.batchCount 12 batch <= 5)
  /\ foldr Z.add 0 (map (Workload.batchCount 12) (seq 0 (ds_total_batches job))) = 12.
Proof.
  apply (batch_plan "Greetings" "Short greetings" "chat" 12). lia.
Defined.

End Plan.
(** * Further properties of the fine-tune job handlers *)

Module Lifecycle.
Import Eff FineTune.

(** What [fetch] gives for a cancellation: an error, or a response with a
    status code and a body; the body is [None] when it does not parse. *)
Inductive cancel_reply :=
| CancelError (msg : string)
| CancelReply (code : Z) (body : option json).

(** [reply] is a confirmation of the provider. *)
Definition confirmed (reply : cancel_reply) : Prop :=
  match reply with
  | CancelReply 200 _ => True
  | _ => False
  end.

(** [reply] carries a report of the provider on the job. *)
Definition reports (reply : status_reply) : Prop :=
  match reply with
  | StatusReply 200 (Some _) => True
  | _ => False
  end.

Section Requests.
Variable db_fault : nat -> option string.
Variable api_key : option string.
Variable store_error : string.
Variable json_error : string.
Variable type_error : string.

Local Abbreviation db_op := (db_op db_fault).
Local Abbreviation find_job := (find_job db_fault).
Local Abbreviation find_bot := (find_bot db_fault).
Local Abbreviation update_job := (update_job db_fault store_error).
Local Abbreviation update_bot := (update_bot db_fault store_error).
Local Abbreviation create_job := (create_job db_fault store_error).
Local Abbreviation submit := (submit db_fault store_error json_error type_error).
Local Abbreviation POST := (POST db_fault api_key store_error json_error type_error).
Local Abbreviation reconcile := (reconcile db_fault store_error).
Local Abbreviation GET := (GET db_fault api_key store_error).
Local Abbreviation derive_bot := (derive_bot db_fault store_error).
Local Abbreviation derive_bot_unfinished := (derive_bot_unfinished db_fault store_error).

(** ** Cancellation: [POST /api/fine-tune/jobs/[job_id]/cancel] *)

(** The handler.  On a status other than 200 the body is read: a body that
    does not parse, or that is [null], makes the handler throw. *)
Definition cancel (job_id : string) (reply : cancel_reply) : M world api_response :=
  catch
    (job ← find_job job_id;
     match job with
     | None => mret (ERROR "FINE_TUNE_JOB_NOT_FOUND")
     | Some j =>
         match truthy_str (j_openai_job_id j) with
         | None => mret (ERROR "OPENAI_JOB_ID_MISSING")
         | Some _ =>
             match truthy_str api_key with
             | None => mret (ERROR "OPENAI_API_KEY_NOT_CONFIGURED")
             | Some _ =>
                 catch
                   (match reply with
                    | CancelError msg => throw msg
                    | CancelReply code body =>
                        if negb (code =? 200) then
                          match body with
                          | None => throw json_error
                          | Some JNull => throw type_error
                          | Some _ => mret (ERROR "CANCEL_JOB_FAILED")
                          end
                        else
                          updatedJob ← update_job job_id (set_job_status_error "cancelled" None);
                          update_bot (j_bot_id j) (set_bot_status "inactive");;
                          mret (SUCCESS (Some updatedJob))
                    end)
                   (fun _ => mret (ERROR "INTERNAL_ERROR"))
             end
         end
     end)
    (fun _ => mret (ERROR "INTERNAL_ERROR")).

(** X13: when the provider confirms the cancellation (status 200) of a
    stored job that has a provider id, with a key configured, the bot of
    the job stored and no store error, the handler answers with the job,
    the job is stored with status [cancelled] and otherwise unchanged, and
    its bot is set to [inactive]. *)
Theorem cancel_confirmed job_id body w j b :
  (forall k, db_fault k = None) ->
  jobs w !! job_id = Some j ->
  is_Some (truthy_str (j_openai_job_id j)) ->
  is_Some (truthy_str api_key) ->
  bots w !! j_bot_id j = Some b ->
  exists j' w',
    run (cancel job_id (CancelReply 200 body)) w = (Ok (SUCCESS (Some j')), w')
    /\ j' = set_job_status_error "cancelled" None j
    /\ j_status j' = "cancelled"%string
    /\ jobs w' = <[job_id := j']> (jobs w)
    /\ bots w' = <[j_bot_id j := set_bot_status "inactive" b]> (bots w).
Proof.
  intros Hok Hj [oid Hoid] [key Hkey] Hb.
  set (j1 := set_job_status_error "cancelled" None j).
  set (Q := fun (r : api_response) (w' : world) =>
              r = SUCCESS (Some j1)
              /\ jobs w' = <[job_id := j1]> (jobs w)
              /\ bots w' = <[j_bot_id j := set_bot_status "inactive" b]> (bots w)).
  assert (wp (cancel job_id (CancelReply 200 body)) Q (fun _ _ => False) w) as H.
  { unfold cancel. apply wp_catch.
    eapply wp_ok_bind; [rewrite run_find_job; by rewrite Hok|]. rewrite Hj, Hoid, Hkey.
    apply wp_catch. change (negb (200 =? 200)) with false. cbv iota.
    eapply wp_ok_bind; [rewrite run_update_job; cbn [bump jobs bots ops]; by rewrite Hok, Hj|].
    eapply wp_ok_bind; [rewrite run_update_bot; cbn [bump jobs bots ops]; by rewrite Hok, Hb|].
    apply wp_ret. by split. }
  unfold wp in H.
  destruct (run (cancel job_id (CancelReply 200 body)) w) as [[r|e] w']; [|done].
  destruct H as (-> & Hjobs & Hbots). exists j1, w'. by repeat split.
Qed.

(** X14: when the provider does not confirm the cancellation (the call
    fails, or the status is not 200), the handler answers an error and
    writes nothing: the store has seen the one read of the job and nothing
    else. *)
Theorem cancel_unconfirmed job_id reply w :
  ~ confirmed reply ->
  exists code,
    run (cancel job_id reply) w = (Ok (ERROR code), bump w).
Proof.
  intros Hno. unfold cancel. cbn [catch run].
  unfold mbind at 1, M_bind at 1. cbn [run]. rewrite run_find_job.
  destruct (db_fault (ops w)); [by eexists|].
  destruct (jobs w !! job_id) as [j|]; [|by eexists].
  destruct (truthy_str (j_openai_job_id j)); [|by eexists].
  destruct (truthy_str api_key); [|by eexists].
  destruct reply as [msg|code body]; [by eexists|].
  destruct (Z.eqb_spec code 200) as [->|Hne]; [by destruct Hno|].
  cbn [negb]. destruct body as [[]|]; by eexists.
Qed.

(** ** Status queries that bring no report *)

(** X15: a status query for which the provider gives no report (the call
    fails, the status is not 200, or the body cannot be read) writes
    nothing to the store; unless the store itself fails, the answer is the
    job as stored, or [FINE_TUNE_JOB_NOT_FOUND] when there is none. *)
Theorem query_without_report job_id now reply w :
  ~ reports reply ->
  exists r,
    run (GET job_id now reply) w = (Ok r, bump w)
    /\ (db_fault (ops w) = None ->
        r = match jobs w !! job_id with
            | Some j => SUCCESS (Some j)
            | None => ERROR "FINE_TUNE_JOB_NOT_FOUND"
            end).
Proof.
  intros Hno. unfold FineTune.GET. cbn [catch run].
  unfold mbind at 1, M_bind at 1. cbn [run]. rewrite run_find_job.
  destruct (db_fault (ops w)); [by eexists|].
  destruct (jobs w !! job_id) as [j|]; [|by eexists].
  destruct (truthy_str (j_openai_job_id j)); [|by eexists].
  destruct (truthy_str api_key); [|by eexists].
  destruct reply as [msg|code [oj|]]; [by eexists| |].
  - destruct (Z.eqb_spec code 200) as [->|Hne]; [by destruct Hno|].
    unfold FineTune.reconcile. rewrite (proj2 (Z.eqb_neq code 200) Hne). by eexists.
  - unfold FineTune.reconcile. destruct (code =? 200); by eexists.
Qed.

(** ** What a report leaves in the job *)

Section Mirror.
Variable job_id : string.
Variable P : job -> Prop.

(** The job is stored and satisfies [P]. *)
Definition job_is (w : world) : Prop :=
  exists j, jobs w !! job_id = Some j /\ P j.

Lemma db_op_job w :
  job_is w -> wp db_op (fun _ w' => job_is w') (fun _ w' => job_is w') w.
Proof. intros H. eapply wp_run; [apply run_db_op|]. by destruct (db_fault (ops w)). Qed.

Lemma find_job_job id w :
  job_is w -> wp (find_job id) (fun _ w' => job_is w') (fun _ w' => job_is w') w.
Proof. intros H. eapply wp_run; [apply run_find_job|]. by destruct (db_fault (ops w)). Qed.

Lemma update_bot_job id f w :
  job_is w -> wp (update_bot id f) (fun _ w' => job_is w') (fun _ w' => job_is w') w.
Proof.
  intros H. eapply wp_run; [apply run_update_bot|].
  destruct (db_fault (ops w)); [done|]. by destruct (bots w !! id).
Qed.

Lemma update_job_job id f w :
  (forall j, P j -> P (f j)) ->
  job_is w -> wp (update_job id f) (fun _ w' => job_is w') (fun _ w' => job_is w') w.
Proof.
  intros Hf H. eapply wp_run; [apply run_update_job|].
  destruct (db_fault (ops w)); [done|].
  destruct (jobs w !! id) as [j|] eqn:Hj; [|done].
  destruct H as (j' & Hj' & HP).
  destruct (decide (id = job_id)) as [->|Hne].
  - exists (f j). cbn. rewrite lookup_insert_eq. split; [done|]. apply Hf. by simplify_eq.
  - exists j'. cbn. by rewrite lookup_insert_ne.
Qed.

Lemma derive_bot_job j oj w :
  (forall M j', is_status (oj_status oj) "succeeded" = true -> reported_model oj = Some M ->
                P j' -> P (set_job_model M j')) ->
  job_is w ->
  wp (derive_bot j oj) (fun _ w' => job_is w') (fun _ w' => job_is w') w.
Proof.
  intros HM H. unfold FineTune.derive_bot.
  assert (forall w, job_is w ->
            wp (derive_bot_unfinished j oj) (fun _ w' => job_is w') (fun _ w' => job_is w') w)
    as Hun.
  { clear w H. intros w H. unfold FineTune.derive_bot_unfinished.
    assert (forall s,
              wp (update_bot (j_bot_id j) (set_bot_status s) ≫= λ _, mret ())
                 (fun _ w' => job_is w') (fun _ w' => job_is w') w) as Hset.
    { intros s. apply wp_bind. eapply wp_mono; [apply update_bot_job; exact H| |].
      - intros ? w' Hw'. apply wp_ret. exact Hw'.
      - intros ? w' Hw'. exact Hw'. }
    destruct (is_status (oj_status oj) "failed"); [apply Hset|].
    destruct (is_status (oj_status oj) "cancelled"); [apply Hset|].
    destruct (_ || _); [apply Hset|]. apply wp_ret. exact H. }
  assert (forall w, job_is w ->
            wp (catch db_op (λ _, mret ())) (fun _ w' => job_is w') (fun _ w' => job_is w') w)
    as Hdb.
  { clear w H. intros w H. apply wp_catch. eapply wp_mono; [apply db_op_job; exact H| |].
    - intros ? w' Hw'. exact Hw'.
    - intros e w' Hw'. apply wp_ret. exact Hw'. }
  destruct (is_status (oj_status oj) "succeeded") eqn:Hs; [|by apply Hun].
  destruct (reported_model oj) as [m|] eqn:Hm; [|by apply Hun].
  apply wp_bind. eapply wp_mono; [apply update_bot_job; exact H| |intros ? ? Hw; exact Hw].
  intros ? w1 H1. apply wp_bind.
  destruct (truthy_str (j_parent_job_id j)) as [parent|].
  - apply wp_catch, wp_bind.
    eapply wp_mono; [apply update_job_job; [|exact H1]| |].
    + intros j' Hj'. by apply HM.
    + intros ? w2 H2. apply wp_bind.
      eapply wp_mono; [apply find_job_job; exact H2| |].
      * intros r w3 H3. apply wp_ret. by apply Hdb.
      * intros e w3 H3. apply wp_ret. by apply Hdb.
    + intros e w2 H2. apply wp_ret. by apply Hdb.
  - apply wp_ret. by apply Hdb.
Qed.

End Mirror.

(** X16: a status query brings a report on a stored job that has a
    provider id, with a key configured.  When the store accepts the read
    of the job and the update of the job (whatever it does afterwards),
    the query answers and the stored job has the status reported (its own
    when none is reported), the model reported (none when the report has
    none, even if one was stored), the number of trained tokens reported
    and the time of completion reported, in milliseconds. *)
Theorem query_mirrors_report job_id now oj w j :
  db_fault (ops w) = None ->
  db_fault (S (ops w)) = None ->
  jobs w !! job_id = Some j ->
  is_Some (truthy_str (j_openai_job_id j)) ->
  is_Some (truthy_str api_key) ->
  exists r w' j',
    run (GET job_id now (StatusReply 200 (Some oj))) w = (Ok r, w')
    /\ jobs w' !! job_id = Some j'
    /\ j_status j' = default (j_status j) (truthy_str (oj_status oj))
    /\ j_fine_tuned_model_id j' = reported_model oj
    /\ j_trained_tokens j' = truthy_num (oj_trained_tokens oj)
    /\ j_finished_at j' = (fun t => t * 1000) <$> truthy_num (oj_finished_at oj).
Proof.
  intros Hok0 Hok1 Hj [oid Hoid] [key Hkey].
  set (P := fun j' : job =>
              j_status j' = default (j_status j) (truthy_str (oj_status oj))
              /\ j_fine_tuned_model_id j' = reported_model oj
              /\ j_trained_tokens j' = truthy_num (oj_trained_tokens oj)
              /\ j_finished_at j' = (fun t => t * 1000) <$> truthy_num (oj_finished_at oj)).
  assert (wp (GET job_id now (StatusReply 200 (Some oj)))
             (fun _ w' => job_is job_id P w') (fun _ _ => False) w) as H.
  { unfold FineTune.GET. apply wp_catch.
    eapply wp_ok_bind; [rewrite run_find_job; by rewrite Hok0|]. rewrite Hj, Hoid, Hkey.
    apply wp_catch. unfold FineTune.reconcile. change (200 =? 200) with true. cbv iota.
    eapply wp_ok_bind;
      [rewrite run_update_job; cbn [bump jobs bots ops]; by rewrite Hok1, Hj|].
    set (j1 := apply_update _ j).
    assert (job_is job_id P {| jobs := <[job_id := j1]> (jobs w); bots := bots w;
                               ops := S (S (ops w)) |}) as H1.
    { exists j1. cbn. rewrite lookup_insert_eq. split; [done|]. by repeat split. }
    apply wp_bind. eapply wp_mono; [apply derive_bot_job; [|exact H1]| |].
    - intros M j' _ HM (Hs & _ & Ht & Hf). repeat split; try done; cbn; by rewrite HM.
    - intros ? w2 H2. apply wp_bind.
      eapply wp_mono; [apply find_job_job; exact H2| |].
      + intros r w3 H3. apply wp_ret. exact H3.
      + intros e w3 H3. apply wp_ret. exact H3.
    - intros e w2 H2. apply wp_ret. exact H2. }
  unfold wp in H.
  destruct (run (GET job_id now (StatusReply 200 (Some oj))) w) as [[r|e] w']; [|done].
  destruct H as (j' & Hj' & HP). exists r, w', j'. split; [done|]. split; [done|]. exact HP.
Qed.

(** ** What a report leaves in the bot *)

Lemma find_job_bots id w :
  wp (find_job id) (fun _ w' => bots w' = bots w) (fun _ w' => bots w' = bots w) w.
Proof. eapply wp_run; [apply run_find_job|]. by destruct (db_fault (ops w)). Qed.

Lemma update_job_bots id f w :
  wp (update_job id f) (fun _ w' => bots w' = bots w) (fun _ w' => bots w' = bots w) w.
Proof.
  eapply wp_run; [apply run_update_job|].
  destruct (db_fault (ops w)); [done|]. by destruct (jobs w !! id).
Qed.

Lemma tail_bots j m w :
  wp (match truthy_str (j_parent_job_id j) with
      | Some parent_job_id =>
          catch (update_job parent_job_id (set_job_model m);;
                 find_job parent_job_id;;
                 mret tt)
                (fun _ => mret tt)
      | None => mret tt
      end;;
      catch db_op (fun _ => mret tt))
     (fun _ w' => bots w' = bots w) (fun _ _ => False) w.
Proof.
  assert (forall w1, bots w1 = bots w ->
            wp (catch db_op (λ _, mret ())) (fun _ w' => bots w' = bots w) (fun _ _ => False) w1)
    as Hdb.
  { intros w1 H1. apply wp_catch. eapply wp_run; [apply run_db_op|].
    destruct (db_fault (ops w1)); [by apply wp_ret|done]. }
  apply wp_bind. destruct (truthy_str (j_parent_job_id j)) as [parent|].
  - apply wp_catch, wp_bind. eapply wp_mono; [apply update_job_bots| |].
    + intros ? w1 H1. apply wp_bind. eapply wp_mono; [apply find_job_bots| |].
      * intros ? w2 H2. apply wp_ret, Hdb. congruence.
      * intros ? w2 H2. apply wp_ret, Hdb. congruence.
    + intros ? w1 H1. apply wp_ret, Hdb. congruence.
  - apply wp_ret. by apply Hdb.
Qed.

(** X17: after a status query that brings a report, with no store error:
    the bot is [active] with the model when the job succeeded with a model,
    unchanged when it succeeded without one, [inactive] when it failed or
    was cancelled, and [training] when it is running, validating files or
    pending. *)
Theorem bot_follows_report job_id now oj w j b :
  (forall k, db_fault k = None) ->
  jobs w !! job_id = Some j ->
  is_Some (truthy_str (j_openai_job_id j)) ->
  is_Some (truthy_str api_key) ->
  bots w !! j_bot_id j = Some b ->
  exists r w',
    run (GET job_id now (StatusReply 200 (Some oj))) w = (Ok r, w')
    /\ (forall m, oj_status oj = Some "succeeded" -> reported_model oj = Some m ->
        bots w' = <[j_bot_id j := set_bot_active m b]> (bots w))
    /\ (oj_status oj = Some "succeeded" -> reported_model oj = None -> bots w' = bots w)
    /\ (oj_status oj = Some "failed" \/ oj_status oj = Some "cancelled" ->
        bots w' = <[j_bot_id j := set_bot_status "inactive" b]> (bots w))
    /\ (oj_status oj = Some "running" \/ oj_status oj = Some "validating_files"
        \/ oj_status oj = Some "pending" ->
        bots w' = <[j_bot_id j := set_bot_status "training" b]> (bots w)).
Proof.
  intros Hok Hj [oid Hoid] [key Hkey] Hb.
  set (Q := fun w' : world =>
    (forall m, oj_status oj = Some "succeeded" -> reported_model oj = Some m ->
        bots w' = <[j_bot_id j := set_bot_active m b]> (bots w))
    /\ (oj_status oj = Some "succeeded" -> reported_model oj = None -> bots w' = bots w)
    /\ (oj_status oj = Some "failed" \/ oj_status oj = Some "cancelled" ->
        bots w' = <[j_bot_id j := set_bot_status "inactive" b]> (bots w))
    /\ (oj_status oj = Some "running" \/ oj_status oj = Some "validating_files"
        \/ oj_status oj = Some "pending" ->
        bots w' = <[j_bot_id j := set_bot_status "training" b]> (bots w))).
  assert (wp (GET job_id now (StatusReply 200 (Some oj)))
             (fun _ w' => Q w') (fun _ _ => False) w) as H.
  { unfold FineTune.GET. apply wp_catch.
    eapply wp_ok_bind; [rewrite run_find_job; by rewrite Hok|]. rewrite Hj, Hoid, Hkey.
    apply wp_catch. unfold FineTune.reconcile. change (200 =? 200) with true. cbv iota.
    eapply wp_ok_bind;
      [rewrite run_update_job; cbn [bump jobs bots ops]; by rewrite Hok, Hj|].
    set (w1 := {| jobs := _; bots := bots w; ops := _ |}).
    assert (forall w2, Q w2 ->
              wp (find_job job_id ≫= λ finalJob, mret (SUCCESS finalJob))
                 (fun _ w' => Q w') (fun _ w' => Q w') w2) as Hfin.
    { intros w2 H2. eapply wp_ok_bind; [rewrite run_find_job; by rewrite Hok|].
      apply wp_ret. exact H2. }
    assert (forall s,
              wp (update_bot (j_bot_id j) (set_bot_status s) ≫= λ _, mret ())
                 (fun _ w' => bots w' = <[j_bot_id j := set_bot_status s b]> (bots w))
                 (fun _ _ => False) w1) as Hset.
    { intros s. eapply wp_ok_bind;
        [rewrite run_update_bot; cbn [w1 bump jobs bots ops]; by rewrite Hok, Hb|].
      by apply wp_ret. }
    apply wp_bind. unfold FineTune.derive_bot, FineTune.derive_bot_unfinished, is_status.
    destruct (decide (oj_status oj = Some "succeeded")) as [Hs|Hs].
    - rewrite (bool_decide_eq_true_2 _ Hs).
      destruct (reported_model oj) as [m|] eqn:Hm.
      + eapply wp_ok_bind;
          [rewrite run_update_bot; cbn [w1 bump jobs bots ops]; by rewrite Hok, Hb|].
        eapply wp_mono; [apply tail_bots| |done].
        intros ? w2 H2. apply Hfin. cbn [bots] in H2.
        repeat split; intros; simplify_eq; try congruence.
        all: destruct_or!; congruence.
      + rewrite !bool_decide_eq_false_2 by congruence. cbn [orb].
        apply wp_ret, Hfin. repeat split; intros; simplify_eq; try done.
        all: destruct_or!; congruence.
    - rewrite (bool_decide_eq_false_2 _ Hs).
      destruct (decide (oj_status oj = Some "failed")) as [Hf|Hf].
      { rewrite (bool_decide_eq_true_2 _ Hf).
        eapply wp_mono; [apply Hset| |done]. intros ? w2 H2. apply Hfin.
        repeat split; intros; try done; try congruence.
        destruct_or!; congruence. }
      rewrite (bool_decide_eq_false_2 _ Hf).
      destruct (decide (oj_status oj = Some "cancelled")) as [Hc|Hc].
      { rewrite (bool_decide_eq_true_2 _ Hc).
        eapply wp_mono; [apply Hset| |done]. intros ? w2 H2. apply Hfin.
        repeat split; intros; try done; try congruence.
        destruct_or!; congruence. }
      rewrite (bool_decide_eq_false_2 _ Hc).
      destruct (bool_decide (oj_status oj = Some "running")
                || bool_decide (oj_status oj = Some "validating_files")
                || bool_decide (oj_status oj = Some "pending")) eqn:Hr.
      + eapply wp_mono; [apply Hset| |done]. intros ? w2 H2. apply Hfin.
        repeat split; intros; try done; try congruence.
        destruct_or!; congruence.
      + apply wp_ret, Hfin.
        apply orb_false_iff in Hr as [Hr Hp]. apply orb_false_iff in Hr as [Hr Hv].
        apply bool_decide_eq_false in Hr, Hv, Hp.
        repeat split; intros; try done; try congruence.
        all: destruct_or!; congruence. }
  unfold wp in H.
  destruct (run (GET job_id now (StatusReply 200 (Some oj))) w) as [[r|e] w']; [|done].
  by exists r, w'.
Qed.

(** ** Submissions *)

(** The checks of the request the handler makes before it reads the
    store. *)
Definition well_formed_request (req : submit_request) : Prop :=
  is_Some (truthy_str (r_bot_id req))
  /\ is_Some (truthy_str (r_training_file_id req))
  /\ default "supervised"%string (truthy_str (r_training_method req)) ∈ validTrainingMethods
  /\ default "chat"%string (truthy_str (r_model_type req)) ∈ validModelTypes.

Lemma run_find_bot id w :
  run (find_bot id) w =
  match db_fault (ops w) with
  | Some msg => (Throw msg, bump w)
  | None => (Ok (bots w !! id), bump w)
  end.
Proof. unfold FineTune.find_bot, FineTune.db_op. cbn. by destruct (db_fault (ops w)). Qed.

(** X18: a submission whose request is not well formed (bot or training file
    missing, unknown training method or model type), or that names a bot
    that is not stored, or that finds no API key, is answered with an error
    and leaves the jobs and the bots as they were. *)
Theorem submission_refused req new_id now file_bytes reply w :
  ~ well_formed_request req
  \/ (forall bot_id, truthy_str (r_bot_id req) = Some bot_id -> bots w !! bot_id = None)
  \/ truthy_str api_key = None ->
  exists code w',
    run (POST req new_id now file_bytes reply) w = (Ok (ERROR code), w')
    /\ jobs w' = jobs w /\ bots w' = bots w.
Proof.
  intros H. unfold FineTune.POST. cbn [catch run].
  destruct (truthy_str (r_bot_id req)) as [bot_id|] eqn:Hb; [|by eexists _, _].
  destruct (truthy_str (r_training_file_id req)) as [file|] eqn:Hf; [|by eexists _, _].
  unfold includes.
  destruct (decide (default "supervised"%string (truthy_str (r_training_method req))
                    ∈ validTrainingMethods)) as [Hm|Hm];
    [rewrite (bool_decide_eq_true_2 _ Hm)|rewrite (bool_decide_eq_false_2 _ Hm); by eexists _, _].
  destruct (decide (default "chat"%string (truthy_str (r_model_type req))
                    ∈ validModelTypes)) as [Ht|Ht];
    [rewrite (bool_decide_eq_true_2 _ Ht)|rewrite (bool_decide_eq_false_2 _ Ht); by eexists _, _].
  cbn [negb]. cbv iota.
  unfold mbind at 1, M_bind at 1. cbn [run].
  rewrite run_find_bot.
  destruct (db_fault (ops w)); [by eexists _, _|].
  destruct (bots w !! bot_id) as [b|] eqn:Hbot; [|by eexists _, _].
  destruct (truthy_str api_key) as [key|] eqn:Hkey; [|by eexists _, _].
  exfalso. destruct H as [H|[H|H]]; [|by rewrite (H bot_id) in Hbot|done].
  apply H. unfold well_formed_request. rewrite Hf. by eauto.
Qed.

(** What the handler needs to reach the provider: a well-formed request for
    the stored bot [b], a key, a fresh identifier and, when a parent is
    named, a stored parent. *)
Definition ready (req : submit_request) (new_id : string) (w : world)
    (bot_id training_file_id : string) (b : bot) : Prop :=
  truthy_str (r_bot_id req) = Some bot_id
  /\ truthy_str (r_training_file_id req) = Some training_file_id
  /\ default "supervised"%string (truthy_str (r_training_method req)) ∈ validTrainingMethods
  /\ default "chat"%string (truthy_str (r_model_type req)) ∈ validModelTypes
  /\ bots w !! bot_id = Some b
  /\ is_Some (truthy_str api_key)
  /\ jobs w !! new_id = None
  /\ (forall p, truthy_str (r_parent_job_id req) = Some p -> is_Some (jobs w !! p)).

(** The [catch] block around the call of the provider. *)
Definition on_api_error (new_id bot_id : string) (errorMessage : string)
    : M world api_response :=
  update_job new_id
    (set_job_status_error "failed"
       (Some (JObj [("message", JStr errorMessage);
                    ("code", JStr "API_ERROR");
                    ("type", JStr "internal_error")]%string)));;
  update_bot bot_id (set_bot_status "inactive");;
  throw errorMessage.

Lemma run_create_job id j w :
  run (create_job id j) w =
  match db_fault (ops w) with
  | Some msg => (Throw msg, bump w)
  | None =>
      match jobs w !! id, bots w !! j_bot_id j with
      | None, Some _ =>
          match j_parent_job_id j with
          | Some p =>
              match jobs w !! p with
              | Some _ => (Ok j, {| jobs := <[id := j]> (jobs w); bots := bots w;
                                    ops := S (ops w) |})
              | None => (Throw store_error, bump w)
              end
          | None => (Ok j, {| jobs := <[id := j]> (jobs w); bots := bots w;
                              ops := S (ops w) |})
          end
      | _, _ => (Throw store_error, bump w)
      end
  end.
Proof.
  unfold FineTune.create_job, FineTune.db_op. cbn.
  destruct (db_fault (ops w)); cbn; [done|].
  destruct (jobs w !! id); [done|]. destruct (bots w !! j_bot_id j); [|done].
  destruct (j_parent_job_id j) as [p|]; [|done]. by destruct (jobs w !! p).
Qed.

(** Up to the call of the provider: the new job is stored as pending and
    the bot is set to training with the training file. *)
Lemma POST_reaches_provider req new_id now file_bytes reply w bot_id file b
    (Q : api_response -> world -> Prop) :
  (forall k, db_fault k = None) ->
  ready req new_id w bot_id file b ->
  (forall hp te n,
     wp (catch (submit new_id bot_id reply) (on_api_error new_id bot_id)) Q
        (fun _ w' => Q (ERROR "INTERNAL_ERROR") w')
        {| jobs := <[new_id :=
                       initial_job bot_id file (truthy_str (r_parent_job_id req)) hp
                                   (truthy_num file_bytes) te now]> (jobs w);
           bots := <[bot_id := set_bot_training file b]> (bots w);
           ops := n |}) ->
  wp (POST req new_id now file_bytes reply) Q (fun _ _ => False) w.
Proof.
  intros Hok (Hb & Hf & Hm & Ht & Hbot & [key Hkey] & Hnew & Hpar) HQ.
  unfold FineTune.POST. apply wp_catch. rewrite Hb, Hf. unfold includes.
  rewrite (bool_decide_eq_true_2 _ Hm), (bool_decide_eq_true_2 _ Ht).
  cbn [negb]. cbv iota.
  eapply wp_ok_bind; [rewrite run_find_bot; by rewrite Hok|].
  rewrite Hbot, Hkey. cbv zeta.
  match goal with
  | |- wp (catch (create_job _ ?d ≫= _) _ ≫= _) _ _ _ => set (j0 := d)
  end.
  assert (run (create_job new_id j0) (bump w)
          = (Ok j0, {| jobs := <[new_id := j0]> (jobs w); bots := bots w;
                       ops := S (S (ops w)) |})) as Hcreate.
  { rewrite run_create_job. cbn [bump jobs bots ops]. rewrite Hok, Hnew.
    change (j_bot_id j0) with bot_id. rewrite Hbot.
    change (j_parent_job_id j0) with (truthy_str (r_parent_job_id req)).
    destruct (truthy_str (r_parent_job_id req)) as [p|] eqn:Hp; [|done].
    by destruct (Hpar p eq_refl) as [? ->]. }
  eapply wp_ok_bind.
  { cbn [catch run]. unfold mbind at 1, M_bind at 1. cbn [run]. by rewrite Hcreate. }
  assert (forall n,
            wp (update_bot bot_id (set_bot_training file) ≫= λ _,
                  catch (submit new_id bot_id reply) (on_api_error new_id bot_id))
               Q (fun _ w' => Q (ERROR "INTERNAL_ERROR") w')
               {| jobs := <[new_id := j0]> (jobs w); bots := bots w; ops := n |}) as Hrest.
  { intros n. eapply wp_ok_bind;
      [rewrite run_update_bot; cbn [bump jobs bots ops]; by rewrite Hok, Hbot|].
    apply HQ. }
  apply wp_bind.
  destruct (truthy_str (r_parent_job_id req)) as [p|].
  - apply wp_catch. eapply wp_ok_bind; [rewrite run_find_job; by rewrite Hok|].
    apply wp_ret. apply Hrest.
  - apply wp_ret. apply Hrest.
Qed.

(** X19: a submission is ready (the request is well formed, its bot is
    stored, a key is configured, the identifier of the new job is fresh
    and the parent, when one is named, is stored) and the store raises no
    error.  When the provider accepts it (status 200 and a body whose [id]
    is a non-empty string and whose status is a string or absent), the handler
    answers with the new job, which is stored with the provider's id, the
    status the provider gave ([pending] when it gave none), no error, and
    the bot, training file and parent of the request; the bot is
    [training] with the training file of the request. *)
Theorem submission_accepted req new_id now file_bytes response resp oid status w
    bot_id training_file_id b :
  (forall k, db_fault k = None) ->
  ready req new_id w bot_id training_file_id b ->
  status_code response = 200 ->
  body response = Some resp ->
  Json.field "id" resp = Some (JStr oid) ->
  oid <> EmptyString ->
  Json.or_default (Json.field "status" resp) (JStr "pending") = JStr status ->
  exists j' w',
    run (POST req new_id now file_bytes (Fetched response)) w = (Ok (SUCCESS (Some j')), w')
    /\ jobs w' = <[new_id := j']> (jobs w)
    /\ bots w' = <[bot_id := set_bot_training training_file_id b]> (bots w)
    /\ j_openai_job_id j' = Some oid
    /\ j_status j' = status
    /\ j_bot_id j' = bot_id
    /\ j_training_file_id j' = training_file_id
    /\ j_parent_job_id j' = truthy_str (r_parent_job_id req)
    /\ j_error j' = None.
Proof.
  intros Hok Hready Hcode Hbody Hid Hoid Hstatus.
  set (Q := fun (r : api_response) (w' : world) =>
    exists j', r = SUCCESS (Some j')
    /\ jobs w' = <[new_id := j']> (jobs w)
    /\ bots w' = <[bot_id := set_bot_training training_file_id b]> (bots w)
    /\ j_openai_job_id j' = Some oid
    /\ j_status j' = status
    /\ j_bot_id j' = bot_id
    /\ j_training_file_id j' = training_file_id
    /\ j_parent_job_id j' = truthy_str (r_parent_job_id req)
    /\ j_error j' = None).
  assert (wp (POST req new_id now file_bytes (Fetched response)) Q (fun _ _ => False) w) as H.
  { eapply POST_reaches_provider; [done|done|]. intros hp te n.
    apply wp_catch. unfold FineTune.submit. rewrite Hcode, Hbody.
    change (negb (200 =? 200)) with false. cbv iota.
    assert (Json.truthy resp = true) as ->.
    { destruct resp; try done. }
    unfold or_null, Json.or_default at 1. rewrite Hid.
    assert (Json.truthy (JStr oid) = true) as Ht by (by destruct oid).
    rewrite Ht. cbv iota. rewrite Ht. cbn [negb orb]. cbv iota.
    rewrite Hstatus.
    eapply wp_ok_bind.
    { rewrite run_update_job. cbn [bump jobs bots ops]. rewrite Hok, lookup_insert_eq. done. }
    apply wp_ret. eexists. split; [done|]. cbn [jobs bots]. rewrite insert_insert_eq.
    by repeat split. }
  unfold wp in H.
  destruct (run (POST req new_id now file_bytes (Fetched response)) w) as [[r|e] w']; [|done].
  destruct H as (j' & -> & H). by exists j', w'.
Qed.

(** The provider did not take the job: the call failed, the response is
    not a 200, or its body does not parse. *)
Definition turned_down (reply : fetch_outcome) : Prop :=
  match reply with
  | FetchError _ => True
  | Fetched response => status_code response <> 200 \/ body response = None
  end.

(** X20: a submission is ready (the request is well formed, its bot is
    stored, a key is configured, the identifier of the new job is fresh
    and the parent, when one is named, is stored) and the store raises no
    error.  When the call of the provider fails, or the provider answers
    with a status other than 200 or with a body that does not parse, the
    handler answers an error, the new job is stored as [failed] with an
    error object and without provider id, and the bot is [inactive]; the
    bot keeps the training file of the request. *)
Theorem submission_turned_down req new_id now file_bytes reply w bot_id training_file_id b :
  (forall k, db_fault k = None) ->
  ready req new_id w bot_id training_file_id b ->
  turned_down reply ->
  exists code j' w',
    run (POST req new_id now file_bytes reply) w = (Ok (ERROR code), w')
    /\ jobs w' = <[new_id := j']> (jobs w)
    /\ j_status j' = "failed"%string
    /\ is_Some (j_error j')
    /\ j_openai_job_id j' = None
    /\ bots w' = <[bot_id := set_bot_status "inactive" (set_bot_training training_file_id b)]>
                   (bots w).
Proof.
  intros Hok Hready Hdown.
  set (R := fun w' : world =>
    exists j',
      jobs w' = <[new_id := j']> (jobs w)
      /\ j_status j' = "failed"%string
      /\ is_Some (j_error j')
      /\ j_openai_job_id j' = None
      /\ bots w' = <[bot_id := set_bot_status "inactive" (set_bot_training training_file_id b)]>
                     (bots w)).
  set (Q := fun (r : api_response) (w' : world) => exists code, r = ERROR code /\ R w').
  assert (wp (POST req new_id now file_bytes reply) Q (fun _ _ => False) w) as H.
  { eapply POST_reaches_provider; [done|done|]. intros hp te n.
    set (j0 := initial_job _ _ _ _ _ _ _).
    assert (forall e (r : M world api_response) m E,
              (forall w', R w' -> wp r Q E w') ->
              wp (update_job new_id (set_job_status_error "failed" (Some e)) ≫= λ _,
                    update_bot bot_id (set_bot_status "inactive") ≫= λ _, r)
                 Q E
                 {| jobs := <[new_id := j0]> (jobs w);
                    bots := <[bot_id := set_bot_training training_file_id b]> (bots w);
                    ops := m |}) as Hfail.
    { intros e r m E Hr.
      eapply wp_ok_bind.
      { rewrite run_update_job. cbn [bump jobs bots ops]. by rewrite Hok, lookup_insert_eq. }
      eapply wp_ok_bind.
      { rewrite run_update_bot. cbn [bump jobs bots ops]. by rewrite Hok, lookup_insert_eq. }
      rewrite !insert_insert_eq. apply Hr. eexists. cbn [jobs bots]. by repeat split. }
    assert (forall msg m,
              wp (on_api_error new_id bot_id msg) Q (fun _ w' => Q (ERROR "INTERNAL_ERROR") w')
                 {| jobs := <[new_id := j0]> (jobs w);
                    bots := <[bot_id := set_bot_training training_file_id b]> (bots w);
                    ops := m |}) as Hcatch.
    { intros msg m. apply Hfail. intros w' Hw'. apply wp_throw. by eexists. }
    apply wp_catch. unfold FineTune.submit.
    destruct reply as [msg|response]; [apply wp_throw, Hcatch|].
    destruct (Z.eqb_spec (status_code response) 200) as [Hc|Hc]; cbn [negb]; cbv iota.
    - destruct Hdown as [Hd| ->]; [done|]. apply wp_throw, Hcatch.
    - cbv zeta.
      match goal with |- wp (match ?x with _ => _ end) _ _ _ => destruct x eqn:Hx end;
        try (apply wp_throw, Hcatch);
        (apply Hfail; intros w' Hw'; apply wp_ret; by eexists). }
  unfold wp in H.
  destruct (run (POST req new_id now file_bytes reply) w) as [[r|e] w']; [|done].
  destruct H as (code & -> & j' & H). by exists code, j', w'.
Qed.

End Requests.

(** ** Sample requests *)

Definition cancel_running (reply : cancel_reply) : outcome api_response * world :=
  run (cancel no_fault (Some "sk-test"%string) "store error" "json error" "type error"
         "job-1" reply) (one_job "running" None).

Lemma cancel_confirmed_witness :
  exists j' w',
    cancel_running (CancelReply 200 None) = (Ok (SUCCESS (Some j')), w')
    /\ j' = set_job_status_error "cancelled" None (stored_job "running" None None)
    /\ j_status j' = "cancelled"%string
    /\ jobs w' = <["job-1"%string := j']> (jobs (one_job "running" None))
    /\ bots w' = <[j_bot_id (stored_job "running" None None) :=
                     set_bot_status "inactive" helper_bot]> (bots (one_job "running" None)).
Proof.
  apply (cancel_confirmed no_fault (Some "sk-test"%string) "store error" "json error"
           "type error" "job-1" None (one_job "running" None)
           (stored_job "running" None None) helper_bot).
  - intros k. reflexivity.
  - vm_compute. reflexivity.
  - eexists. reflexivity.
  - eexists. reflexivity.
  - vm_compute. reflexivity.
Defined.

Lemma cancel_unconfirmed_witness :
  ~ confirmed (CancelReply 409 (Some (JObj [])))
  /\ exists code,
       cancel_running (CancelReply 409 (Some (JObj [])))
       = (Ok (ERROR code), bump (one_job "running" None)).
Proof.
  assert (~ confirmed (CancelReply 409 (Some (JObj [])))) as H by (intros []).
  split; [exact H|].
  exact (cancel_unconfirmed no_fault (Some "sk-test"%string) "store error" "json error"
           "type error" "job-1" (CancelReply 409 (Some (JObj []))) (one_job "running" None) H).
Defined.

Lemma query_without_report_witness :
  ~ reports (StatusReply 503 None)
  /\ exists r,
       status_query (StatusReply 503 None) (one_job "running" None)
       = (Ok r, bump (one_job "running" None))
       /\ (no_fault (ops (one_job "running" None)) = None ->
           r = match jobs (one_job "running" None) !! "job-1"%string with
               | Some j => SUCCESS (Some j)
               | None => ERROR "FINE_TUNE_JOB_NOT_FOUND"
               end).
Proof.
  assert (~ reports (StatusReply 503 None)) as H by (intros []).
  split; [exact H|].
  exact (query_without_report no_fault (Some "sk-test"%string) "store error" "job-1"
           1700000600000 (StatusReply 503 None) (one_job "running" None) H).
Defined.

Lemma query_mirrors_report_witness :
  exists r w' j',
    run (GET no_fault (Some "sk-test"%string) "store error" "job-1" 1700000600000
           (StatusReply 200 (Some succeeded_with_model_2))) (one_job "running" None)
    = (Ok r, w')
    /\ jobs w' !! "job-1"%string = Some j'
    /\ j_status j' = default (j_status (stored_job "running" None None))
                             (truthy_str (oj_status succeeded_with_model_2))
    /\ j_fine_tuned_model_id j' = reported_model succeeded_with_model_2
    /\ j_trained_tokens j' = truthy_num (oj_trained_tokens succeeded_with_model_2)
    /\ j_finished_at j'
       = (fun t => t * 1000) <$> truthy_num (oj_finished_at succeeded_with_model_2).
Proof.
  apply (query_mirrors_report no_fault (Some "sk-test"%string) "store error" "job-1"
           1700000600000 succeeded_with_model_2 (one_job "running" None)
           (stored_job "running" None None)).
  - reflexivity.
  - reflexivity.
  - vm_compute. reflexivity.
  - eexists. reflexivity.
  - eexists. reflexivity.
Defined.

Lemma bot_follows_report_witness :
  exists r w',
    run (GET no_fault (Some "sk-test"%string) "store error" "job-1" 1700000600000
           (StatusReply 200 (Some succeeded_with_model_2))) (one_job "running" None)
    = (Ok r, w')
    /\ bots w' !! "bot-1"%string = Some (set_bot_active "ft:model-2" helper_bot).
Proof.
  destruct (bot_follows_report no_fault (Some "sk-test"%string) "store error" "job-1"
              1700000600000 succeeded_with_model_2 (one_job "running" None)
              (stored_job "running" None None) helper_bot)
    as (r & w' & Hrun & Hactive & _).
  - intros k. reflexivity.
  - vm_compute. reflexivity.
  - eexists. reflexivity.
  - eexists. reflexivity.
  - vm_compute. reflexivity.
  - exists r, w'. split; [exact Hrun|].
    rewrite (Hactive "ft:model-2"%string eq_refl eq_refl). apply lookup_insert_eq.
Defined.

Definition misspelt_request : submit_request :=
  {| r_bot_id := Some "bot-1"%string; r_training_file_id := Some "file-1"%string;
     r_validation_file_id := None; r_model := None; r_hyperparameters := None;
     r_training_method := Some "supervized"%string; r_model_type := None;
     r_model_types := None; r_suffix := None; r_parent_job_id := None |}.

Lemma submission_refused_witness :
  ~ well_formed_request misspelt_request
  /\ exists code w',
       run (POST no_fault (Some "sk-test"%string) "store error" "json error" "type error"
              misspelt_request "job-1" 1700000000000 None answer_rejected) one_bot
       = (Ok (ERROR code), w')
       /\ jobs w' = jobs one_bot /\ bots w' = bots one_bot.
Proof.
  assert (~ well_formed_request misspelt_request) as H.
  { intros (_ & _ & Hm & _).
    assert (bool_decide (default "supervised"%string
                           (truthy_str (r_training_method misspelt_request))
                         ∈ validTrainingMethods) = false) as Hf by (vm_compute; reflexivity).
    by apply bool_decide_eq_false_1 in Hf. }
  split; [exact H|].
  apply (submission_refused no_fault (Some "sk-test"%string) "store error" "json error"
           "type error" misspelt_request "job-1" 1700000000000 None answer_rejected one_bot).
  left. exact H.
Defined.

Lemma plain_request_ready :
  ready (Some "sk-test"%string) plain_request "job-1" one_bot "bot-1" "file-1" helper_bot.
Proof.
  unfold ready. repeat split; try (vm_compute; reflexivity).
  - vm_compute. apply list_elem_of_here.
  - vm_compute. apply list_elem_of_here.
  - eexists. reflexivity.
  - intros p Hp. discriminate Hp.
Qed.

Definition answer_queued : http_response :=
  {| status_code := 200; status_text := "OK";
     body := Some (JObj [("id"%string, JStr "ftjob-1");
                         ("status"%string, JStr "validating_files")]) |}.

Lemma submission_accepted_witness :
  exists j' w',
    submit_with (Fetched answer_queued) = (Ok (SUCCESS (Some j')), w')
    /\ jobs w' = <["job-1"%string := j']> (jobs one_bot)
    /\ bots w' = <["bot-1"%string := set_bot_training "file-1" helper_bot]> (bots one_bot)
    /\ j_openai_job_id j' = Some "ftjob-1"%string
    /\ j_status j' = "validating_files"%string
    /\ j_bot_id j' = "bot-1"%string
    /\ j_training_file_id j' = "file-1"%string
    /\ j_parent_job_id j' = truthy_str (r_parent_job_id plain_request)
    /\ j_error j' = None.
Proof.
  apply (submission_accepted no_fault (Some "sk-test"%string) "store error" "json error"
           "type error" plain_request "job-1" 1700000000000 None answer_queued
           (JObj [("id"%string, JStr "ftjob-1"); ("status"%string, JStr "validating_files")])
           "ftjob-1" "validating_files" one_bot "bot-1" "file-1" helper_bot).
  - intros k. reflexivity.
  - exact plain_request_ready.
  - reflexivity.
  - reflexivity.
  - vm_compute. reflexivity.
  - discriminate.
  - vm_compute. reflexivity.
Defined.

Lemma submission_turned_down_witness :
  turned_down (FetchError "fetch failed")
  /\ exists code j' w',
       submit_with (FetchError "fetch failed") = (Ok (ERROR code), w')
       /\ jobs w' = <["job-1"%string := j']> (jobs one_bot)
       /\ j_status j' = "failed"%string
       /\ is_Some (j_error j')
       /\ j_openai_job_id j' = None
       /\ bots w' = <["bot-1"%string :=
                        set_bot_status "inactive" (set_bot_training "file-1" helper_bot)]>
                      (bots one_bot).
Proof.
  split; [exact I|].
  apply (submission_turned_down no_fault (Some "sk-test"%string) "store error" "json error"
           "type error" plain_request "job-1" 1700000000000 None (FetchError "fetch failed")
           one_bot "bot-1" "file-1" helper_bot).
  - intros k. reflexivity.
  - exact plain_request_ready.
  - exact I.
Defined.

End Lifecycle.
(** * Further properties of the evaluation *)

Module Scores.
Import Evaluator.

(** ** Rounding of a proper fraction *)

(** A fraction between 0 and 1 rounds to a value between 0 and 1. *)
Lemma round_pos_unit p q : 0 < p -> p < q -> (0 <= Num.round_pos p q <= 1)%Q.
Proof.
  intros Hp Hpq. unfold Num.round_pos.
  assert (Num.ilog2 p q <= 0) as He.
  { unfold Num.ilog2.
    assert (Z.log2 p <= Z.log2 q) by (apply Z.log2_le_mono; lia).
    destruct (Num.scale _ p q) as [n d]. destruct (d <=? n); lia. }
  set (k := 52 - Num.ilog2 p q) in *.
  rewrite Num.scale_nonneg by lia.
  assert (0 < 2 ^ k) as HP by (apply Z.pow_pos_nonneg; lia).
  set (P := 2 ^ k) in *. set (m := p * P / q).
  assert (0 <= m) as Hm0 by (apply Z.div_pos; nia).
  assert (m + 1 <= P) as Hm1.
  { assert (m < P); [|lia]. apply Z.div_lt_upper_bound; nia. }
  set (m' := if 2 * _ <? q then m else _).
  assert (m <= m' <= m + 1) as Hm'.
  { subst m'. destruct (_ <? q); [lia|]. destruct (q <? _); [lia|]. destruct (Z.even m); lia. }
  clearbody m'. rewrite Num.scale_neg by lia. replace (- - k) with k by lia. fold P.
  rewrite Z.mul_1_l. rewrite Qred_correct. unfold Qle. simpl. rewrite Z2Pos.id by lia. lia.
Qed.

(** The quotient of two counts, the first not above the second. *)
Lemma fdiv_unit (i u : nat) :
  (i <= u)%nat -> (0 < u)%nat -> Z.of_nat u < 2 ^ 53 ->
  (0 <= Num.fdiv (Num.of_nat i) (Num.of_nat u) <= 1)%Q.
Proof.
  intros Hiu Hu Hb. destruct (decide (i = u)) as [->|Hne].
  { rewrite Num.fdiv_same by done. split; discriminate. }
  rewrite !Num.of_nat_int by lia. unfold Num.fdiv, Num.b64.
  destruct (Z.of_nat u) as [|q|q] eqn:Eu; [lia| |lia].
  replace (Qnum (inject_Z (Z.of_nat i) / inject_Z (Z.pos q))) with (Z.of_nat i)
    by (unfold Qdiv, Qinv, Qmult; simpl; lia).
  replace (Qden (inject_Z (Z.of_nat i) / inject_Z (Z.pos q))) with q
    by (unfold Qdiv, Qinv, Qmult; simpl; lia).
  destruct (Z.compare_spec (Z.of_nat i) 0) as [E|?|Hpos]; [split; discriminate|lia|].
  apply round_pos_unit; lia.
Qed.

Section Measures.
Variable toLowerCase : string -> string.
Variable Math_log : Q -> Q.
Variable chat : nat -> string -> call_outcome.

Local Abbreviation calculateSimilarity := (calculateSimilarity toLowerCase).
Local Abbreviation words := (words toLowerCase).
Local Abbreviation word_set := (word_set toLowerCase).
Local Abbreviation test_example := (test_example toLowerCase chat).
Local Abbreviation test_from := (test_from toLowerCase chat).
Local Abbreviation testModelWithExamples := (testModelWithExamples toLowerCase chat).
Local Abbreviation calculateMetrics := (calculateMetrics Math_log).

Lemma word_set_size_pos s : (0 < size (word_set s))%nat.
Proof.
  unfold Evaluator.word_set.
  destruct (Evaluator.words toLowerCase s) as [|x r] eqn:E;
    [by apply JS.split_ws_nonempty in E|].
  assert (size (list_to_set (x :: r) : gset string) <> 0%nat); [|lia].
  apply size_non_empty_iff. intros Hempty.
  assert (x ∈ (list_to_set (x :: r) : gset string)) as Hx
    by (apply elem_of_list_to_set; by left).
  rewrite Hempty in Hx. by apply elem_of_empty in Hx.
Qed.

Lemma fold_set_add_length l acc :
  (length (fold_left set_add l acc) <= length acc + length l)%nat.
Proof.
  revert acc. induction l as [|x l IH]; intros acc; simpl; [lia|].
  etrans; [apply IH|]. unfold set_add. case_bool_decide; [lia|]. rewrite length_app. simpl. lia.
Qed.

Lemma word_set_size_le s : (size (word_set s) <= length (words s))%nat.
Proof.
  unfold Evaluator.word_set. rewrite <- (new_Set_size toLowerCase).
  exact (fold_set_add_length (Evaluator.words toLowerCase s) []).
Qed.

(** X21: the similarity of two texts does not depend on their order. *)
Theorem similarity_symmetric str1 str2 :
  calculateSimilarity str1 str2 = calculateSimilarity str2 str1.
Proof.
  rewrite !calculateSimilarity_jaccard. unfold jaccard.
  by rewrite (comm_L (∩) (word_set str1)), (comm_L (∪) (word_set str1)).
Qed.

(** X22: the similarity of two texts lies between 0 and 1.  The bounds on
    the numbers of words are those every ECMAScript array obeys. *)
Theorem similarity_unit_interval str1 str2 :
  Z.of_nat (length (words str1)) < 2 ^ 32 ->
  Z.of_nat (length (words str2)) < 2 ^ 32 ->
  (0 <= calculateSimilarity str1 str2 <= 1)%Q.
Proof.
  intros H1 H2. rewrite calculateSimilarity_jaccard. unfold jaccard.
  pose proof (word_set_size_le str1). pose proof (word_set_size_le str2).
  pose proof (word_set_size_pos str1).
  assert (size (word_set str1 ∪ word_set str2) <= size (word_set str1) + size (word_set str2))%nat.
  { rewrite size_union_alt.
    assert (size (word_set str2 ∖ word_set str1) <= size (word_set str2))%nat; [|lia].
    apply subseteq_size. intros x Hx. by apply elem_of_difference in Hx as [? _]. }
  assert (size (word_set str1) <= size (word_set str1 ∪ word_set str2))%nat
    by (apply subseteq_size, union_subseteq_l).
  apply fdiv_unit; [|lia|lia].
  apply subseteq_size. intros x [Hx _]%elem_of_intersection. apply elem_of_union. by left.
Qed.

(** X23: two texts that differ only in letter case have similarity 1, which
    passes the threshold of 0.7. *)
Theorem similarity_same_words str1 str2 :
  toLowerCase str1 = toLowerCase str2 ->
  Z.of_nat (length (words str1)) < 2 ^ 32 ->
  calculateSimilarity str1 str2 = 1%Q
  /\ Num.geb (calculateSimilarity str1 str2) Num.lit_0_7 = true.
Proof.
  intros Hlc Hb.
  assert (calculateSimilarity str1 str2 = 1%Q) as ->; [|by split].
  rewrite calculateSimilarity_jaccard. unfold jaccard.
  assert (word_set str2 = word_set str1) as ->
    by (unfold Evaluator.word_set, Evaluator.words; by rewrite Hlc).
  rewrite (idemp_L (∩) (word_set str1)), (idemp_L (∪) (word_set str1)).
  pose proof (word_set_size_le str1). pose proof (word_set_size_pos str1).
  apply Num.fdiv_same; lia.
Qed.

(** ** Results of a run *)

Lemma test_from_index i l :
  Forall (fun e => is_Some (find_role "user" e) /\ is_Some (find_role "assistant" e)) l ->
  length (test_from i l) = length l
  /\ forall k e r, l !! k = Some e -> test_from i l !! k = Some r ->
                   test_example (i + k) e = Some r.
Proof.
  intros Hl. revert i. induction Hl as [|e l [[u Hu] [a Ha]] Hl IH]; intros i.
  - split; [done|]. intros k e r Hk. by rewrite lookup_nil in Hk.
  - cbn [Evaluator.test_from].
    destruct (Evaluator.test_example toLowerCase chat i e) as [r0|] eqn:E.
    + destruct (IH (S i)) as [Hlen Hidx]. split; [simpl; by rewrite Hlen|].
      intros [|k] e' r Hk Hr; simplify_eq/=.
      * by rewrite Nat.add_0_r.
      * replace (i + S k)%nat with (S i + k)%nat by lia. by apply Hidx.
    + exfalso. unfold Evaluator.test_example in E. rewrite Hu, Ha in E.
      by destruct (chat i (content u)).
Qed.

(** X24: when every test example has a user and an assistant message, the
    evaluation gives one result for each example, in order, with the
    user's content as input and the assistant's as expected text; a result
    whose model call failed has an empty prediction, is incorrect and has
    similarity 0. *)
Theorem results_cover_examples testExamples :
  Forall (fun e => is_Some (find_role "user" e) /\ is_Some (find_role "assistant" e))
         testExamples ->
  length (testModelWithExamples testExamples) = length testExamples
  /\ forall i e r,
       testExamples !! i = Some e -> testModelWithExamples testExamples !! i = Some r ->
       (content <$> find_role "user" e) = Some (input r)
       /\ (content <$> find_role "assistant" e) = Some (expected r)
       /\ (chat i (input r) = CallFailed ->
           predicted r = EmptyString /\ correct r = false /\ similarity r = 0%Q).
Proof.
  intros Hl. destruct (test_from_index 0 testExamples Hl) as [Hlen Hidx].
  split; [exact Hlen|]. intros i e r Hi Hr. specialize (Hidx i e r Hi Hr).
  cbn [Nat.add] in Hidx. unfold Evaluator.test_example in Hidx.
  destruct (find_role "user" e) as [u|]; [|done].
  destruct (find_role "assistant" e) as [a|]; [|done].
  destruct (chat i (content u)) as [|c] eqn:Hc; simplify_eq/=.
  - done.
  - do 2 (split; [done|]). intros Hf. congruence.
Qed.

(** ** The similarity distribution *)

Lemma buckets_partition (x : Q) :
  (Nat.b2n (Num.geb x Num.lit_0_8)
   + Nat.b2n (Num.geb x (Num.b64 (1 # 2)) && Num.ltb x Num.lit_0_8)
   + Nat.b2n (Num.ltb x (Num.b64 (1 # 2))) = 1)%nat.
Proof.
  unfold Num.geb, Num.ltb.
  destruct (Qle_bool Num.lit_0_8 x) eqn:E8, (Qle_bool (Num.b64 (1 # 2)) x) eqn:E5;
    try reflexivity.
  exfalso. apply Qle_bool_iff in E8.
  assert (~ (Num.b64 (1 # 2) <= x)%Q) as E5' by (rewrite <- Qle_bool_iff; congruence).
  apply E5'. apply (Qle_trans _ Num.lit_0_8); [|exact E8]. vm_compute. discriminate.
Qed.

Lemma count_cons f r rs : count f (r :: rs) = (Nat.b2n (f r) + count f rs)%nat.
Proof. unfold count. simpl. by destruct (f r). Qed.

(** X25: the three classes of the similarity distribution (high, medium,
    low) partition the results: their sizes add up to the number of
    results. *)
Theorem distribution_partitions testResults :
  let '(high, medium, low) := similarity_distribution (calculateMetrics testResults) in
  (high + medium + low)%nat = length testResults.
Proof.
  unfold Evaluator.calculateMetrics.
  destruct testResults as [|r0 rs0]; [reflexivity|].
  change (length (r0 :: rs0) =? 0)%nat with false. cbv iota.
  cbn [similarity_distribution]. generalize (r0 :: rs0). intros rs.
  induction rs as [|r rs IH]; [reflexivity|].
  rewrite !count_cons. pose proof (buckets_partition (similarity r)). simpl length. lia.
Qed.

(** ** Rates and counts *)

Lemma ratio_unit n d :
  (n <= d)%nat -> Z.of_nat d < 2 ^ 53 -> (0 <= ratio n d <= 1)%Q.
Proof.
  intros Hnd Hd. unfold ratio. destruct (0 <? d)%nat eqn:E.
  - apply Nat.ltb_lt in E. by apply fdiv_unit.
  - split; discriminate.
Qed.

Lemma count_disjoint (f g : test_result -> bool) rs :
  (forall r, f r && g r = false) -> (count f rs + count g rs <= length rs)%nat.
Proof.
  intros Hfg. induction rs as [|r rs IH]; [done|].
  rewrite !count_cons. specialize (Hfg r). simpl length.
  destruct (f r), (g r); simpl in *; try done; lia.
Qed.

Lemma count_included (f g : test_result -> bool) rs :
  (forall r, f r = true -> g r = true) -> (count f rs <= count g rs)%nat.
Proof.
  intros Hfg. induction rs as [|r rs IH]; [done|].
  rewrite !count_cons. specialize (Hfg r).
  destruct (f r), (g r); simpl in *; try lia; by specialize (Hfg eq_refl).
Qed.

Lemma geb_ltb x y : Num.geb x y && Num.ltb x y = false.
Proof. unfold Num.geb, Num.ltb. by destruct (Qle_bool y x). Qed.

(** X26: for any list of results, accuracy, precision and recall lie between
    0 and 1.  The bound on the number of results is the one every
    ECMAScript array obeys. *)
Theorem rates_unit_interval testResults :
  Z.of_nat (length testResults) < 2 ^ 32 ->
  (0 <= accuracy (calculateMetrics testResults) <= 1)%Q
  /\ (0 <= precision (calculateMetrics testResults) <= 1)%Q
  /\ (0 <= recall (calculateMetrics testResults) <= 1)%Q.
Proof.
  intros Hlen. unfold Evaluator.calculateMetrics.
  destruct testResults as [|r0 rs0]; [by repeat split|].
  change (length (r0 :: rs0) =? 0)%nat with false. cbv iota.
  cbn [accuracy precision recall]. revert Hlen. generalize (r0 :: rs0) as rs.
  intros rs Hlen. pose proof (count_le high rs) as Htp.
  pose proof (count_le (fun r => Num.ltb (similarity r) Num.lit_0_7 && correct r) rs).
  pose proof (count_le (fun r => Num.geb (similarity r) Num.lit_0_7 && negb (correct r)) rs).
  pose proof (count_le correct rs).
  assert (2 ^ 32 + 2 ^ 32 < 2 ^ 53) by (vm_compute; reflexivity).
  split; [|split; apply ratio_unit; lia].
  destruct rs as [|r rs']; [by cbn|]. apply fdiv_unit; [done|simpl; lia|lia].
Qed.

(** X27: in the confusion matrix every false negative is also counted as a
    true positive, true and false positives together are at most the number
    of results, and [true_negatives] is what remains after the false
    negatives have been subtracted a second time, so that it can be
    negative. *)
Theorem confusion_matrix_counts testResults cm :
  confusionMatrix (calculateMetrics testResults) = Some cm ->
  (false_negatives cm <= true_positives cm)%nat
  /\ (true_positives cm + false_positives cm <= length testResults)%nat
  /\ true_negatives cm + Z.of_nat (false_negatives cm)
     = Z.of_nat (length testResults - true_positives cm - false_positives cm).
Proof.
  unfold Evaluator.calculateMetrics.
  destruct (length testResults =? 0)%nat; [done|]. cbn [confusionMatrix].
  intros [= <-]. cbn [true_positives false_positives false_negatives true_negatives].
  assert (count (fun r => Num.geb (similarity r) Num.lit_0_7 && negb (correct r)) testResults
          <= count high testResults)%nat as Hfn.
  { apply count_included. intros r Hr. unfold high. by apply andb_true_iff in Hr as [? _]. }
  assert (count high testResults
          + count (fun r => Num.ltb (similarity r) Num.lit_0_7 && correct r) testResults
          <= length testResults)%nat as Hfp.
  { apply count_disjoint. intros r. unfold high.
    pose proof (geb_ltb (similarity r) Num.lit_0_7).
    destruct (Num.geb _ _), (Num.ltb _ _), (correct r); done. }
  split; [exact Hfn|]. split; [exact Hfp|]. lia.
Qed.

End Measures.

(** ** Sample scores *)

Definition unreachable (i : nat) (input : string) : call_outcome := CallFailed.

Lemma similarity_unit_interval_witness :
  (0 <= Evaluator.calculateSimilarity Platform.ascii_toLowerCase "Hello world" "hello there"
     <= 1)%Q.
Proof.
  apply (similarity_unit_interval Platform.ascii_toLowerCase "Hello world" "hello there");
    vm_compute; reflexivity.
Defined.

Lemma similarity_same_words_witness :
  Evaluator.calculateSimilarity Platform.ascii_toLowerCase "Hello World" "hello world" = 1%Q
  /\ Num.geb (Evaluator.calculateSimilarity Platform.ascii_toLowerCase
                "Hello World" "hello world") Num.lit_0_7 = true.
Proof.
  apply (similarity_same_words Platform.ascii_toLowerCase "Hello World" "hello world");
    vm_compute; reflexivity.
Defined.

Lemma results_cover_examples_witness :
  length (Evaluator.testModelWithExamples Platform.ascii_toLowerCase unreachable [hello])
  = length [hello]
  /\ forall i e r,
       [hello] !! i = Some e ->
       Evaluator.testModelWithExamples Platform.ascii_toLowerCase unreachable [hello] !! i
       = Some r ->
       (content <$> find_role "user" e) = Some (input r)
       /\ (content <$> find_role "assistant" e) = Some (expected r)
       /\ (unreachable i (input r) = CallFailed ->
           predicted r = EmptyString /\ correct r = false /\ similarity r = 0%Q).
Proof.
  apply (results_cover_examples Platform.ascii_toLowerCase unreachable [hello]).
  repeat constructor; eexists; reflexivity.
Defined.

(** Three results with matching answers, each recorded as incorrect. *)
Definition overruled : list test_result :=
  replicate 3 {| input := "q"; expected := "a"; predicted := "a";
                 correct := false; similarity := 1 |}.

Lemma rates_unit_interval_witness :
  (0 <= accuracy (Evaluator.calculateMetrics no_log overruled) <= 1)%Q
  /\ (0 <= precision (Evaluator.calculateMetrics no_log overruled) <= 1)%Q
  /\ (0 <= recall (Evaluator.calculateMetrics no_log overruled) <= 1)%Q.
Proof.
  apply (rates_unit_interval no_log overruled). vm_compute. reflexivity.
Defined.

Definition overruled_matrix : confusion_matrix :=
  {| true_positives := 3; false_positives := 0; false_negatives := 3; true_negatives := -3 |}.

Lemma confusion_matrix_counts_witness :
  (false_negatives overruled_matrix <= true_positives overruled_matrix)%nat
  /\ (true_positives overruled_matrix + false_positives overruled_matrix
      <= length overruled)%nat
  /\ true_negatives overruled_matrix + Z.of_nat (false_negatives overruled_matrix)
     = Z.of_nat (length overruled - true_positives overruled_matrix
                 - false_positives overruled_matrix).
Proof.
  apply (confusion_matrix_counts no_log overruled overruled_matrix). vm_compute. reflexivity.
Defined.

End Scores.
